(** * Verification of [io/util.py] (PiFM / ANFATEC loading utilities)

    A shallow embedding of the four functions of [src/io/util.py] that the
    specification talks about:

    - [read_anfatec_params]: the line-oriented parameter-file parser;
    - [HyperImage.__init__]: the cube and channel-stack builder;
    - [hyperslice]: the wavenumber range reducer, which accumulates in place
      into a view of the cube;
    - [to_2d]: the flattening of a cube into an observation matrix.

    The module is Python 2 (it calls [unicode]).  Numeric arrays hold IEEE
    binary64 values, as numpy's [float64] does; they are modelled with Rocq's
    primitive floats.  A Python [dict] with string keys is a
    [gmap string string]; a numpy array of rank three is a nested list
    indexed in the order of its axes.  A function that can raise returns a
    [result]; a function that writes into an array it was given returns the
    array it leaves behind. *)

From Stdlib Require Import ZArith List Ascii String Floats Lia Bool.
From stdpp Require Import base option gmap strings list fin_maps.

Local Open Scope Z_scope.

(** ** Python values shared by the model *)

(** The exceptions the modelled code can raise. *)
Inductive pyerr : Type :=
| ValueError
| IndexError
| KeyError
| ZeroDivisionError
| OverflowError
| UnicodeEncodeError
| IOError.

(** A computation that either returns or raises. *)
Inductive result (A : Type) : Type :=
| Ok (a : A)
| Raise (e : pyerr).
Arguments Ok {A} a.
Arguments Raise {A} e.

#[global] Instance result_ret : MRet result := λ A a, Ok a.
#[global] Instance result_bind : MBind result := λ A B k m,
  match m with
  | Ok a => k a
  | Raise e => Raise e
  end.

#[global] Instance result_fmap : FMap result := λ A B f m,
  match m with
  | Ok a => Ok (f a)
  | Raise e => Raise e
  end.

Definition of_option {A : Type} (e : pyerr) (o : option A) : result A :=
  match o with
  | Some a => Ok a
  | None => Raise e
  end.

(** ** Python string methods *)

Module PyStr.

(** A Python (unicode) string decoded from ISO-8859-1: one character per
    byte. *)
Abbreviation chars := (list ascii).

(** [unicode.isspace] restricted to the code points below 256. *)
Definition isspace (c : ascii) : bool :=
  let n := N_of_ascii c in
  ((9 <=? n) && (n <=? 13) || (28 <=? n) && (n <=? 32)
   || (n =? 133) || (n =? 160))%N.

Fixpoint lstrip (s : chars) : chars :=
  match s with
  | [] => []
  | c :: s' => if isspace c then lstrip s' else s
  end.
Definition rstrip (s : chars) : chars := reverse (lstrip (reverse s)).
(** [s.strip()] *)
Definition strip (s : chars) : chars := rstrip (lstrip s).

Fixpoint startswith_chars (s p : chars) : bool :=
  match p, s with
  | [], _ => true
  | _ :: _, [] => false
  | a :: p', b :: s' => Ascii.eqb a b && startswith_chars s' p'
  end.
(** [s.startswith(p)] and [s.endswith(p)] *)
Definition startswith (s : chars) (p : string) : bool :=
  startswith_chars s (list_ascii_of_string p).
Definition endswith (s : chars) (p : string) : bool :=
  startswith_chars (reverse s) (reverse (list_ascii_of_string p)).

(** [s.split(sep)] for a separator of one character: [n] separators give
    [n + 1] segments, and the empty string gives one empty segment. *)
Fixpoint split (sep : ascii) (s : chars) : list chars :=
  match s with
  | [] => [[]]
  | c :: s' =>
      if Ascii.eqb c sep then [] :: split sep s'
      else match split sep s' with
           | seg :: rest => (c :: seg) :: rest
           | [] => [[c]]
           end
  end.

(** [l[0]] and [l[-1]] of a list of segments ([split] never returns an empty
    list, so the default is not reached). *)
Definition first (l : list chars) : chars := hd [] l.
Definition last (l : list chars) : chars := List.last l [].

(** A string is stripped when it neither starts nor ends with whitespace. *)
Definition stripped (s : chars) : Prop :=
  match s with
  | [] => True
  | c :: _ => isspace c = false ∧ isspace (List.last s c) = false
  end.

Definition to_str (s : chars) : string := string_of_list_ascii s.
Definition of_str (s : string) : chars := list_ascii_of_string s.

End PyStr.

(** ** [read_anfatec_params] *)

Module Parser.

(** The local variables of [read_anfatec_params] that live across the
    iterations of its loop. *)
Record state : Type := mkState {
  scan_params : gmap string string;
  file_descriptions : list (gmap string string);
  spectra_descriptions : list (gmap string string);
  parameters : gmap string string;
  inside_description : bool
}.

Definition init : state :=
  mkState ∅ [] [] ∅ false.

(** Line 162 and line 165: the two tests that open a block. *)
Definition opens_file (row : PyStr.chars) : bool :=
  PyStr.endswith row "Begin" && PyStr.startswith row "File".
Definition opens_spectrum (row : PyStr.chars) : bool :=
  PyStr.endswith row "SpectrumDescBegin".

(** Line 168 and line 172: the two tests that close a block. *)
Definition closes_file (row : PyStr.chars) : bool :=
  PyStr.endswith row "End" && PyStr.startswith row "File".
Definition closes_spectrum (row : PyStr.chars) : bool :=
  PyStr.endswith row "SpectrumDescEnd".

(** Lines 168-171. *)
Definition on_file_end (row : PyStr.chars) (st : state) : state :=
  if closes_file row then
    mkState (scan_params st)
            (file_descriptions st ++ [parameters st])
            (spectra_descriptions st)
            ∅
            false
  else st.

(** Lines 172-174. *)
Definition on_spectrum_end (row : PyStr.chars) (st : state) : state :=
  if closes_spectrum row then
    mkState (scan_params st)
            (file_descriptions st)
            (spectra_descriptions st ++ [parameters st])
            ∅
            (inside_description st)
  else st.

(** Lines 177-180: split on [:] and strip every segment. *)
Definition split_row (row : PyStr.chars) : list PyStr.chars :=
  map PyStr.strip (PyStr.split ":"%char row).

Definition key_of (row : PyStr.chars) : string :=
  PyStr.to_str (PyStr.first (split_row row)).
Definition value_of (row : PyStr.chars) : string :=
  PyStr.to_str (PyStr.last (split_row row)).

(** Lines 183-186: the pair goes to the accumulator of the block when the
    flag is set, and to the scan parameters otherwise. *)
Definition put (k v : string) (st : state) : state :=
  if inside_description st then
    mkState (scan_params st) (file_descriptions st) (spectra_descriptions st)
            (<[k := v]> (parameters st))
            (inside_description st)
  else
    mkState (<[k := v]> (scan_params st))
            (file_descriptions st) (spectra_descriptions st)
            (parameters st)
            (inside_description st).
Definition store (row : PyStr.chars) (st : state) : state :=
  put (key_of row) (value_of row) st.

(** One iteration of the loop of line 151, on the line as read. *)
Definition step (st : state) (line : string) : state :=
  let row := PyStr.strip (PyStr.of_str line) in
  match row with
  | [] => st
  | c :: _ =>
      if Ascii.eqb c ";"%char then st
      else if opens_file row then
        mkState (scan_params st) (file_descriptions st)
                (spectra_descriptions st) (parameters st) true
      else if opens_spectrum row then
        mkState (scan_params st) (file_descriptions st)
                (spectra_descriptions st) (parameters st) true
      else store row (on_spectrum_end row (on_file_end row st))
  end.

Definition run (lines : list string) : state := fold_left step lines init.

(** The classes of lines the specification names, on the stripped line:
    a skipped line is empty or a comment, a structural line passes one of
    the four tests on block markers. *)
Definition skipped (row : PyStr.chars) : bool :=
  match row with
  | [] => true
  | c :: _ => Ascii.eqb c ";"%char
  end.
Definition structural (row : PyStr.chars) : bool :=
  opens_file row || opens_spectrum row || closes_file row || closes_spectrum row.

(** The function itself: the lines of the file in, the returned triple
    out.  No statement of the loop can raise. *)
Definition read_anfatec_params (lines : list string)
  : gmap string string * list (gmap string string) * list (gmap string string) :=
  let st := run lines in
  (scan_params st, file_descriptions st, spectra_descriptions st).

(** The line as the loop sees it after line 154. *)
Definition row_of (line : string) : PyStr.chars := PyStr.strip (PyStr.of_str line).

(** The pairs of a run of lines, stored one after the other into a
    mapping, as lines 177-186 store them. *)
Definition add_pairs (lines : list string) (m : gmap string string)
    : gmap string string :=
  fold_left (λ m line, <[key_of (row_of line) := value_of (row_of line)]> m) lines m.

End Parser.

(** ** Numbers: Python [int], numpy [int32] and [float64] *)

Module Num.

#[global] Instance float_inhabited : Inhabited float := populate 0%float.

(** [int(x)] on a float: truncation towards zero; [nan] raises
    [ValueError] and an infinity [OverflowError]. *)
Definition py_int (x : float) : result Z :=
  match Prim2SF x with
  | S754_zero _ => Ok 0
  | S754_infinity _ => Raise OverflowError
  | S754_nan => Raise ValueError
  | S754_finite s m e =>
      let v := if 0 <=? e then Z.pos m * 2 ^ e else Z.pos m / 2 ^ (- e) in
      Ok (if s then - v else v)
  end.

(** The promotion of an [int32] sample to [float64] in [scaling*pixel]
    (exact: every 32-bit integer is a binary64 value). *)
Definition of_i4 (z : Z) : float :=
  if z <? 0 then PrimFloat.opp (PrimFloat.of_uint63 (Uint63.of_Z (- z)))
  else PrimFloat.of_uint63 (Uint63.of_Z z).

(** One little-endian two's-complement [i4] item. *)
Definition i4_of_bytes (b0 b1 b2 b3 : Byte.byte) : Z :=
  let u := Z.of_N (Byte.to_N b0) + 2 ^ 8 * Z.of_N (Byte.to_N b1)
           + 2 ^ 16 * Z.of_N (Byte.to_N b2) + 2 ^ 24 * Z.of_N (Byte.to_N b3) in
  if u <? 2 ^ 31 then u else u - 2 ^ 32.

(** [np.fromfile(path, dtype='i4')] on the bytes of the file: the complete
    items, in order; a trailing partial item is not read. *)
Fixpoint fromfile_i4 (bytes : list Byte.byte) : list Z :=
  match bytes with
  | b0 :: b1 :: b2 :: b3 :: rest => i4_of_bytes b0 b1 b2 b3 :: fromfile_i4 rest
  | _ => []
  end.

Definition is_digit (c : ascii) : bool :=
  let n := N_of_ascii c in ((48 <=? n) && (n <=? 57))%N.

Definition digits_value (s : PyStr.chars) : Z :=
  fold_left (λ acc c, 10 * acc + (Z.of_N (N_of_ascii c) - 48)) s 0.

(** [int(s)] on a string, base ten: surrounding whitespace is dropped, one
    sign is allowed, and at least one digit must follow. *)
Definition int_of_str (s : string) : result Z :=
  let body (neg : bool) (ds : PyStr.chars) : result Z :=
    match ds with
    | [] => Raise ValueError
    | _ => if forallb is_digit ds
           then Ok (if neg then - digits_value ds else digits_value ds)
           else Raise ValueError
    end in
  match PyStr.strip (PyStr.of_str s) with
  | c :: ds =>
      if Ascii.eqb c "-"%char then body true ds
      else if Ascii.eqb c "+"%char then body false ds
      else body false (c :: ds)
  | [] => Raise ValueError
  end.

End Num.

(** ** numpy arrays *)

Module Np.

(** Arrays of rank one, two and three, indexed in the order of their axes.
    An array of rank three made by the builder has at least one row and one
    column, so its shape can be read back from the nested list. *)
Abbreviation array1 := (list float).
Abbreviation array2 := (list (list float)).
Abbreviation array3 := (list (list (list float))).

(** [a.shape[0]], [a.shape[1]] and [a.shape[2]]. *)
Definition shape0 {A : Type} (a : list A) : nat := length a.
Definition shape1 {A : Type} (a : list (list A)) : nat :=
  match a with
  | [] => 0%nat
  | row :: _ => length row
  end.
Definition shape2 (a : array3) : nat :=
  match a with
  | (cell :: _) :: _ => length cell
  | _ => 0%nat
  end.

(** The array is rectangular, of shape [(X, Y, S)]. *)
Definition has_shape (X Y S : nat) (a : array3) : Prop :=
  length a = X ∧
  Forall (λ row, length row = Y ∧ Forall (λ cell : list float, length cell = S) row) a.

Definition has_shape2 (N M : nat) (a : array2) : Prop :=
  length a = N ∧ Forall (λ row : list float, length row = M) a.

(** [np.zeros((n, m))] and [np.zeros((x, y, s))]; a negative dimension
    raises [ValueError]. *)
Definition zeros2 (n m : Z) : result array2 :=
  if (n <? 0) || (m <? 0) then Raise ValueError
  else Ok (replicate (Z.to_nat n) (replicate (Z.to_nat m) 0%float)).
Definition zeros3 (x y s : Z) : result array3 :=
  if (x <? 0) || (y <? 0) || (s <? 0) then Raise ValueError
  else Ok (replicate (Z.to_nat x)
             (replicate (Z.to_nat y) (replicate (Z.to_nat s) 0%float))).

(** [np.split(a, n)] for an integer [n]: [n] pieces of equal length.
    [len(a) % n] raises [ZeroDivisionError] for [n = 0]; an unequal division
    and a negative [n] raise [ValueError]. *)
Definition chunk {A : Type} (size : nat) (a : list A) (i : nat) : list A :=
  take size (drop (i * size) a).
Definition split {A : Type} (a : list A) (n : Z) : result (list (list A)) :=
  if n =? 0 then Raise ZeroDivisionError
  else if n <? 0 then Raise ValueError
  else if negb (Z.of_nat (length a) mod n =? 0) then Raise ValueError
  else let size := (length a / Z.to_nat n)%nat in
       Ok (map (chunk size a) (seq 0 (Z.to_nat n))).

(** The transpose of the two leading axes. *)
Definition transpose {A : Type} `{Inhabited A} (a : list (list A)) : list (list A) :=
  map (λ j, map (λ row : list A, row !!! j) a) (seq 0 (shape1 a)).

(** [a[:, ::-1]] *)
Definition flip1 {A : Type} (a : list (list A)) : list (list A) :=
  map reverse a.

(** [np.rot90(a, k=-1)]: numpy computes it as
    [flip(transpose(a, (1, 0, ...)), 1)]. *)
Definition rot90_neg1 {A : Type} `{Inhabited A} (a : list (list A)) : list (list A) :=
  flip1 (transpose a).

(** The bounds of a slice [lo:hi] with step one on an axis of length [n],
    as Python normalises them: a negative bound counts from the end, and
    both are clamped to the axis. *)
Definition slice_bound (n : nat) (i : Z) : nat :=
  if i <? 0 then Z.to_nat (Z.max (i + Z.of_nat n) 0)
  else Z.to_nat (Z.min i (Z.of_nat n)).
Definition slice_bounds (n : nat) (b : Z * Z) : nat * nat :=
  (slice_bound n (fst b), slice_bound n (snd b)).

(** The elements [lo <= i < hi] of a list. *)
Definition slice {A : Type} (b : nat * nat) (l : list A) : list A :=
  take (snd b - fst b) (drop (fst b) l).

Definition in_bounds (b : nat * nat) (i : nat) : bool :=
  (fst b <=? i)%nat && (i <? snd b)%nat.

(** The cell [a[x, y]] of an array of rank three, when there is one. *)
Definition cell_at (a : array3) (x y : nat) : option (list float) :=
  row ← a !! x; row !! y.

End Np.

(** ** [to_2d] *)

Module To2d.

(** The loop variables of [to_2d]: [counter] and [featurematrix]. *)
Record state : Type := mkState {
  counter : Z;
  featurematrix : Np.array2
}.

(** [featurematrix[counter] = row]: a negative index counts from the end,
    and an index outside the axis raises [IndexError].  The row assigned
    has the length of the rows of [featurematrix]. *)
Definition set_row (counter : Z) (row : list float) (fm : Np.array2) : result Np.array2 :=
  let n := Z.of_nat (length fm) in
  let i := if counter <? 0 then counter + n else counter in
  if (i <? 0) || (n <=? i) then Raise IndexError
  else Ok (<[Z.to_nat i := row]> fm).

(** [spectralmatrix[x,y,:] / laserpower] *)
Definition corrected (spectralmatrix : Np.array3) (laserpower : float) (x y : nat)
  : result (list float) :=
  row ← of_option IndexError (spectralmatrix !! x);
  cell ← of_option IndexError (row !! y);
  Ok (map (λ v, PrimFloat.div v laserpower) cell).

(** Lines 205-206: the loop over [z] repeats one and the same assignment. *)
Fixpoint z_loop (spectralmatrix : Np.array3) (laserpower : float) (x y : nat)
    (zaxis : nat) (st : state) : result state :=
  match zaxis with
  | O => Ok st
  | S n =>
      v ← corrected spectralmatrix laserpower x y;
      fm ← set_row (counter st) v (featurematrix st);
      z_loop spectralmatrix laserpower x y n (mkState (counter st) fm)
  end.

(** Lines 203-206, for [y] in [ys]. *)
Fixpoint y_loop (spectralmatrix : Np.array3) (laserpower : float) (x : nat)
    (zaxis : nat) (ys : list nat) (st : state) : result state :=
  match ys with
  | [] => Ok st
  | y :: ys' =>
      st' ← z_loop spectralmatrix laserpower x y zaxis
              (mkState (counter st + 1) (featurematrix st));
      y_loop spectralmatrix laserpower x zaxis ys' st'
  end.

(** Lines 202-206, for [x] in [xs]. *)
Fixpoint x_loop (spectralmatrix : Np.array3) (laserpower : float)
    (yaxis zaxis : nat) (xs : list nat) (st : state) : result state :=
  match xs with
  | [] => Ok st
  | x :: xs' =>
      st' ← y_loop spectralmatrix laserpower x zaxis (seq 0 yaxis) st;
      x_loop spectralmatrix laserpower yaxis zaxis xs' st'
  end.

Definition to_2d (spectralmatrix : Np.array3) (laserpower : float) : result Np.array2 :=
  let xaxis := Np.shape0 spectralmatrix in
  let yaxis := Np.shape1 spectralmatrix in
  row0 ← of_option IndexError (spectralmatrix !! 0%nat);
  cell0 ← of_option IndexError (row0 !! 0%nat);
  let zaxis := length cell0 in
  fm ← Np.zeros2 (Z.of_nat (xaxis * yaxis)) (Z.of_nat zaxis);
  st ← x_loop spectralmatrix laserpower yaxis zaxis (seq 0 xaxis) (mkState (-1) fm);
  Ok (featurematrix st).

(** The matrix [to_2d] is meant to build: the spectral vectors in row-major
    order over [(x, y)], each divided by the laser power. *)
Definition corrected_rows (spectralmatrix : Np.array3) (laserpower : float) : Np.array2 :=
  map (λ cell, map (λ v, PrimFloat.div v laserpower) cell) (concat spectralmatrix).

(** [featurematrix] once its first [k] rows are assigned, for a cube of shape
    [(X, Y, Ns)]: the corrected rows below [k], zeros from [k] on. *)
Definition partial (spectralmatrix : Np.array3) (laserpower : float)
    (X Y Ns k : nat) : Np.array2 :=
  take k (corrected_rows spectralmatrix laserpower)
  ++ drop k (replicate (X * Y) (replicate Ns 0%float)).

End To2d.

(** ** [HyperImage] *)

Module Hyper.

(** The attributes of a [HyperImage] object. *)
Record HyperImage : Type := mkHyper {
  parms : gmap string string;
  wavelength_data : list float;
  channel_names : list string;
  hyper_image : Np.array3;
  channel_data : Np.array3
}.

(** The directory of the parameter file: the lines of the parameter file,
    what [np.loadtxt] returns for a text file of that directory (an array of
    rank one: a column of wavelengths), and the bytes of its binary files.
    Files are named as the descriptors name them; a missing file raises
    [IOError]. *)
Record directory : Type := mkDir {
  param_lines : list string;
  loadtxt : string → option (list float);
  binary : string → option (list Byte.byte)
}.

(** [d[k]] on a dict and [l[i]] on a list. *)
Definition getitem (d : gmap string string) (k : string) : result string :=
  of_option KeyError (d !! k).
Definition nth_item {A : Type} (l : list A) (i : nat) : result A :=
  of_option IndexError (l !! i).

(** [str(u)] on a unicode string (Python 2): only ASCII encodes. *)
Definition py_str (u : string) : result string :=
  if forallb (λ c, (N_of_ascii c <? 128)%N) (PyStr.of_str u) then Ok u
  else Raise UnicodeEncodeError.

(** [np.fromfile(os.path.join(directory, name), dtype='i4')] *)
Definition fromfile (dir : directory) (name : string) : result (list Z) :=
  bytes ← of_option IOError (binary dir name);
  Ok (Num.fromfile_i4 bytes).

(** [scale * pixel]: an [int32] vector times a Python float. *)
Definition scaled (scale : float) (pixel : list Z) : list float :=
  map (λ p, PrimFloat.mul scale (Num.of_i4 p)) pixel.

(** The value stored by [a[j,i,:] = v] into a cell of length [n]: [v] is
    broadcast when it has one element, and must have [n] otherwise. *)
Definition broadcast (n : nat) (v : list float) : result (list float) :=
  if (length v =? n)%nat then Ok v
  else match v with
       | [x] => Ok (replicate n x)
       | _ => Raise ValueError
       end.

(** An assignment into the cell [a[j,i]] of an array: the cell is looked
    up, [store] computes its new content from the value assigned, and the
    array is updated in place. *)
Definition assign_cell (store : list Z → list float → result (list float))
    (j i : nat) (pixel : list Z) (a : Np.array3) : result Np.array3 :=
  row ← nth_item a j;
  cell ← nth_item row i;
  new ← store pixel cell;
  Ok (<[j := <[i := new]> row]> a).

(** Line 106: [hyper_image[j,i,:] = pifm_scaling*pixel] *)
Definition store_spectrum (scale : float) (pixel : list Z) (cell : list float)
    : result (list float) :=
  broadcast (length cell) (scaled scale pixel).
Definition assign_spectrum (scale : float) :=
  assign_cell (store_spectrum scale).

(** Line 117: [channel_data[j,i,ch] = (scaling*pixel)]; an array is
    accepted for one element only when it has exactly one element. *)
Definition store_sample (scale : float) (ch : nat) (pixel : list Z)
    (cell : list float) : result (list float) :=
  if (length cell <=? ch)%nat then Raise IndexError
  else match scaled scale pixel with
       | [v] => Ok (<[ch := v]> cell)
       | _ => Raise ValueError
       end.
Definition assign_sample (scale : float) (ch : nat) :=
  assign_cell (store_sample scale ch).

(** Lines 105-106 and 116-117: [for j, pixel in enumerate(...)], from
    index [j] on. *)
Fixpoint pixel_loop (assign : nat → nat → list Z → Np.array3 → result Np.array3)
    (i j : nat) (pixels : list (list Z)) (a : Np.array3) : result Np.array3 :=
  match pixels with
  | [] => Ok a
  | pixel :: rest =>
      a' ← assign j i pixel a;
      pixel_loop assign i (S j) rest a'
  end.

(** Lines 104-106 and 115-117: [for i, line in enumerate(...)], from index
    [i] on. *)
Fixpoint line_loop (assign : nat → nat → list Z → Np.array3 → result Np.array3)
    (x_pixel : Z) (i : nat) (lines : list (list Z)) (a : Np.array3)
    : result Np.array3 :=
  match lines with
  | [] => Ok a
  | line :: rest =>
      pixels ← Np.split line x_pixel;
      a' ← pixel_loop assign i 0 pixels a;
      line_loop assign x_pixel (S i) rest a'
  end.

(** The two nested loops over the samples of one file. *)
Definition fill (assign : nat → nat → list Z → Np.array3 → result Np.array3)
    (x_pixel y_pixel : Z) (data : list Z) (a : Np.array3) : result Np.array3 :=
  lines ← Np.split data y_pixel;
  line_loop assign x_pixel 0 lines a.

Section Init.

(** Python's [float(s)] on a string; it raises [ValueError] on a string
    that is not a number. *)
Variable py_float : string → result float.

Variable dir : directory.

(** Lines 110-117, for the channels from number [ch] on; the state is
    [self.channel_names] and [channel_data]. *)
Fixpoint channel_loop (x_pixel y_pixel : Z) (ch : nat)
    (channels : list (gmap string string))
    (st : list string * Np.array3) : result (list string * Np.array3) :=
  match channels with
  | [] => Ok st
  | channel :: rest =>
      caption ← getitem channel "Caption";
      name ← getitem channel "FileName";
      data ← fromfile dir name;
      scale ← getitem channel "Scale";
      scaling ← py_float scale;
      a ← fill (assign_sample scaling ch) x_pixel y_pixel data (snd st);
      channel_loop x_pixel y_pixel (S ch) rest (fst st ++ [caption], a)
  end.

(** Lines 82-117: everything before the orientation is normalised.  The
    result is [self.parms], [self.wavelength_data], [self.channel_names]
    and the local arrays [hyper_image] and [channel_data]. *)
Definition build : result HyperImage :=
  let '(parms, channels, e) := Parser.read_anfatec_params (param_lines dir) in
  xs ← getitem parms "xPixel";
  x_pixel ← Num.int_of_str xs;
  ys ← getitem parms "yPixel";
  y_pixel ← Num.int_of_str ys;
  first ← nth_item channels 0;
  wname ← getitem first "FileNameWavelengths";
  wname ← py_str wname;
  wavelength_data ← of_option IOError (loadtxt dir wname);
  let wavenumber_length := Z.of_nat (length wavelength_data) in
  hyper_image ← Np.zeros3 x_pixel y_pixel wavenumber_length;
  scale ← getitem first "Scale";
  pifm_scaling ← py_float scale;
  name ← getitem first "FileName";
  data ← fromfile dir name;
  hyper_image ← fill (assign_spectrum pifm_scaling) x_pixel y_pixel data hyper_image;
  channel_data ← Np.zeros3 x_pixel y_pixel (Z.of_nat (length (drop 1 channels)));
  st ← channel_loop x_pixel y_pixel 0 (drop 1 channels) ([], channel_data);
  Ok (mkHyper parms wavelength_data (fst st) hyper_image (snd st)).

(** Lines 120-124: [np.rot90(a, k=-1)], then [a[:,::-1,:]]. *)
Definition normalise (a : Np.array3) : Np.array3 :=
  Np.flip1 (Np.rot90_neg1 a).

(** [HyperImage(path)] *)
Definition init : result HyperImage :=
  h ← build;
  Ok (mkHyper (parms h) (wavelength_data h) (channel_names h)
        (normalise (hyper_image h)) (normalise (channel_data h))).

End Init.

End Hyper.

(** ** [hyperslice] *)

Module Slice.

Import Hyper.

(** What [a[r0:r1, c0:c1, k]] returns: not a copy, but a window on the
    memory of [a].  The bounds are the normalised bounds of the slices. *)
Record view : Type := mkView {
  v_rows : nat * nat;
  v_cols : nat * nat;
  v_plane : nat
}.

(** The values seen through a view of the array [a]. *)
Definition read (a : Np.array3) (v : view) : Np.array2 :=
  map (λ row : list (list float),
         map (λ cell : list float, cell !!! v_plane v) (Np.slice (v_cols v) row))
      (Np.slice (v_rows v) a).

(** An update of the cells of the window of a view, each by [f], in the
    memory of the array. *)
Definition map_window (v : view) (f : list float → list float) (a : Np.array3)
    : Np.array3 :=
  imap (λ r (row : list (list float)),
          if Np.in_bounds (v_rows v) r then
            imap (λ c (cell : list float),
                    if Np.in_bounds (v_cols v) c then f cell else cell) row
          else row) a.

(** What [slc += a[r0:r1, c0:c1, k]] does to one cell when [slc] is a view
    at plane [p] of the same array: entry [k] is added to entry [p]. *)
Definition iadd_cell (p k : nat) (cell : list float) : list float :=
  <[p := PrimFloat.add (cell !!! p) (cell !!! k)]> cell.

(** [slc += a[r0:r1, c0:c1, k]] where [slc] is the view [v] of [a]. *)
Definition iadd (a : Np.array3) (v : view) (k : nat) : Np.array3 :=
  map_window v (iadd_cell (v_plane v) k) a.

(** Lines 67-68, for [i] in [idxs]; reading plane [start_index+i] raises
    [IndexError] when the array has no such plane. *)
Fixpoint accumulate (v : view) (start_index : nat) (idxs : list nat)
    (a : Np.array3) : result Np.array3 :=
  match idxs with
  | [] => Ok a
  | i :: rest =>
      if (Np.shape2 a <=? start_index + i)%nat then Raise IndexError
      else accumulate v start_index rest (iadd a v (start_index + i))
  end.

(** [[int(x) for x in wavenumber]] *)
Fixpoint ints (wavenumber : list float) : result (list Z) :=
  match wavenumber with
  | [] => Ok []
  | x :: rest =>
      n ← Num.py_int x;
      ns ← ints rest;
      Ok (n :: ns)
  end.

(** [l.index(v)]: the position of the first occurrence, [ValueError] when
    there is none. *)
Fixpoint find_index (l : list Z) (v : Z) : option nat :=
  match l with
  | [] => None
  | x :: rest => if x =? v then Some 0%nat else S <$> find_index rest v
  end.
Definition index (l : list Z) (v : Z) : result nat :=
  of_option ValueError (find_index l v).

(** [range(span)] *)
Definition range (span : Z) : list nat := seq 0 (Z.to_nat span).

(** The function: it returns the view [slc], and leaves the container with
    the cube the accumulation wrote into. *)
Definition hyperslice (hyper : HyperImage) (start stop : Z)
    (rows cols : option (Z * Z)) : result (view * HyperImage) :=
  let rows := default (0, Z.of_nat (Np.shape0 (channel_data hyper))) rows in
  let cols := default (0, Z.of_nat (Np.shape1 (channel_data hyper))) cols in
  wavenumberlist ← ints (wavelength_data hyper);
  start_index ← index wavenumberlist stop;
  stop_index ← index wavenumberlist start;
  let span := Z.of_nat stop_index - Z.of_nat start_index in
  let cube := hyper_image hyper in
  if (Np.shape2 cube <=? start_index)%nat then Raise IndexError
  else
    let slc := mkView (Np.slice_bounds (Np.shape0 cube) rows)
                      (Np.slice_bounds (Np.shape1 cube) cols) start_index in
    cube' ← accumulate slc start_index (range span) cube;
    Ok (slc, mkHyper (parms hyper) (wavelength_data hyper) (channel_names hyper)
               cube' (channel_data hyper)).

(** A container as the builder leaves it: the cube and the channel stack
    have the same rows and columns, at least one of each, and the cube has
    one plane per entry of the wavelength axis. *)
Definition built (h : HyperImage) : Prop :=
  ∃ R C Nc : nat,
    (0 < R)%nat ∧ (0 < C)%nat ∧
    Np.has_shape R C (length (wavelength_data h)) (hyper_image h) ∧
    Np.has_shape R C Nc (channel_data h).

(** The entry [a[r, c, k]], when there is one. *)
Definition get3 (a : Np.array3) (r c k : nat) : option float :=
  row ← a !! r; cell ← row !! c; cell !! k.

(** The entry [m[i, j]] of a matrix, when there is one. *)
Definition get2 (m : Np.array2) (i j : nat) : option float :=
  row ← m !! i; row !! j.

(** What the whole loop of lines 67-68 does to one cell of the window. *)
Definition accumulate_cell (p start_index : nat) (idxs : list nat)
    (cell : list float) : list float :=
  fold_left (λ cl i, iadd_cell p (start_index + i) cl) idxs cell.

(** The view [hyperslice] takes at plane [k]: the window of the slices
    [rows] and [cols], which default to the extent of the channel stack. *)
Definition window_view (hyper : HyperImage) (rows cols : option (Z * Z)) (k : nat)
    : view :=
  mkView
    (Np.slice_bounds (Np.shape0 (hyper_image hyper))
       (default (0, Z.of_nat (Np.shape0 (channel_data hyper))) rows))
    (Np.slice_bounds (Np.shape1 (hyper_image hyper))
       (default (0, Z.of_nat (Np.shape1 (channel_data hyper))) cols))
    k.

(** The container with another cube. *)
Definition with_cube (hyper : HyperImage) (cube : Np.array3) : HyperImage :=
  mkHyper (parms hyper) (wavelength_data hyper) (channel_names hyper)
          cube (channel_data hyper).

(** The array the caller holds after the call. *)
Definition returned (r : view * HyperImage) : Np.array2 :=
  read (hyper_image (snd r)) (fst r).

(** The sum of the planes [lo .. hi] inclusive over a window, plane by
    plane from [lo] upwards, as the docstring of [hyperslice] promises
    it. *)
Definition plane (a : Np.array3) (rows cols : nat * nat) (k : nat) : Np.array2 :=
  read a (mkView rows cols k).
Definition add2 (p q : Np.array2) : Np.array2 :=
  zip_with (zip_with PrimFloat.add) p q.
Definition plane_sum (a : Np.array3) (rows cols : nat * nat) (lo hi : nat) : Np.array2 :=
  fold_left (λ acc k, add2 acc (plane a rows cols k))
            (seq (S lo) (hi - lo)) (plane a rows cols lo).

End Slice.

(** ** Containers used as examples *)

(** ** Igor binary waves *)

Module Ibw.

(** [np.rot90(a)], with the default [k=1] on the axes [(0, 1)]: numpy
    computes it as [transpose(flip(a, 1), (1, 0, ...))]. *)
Definition rot90 {A : Type} `{Inhabited A} (a : list (list A)) : list (list A) :=
  Np.transpose (Np.flip1 a).

(** [a[:, :, 0]] *)
Definition plane0 (a : Np.array3) : Np.array2 :=
  map (map (λ cell : list float, cell !!! 0%nat)) a.

(** [a[:, :, 0] = m], for [m] of the shape of the plane. *)
Definition set_plane0 (m : Np.array2) (a : Np.array3) : Np.array3 :=
  zip_with (zip_with (λ v (cell : list float), <[0%nat := v]> cell)) m a.

Section Load.

(** [load(path)['wave']['wData']] of [igor.binarywave], as an array of rank
    three with at least one row and one column, and [scipy.signal.detrend]
    on a plane, with the conversion to the type of the wave that the
    assignment makes; either can raise. *)
Variable load : string → result Np.array3.
Variable detrend : Np.array2 → result Np.array2.

(** Lines 18-27.  Taking plane 0 of a wave without a channel raises
    [IndexError]. *)
Definition load_ibw (path : string) (flatten : bool) : result Np.array3 :=
  data ← load path;
  data ← (if flatten then
            if (Np.shape2 data =? 0)%nat then Raise IndexError
            else
              flat ← detrend (plane0 data);
              Ok (set_plane0 flat data)
          else Ok data);
  Ok (rot90 data).

End Load.

End Ibw.

#[local] Set Warnings "-inexact-float".

Module Sample.

Import Hyper.

(** One pixel, no channel beside the cube, and the wavelength axis of the
    specification, which truncates to [300, 305, 310]; the three planes hold
    1, 10 and 100. *)
Definition c3 : HyperImage :=
  mkHyper ∅ [300.2; 305.9; 310.1]%float [] [[[1; 10; 100]]]%float [[[]]].

(** The same container with a cube of zeros. *)
Definition zero3 : HyperImage :=
  mkHyper ∅ [300.2; 305.9; 310.1]%float [] [[[0; 0; 0]]]%float [[[]]].

(** Python's [float] on the strings the samples use for [Scale], which are
    integer literals: on those it is the integer as a binary64 value. *)
Definition float_of_literal (s : string) : result float :=
  n ← Num.int_of_str s; Ok (Num.of_i4 n).

(** A scan of two pixels in [x] and one in [y] with two wavelengths: the
    cube file holds the spectra (1, 2) and (3, 4), and the one channel file
    the samples 5 and -1, to be scaled by 2. *)
Definition scan_2x1 : directory :=
  mkDir
    ["; ANFATEC Parameterfile"; "xPixel : 2"; "yPixel : 1";
     "FileDescBegin"; "FileName : cube.int"; "Caption : hyPIRFwd";
     "Scale : 1"; "FileNameWavelengths : wavelengths.txt"; "FileDescEnd";
     "FileDescBegin"; "FileName : topo.int"; "Caption : Topography";
     "Scale : 2"; "FileDescEnd"]
    (λ name, if String.eqb name "wavelengths.txt"
             then Some [300.2; 305.9]%float else None)
    (λ name,
       if String.eqb name "cube.int" then
         Some [Byte.x01; Byte.x00; Byte.x00; Byte.x00;
               Byte.x02; Byte.x00; Byte.x00; Byte.x00;
               Byte.x03; Byte.x00; Byte.x00; Byte.x00;
               Byte.x04; Byte.x00; Byte.x00; Byte.x00]
       else if String.eqb name "topo.int" then
         Some [Byte.x05; Byte.x00; Byte.x00; Byte.x00;
               Byte.xff; Byte.xff; Byte.xff; Byte.xff]
       else None).

(** A wave of one row and two columns with two channels, and a plane
    operation that subtracts one from every entry, in the place of
    [detrend]. *)
Definition wave_1x2 : Np.array3 := [[[1; 2]; [3; 4]]]%float.
Definition minus_one (m : Np.array2) : result Np.array2 :=
  Ok (map (map (λ v, PrimFloat.sub v 1)) m).

End Sample.

(** ** Tactics *)

(** Reduce the binds of the error monad on values that are known. *)
Ltac run_bind := cbn [mbind mret fmap result_bind result_ret result_fmap of_option].

(** A decidable proposition on literals, decided by computation. *)
Ltac decide_by_computation :=
  apply (bool_decide_unpack _); vm_compute; exact I.

(** * Properties *)

(** ** String methods *)

Section PyStrFacts.

Import PyStr.

Lemma split_not_nil sep s : split sep s ≠ [].
Proof.
  destruct s as [|c s]; simpl; [discriminate|].
  destruct (Ascii.eqb c sep); [discriminate|].
  destruct (split sep s); discriminate.
Qed.

(** Without a separator there is one segment: the string itself. *)
Lemma split_no_sep sep s : sep ∉ s → split sep s = [s].
Proof.
  induction s as [|c s IH]; intros Hs; [reflexivity|].
  apply not_elem_of_cons in Hs as [Hc Hs]. simpl.
  destruct (Ascii.eqb_spec c sep) as [->|_]; [contradiction|].
  now rewrite (IH Hs).
Qed.

(** The first segment is the text before the first separator. *)
Lemma split_first sep pre tail :
  sep ∉ pre → first (split sep (pre ++ sep :: tail)) = pre.
Proof.
  induction pre as [|c pre IH]; intros Hpre; simpl.
  - now rewrite Ascii.eqb_refl.
  - apply not_elem_of_cons in Hpre as [Hc Hpre].
    destruct (Ascii.eqb_spec c sep) as [->|_]; [contradiction|].
    specialize (IH Hpre). unfold first in *.
    destruct (split sep (pre ++ sep :: tail)) as [|seg rest]; simpl in *;
      now subst.
Qed.

Lemma split_two_segments sep front post :
  (2 <= length (split sep (front ++ sep :: post)))%nat.
Proof.
  induction front as [|c front IH]; simpl.
  - rewrite Ascii.eqb_refl. simpl.
    pose proof (split_not_nil sep post).
    destruct (split sep post); [contradiction|simpl; lia].
  - destruct (Ascii.eqb c sep); simpl; [lia|].
    destruct (split sep (front ++ sep :: post)); simpl in *; lia.
Qed.

(** The last segment is the text after the last separator. *)
Lemma split_last sep front post :
  sep ∉ post → last (split sep (front ++ sep :: post)) = post.
Proof.
  intros Hpost. unfold last.
  induction front as [|c front IH]; simpl.
  - rewrite Ascii.eqb_refl, (split_no_sep _ _ Hpost). reflexivity.
  - pose proof (split_two_segments sep front post) as Hlen.
    destruct (split sep (front ++ sep :: post)) as [|seg [|seg' rest]];
      simpl in Hlen; try lia.
    destruct (Ascii.eqb c sep); exact IH.
Qed.

Lemma lstrip_suffix s : ∃ sp, s = sp ++ lstrip s.
Proof.
  induction s as [|c s [sp IH]]; [now exists []|]. simpl.
  destruct (isspace c); [|now exists []].
  exists (c :: sp). simpl. now f_equal.
Qed.

Lemma lstrip_head s c s' : lstrip s = c :: s' → isspace c = false.
Proof.
  induction s as [|d s IH]; simpl; [discriminate|].
  destruct (isspace d) eqn:Hd; [exact IH|].
  intros [= -> _]. exact Hd.
Qed.

Lemma last_reverse_cons (c d : ascii) (s : chars) :
  List.last (reverse (c :: s)) d = c.
Proof. rewrite reverse_cons. apply last_last. Qed.

Lemma strip_stripped s : stripped (strip s).
Proof.
  unfold strip, rstrip.
  destruct (lstrip_suffix (reverse (lstrip s))) as [sp Hsp].
  destruct (lstrip (reverse (lstrip s))) as [|c u] eqn:Hu; [exact I|].
  pose proof (lstrip_head _ _ _ Hu) as Hc.
  apply (f_equal reverse) in Hsp.
  rewrite reverse_involutive, reverse_app in Hsp.
  unfold stripped.
  destruct (reverse (c :: u)) as [|d w] eqn:Hw.
  { apply (f_equal length) in Hw. rewrite length_reverse in Hw. discriminate. }
  split.
  - exact (lstrip_head _ _ _ Hsp).
  - rewrite <- Hw, last_reverse_cons. exact Hc.
Qed.

Lemma stripped_strip s : stripped s → strip s = s.
Proof.
  destruct s as [|c s]; [reflexivity|]. intros [Hc Hlast].
  unfold strip, rstrip. simpl lstrip. rewrite Hc.
  destruct (reverse (c :: s)) as [|d w] eqn:Hw.
  { apply (f_equal length) in Hw. rewrite length_reverse in Hw. discriminate. }
  assert (d = List.last (c :: s) c) as Hd.
  { apply (f_equal reverse) in Hw. rewrite reverse_involutive in Hw.
    rewrite Hw, reverse_cons. now rewrite last_last. }
  simpl. rewrite Hd, Hlast, <- Hd, <- Hw. apply reverse_involutive.
Qed.

(** [strip] is idempotent. *)
Lemma strip_strip s : strip (strip s) = strip s.
Proof. apply stripped_strip, strip_stripped. Qed.

End PyStrFacts.

(** ** The parameter-file parser *)

Section ParserFacts.

Import PyStr Parser.

Lemma first_map_strip (l : list chars) :
  l ≠ [] → first (map strip l) = strip (first l).
Proof. destruct l; [contradiction|reflexivity]. Qed.

Lemma last_map_strip (l : list chars) :
  l ≠ [] → last (map strip l) = strip (last l).
Proof.
  unfold last. induction l as [|s [|s' l] IH]; intros Hl;
    [contradiction|reflexivity|].
  change (List.last (map strip (s' :: l)) [] = strip (List.last (s' :: l) [])).
  now apply IH.
Qed.

(** An ordinary line: one that is neither skipped nor structural reaches
    lines 177-186 with the state it came with. *)
Lemma step_ordinary st line :
  let row := strip (of_str line) in
  skipped row = false → structural row = false →
  step st line = store row st.
Proof.
  intros row Hskip Hstruct. unfold step. fold row.
  destruct row as [|c row'] eqn:Hrow; [discriminate|].
  simpl in Hskip. rewrite Hskip.
  unfold structural in Hstruct.
  apply orb_false_elim in Hstruct as [Hstruct Hcs].
  apply orb_false_elim in Hstruct as [Hstruct Hcf].
  apply orb_false_elim in Hstruct as [Hof Hos].
  rewrite Hof, Hos. unfold on_file_end, on_spectrum_end.
  now rewrite Hcf, Hcs.
Qed.

(** What the four suffix and prefix tests imply for a closing line. *)
Lemma closes_file_not_opening row :
  closes_file row = true →
  skipped row = false ∧ opens_file row = false ∧ opens_spectrum row = false.
Proof.
  unfold closes_file, opens_file, opens_spectrum, skipped, endswith, startswith.
  intros [Hend Hstart]%andb_true_iff.
  change (reverse (list_ascii_of_string "End")) with ["d"; "n"; "E"]%char in Hend.
  change (reverse (list_ascii_of_string "Begin"))
    with ["n"; "i"; "g"; "e"; "B"]%char.
  change (reverse (list_ascii_of_string "SpectrumDescBegin"))
    with ("n" :: reverse (list_ascii_of_string "SpectrumDescBegi"))%char.
  change (list_ascii_of_string "File") with ["F"; "i"; "l"; "e"]%char in Hstart.
  destruct row as [|c row']; [discriminate|].
  cbn [startswith_chars] in Hstart. apply andb_true_iff in Hstart as [Hc _].
  apply Ascii.eqb_eq in Hc as <-.
  destruct (reverse ("F"%char :: row')) as [|d w]; [discriminate|].
  cbn [startswith_chars] in Hend. apply andb_true_iff in Hend as [Hd _].
  apply Ascii.eqb_eq in Hd as <-. now cbn.
Qed.

Lemma step_closing st line :
  let row := strip (of_str line) in
  closes_file row = true →
  step st line =
    mkState (<[key_of row := value_of row]> (scan_params st))
            (file_descriptions st ++ [parameters st])
            (spectra_descriptions st ++ (if closes_spectrum row then [∅] else []))
            ∅ false.
Proof.
  intros row Hclose.
  destruct (closes_file_not_opening row Hclose) as (Hskip & Hof & Hos).
  unfold step. fold row.
  destruct row as [|c row'] eqn:Hrow; [discriminate|].
  simpl in Hskip. rewrite Hskip, Hof, Hos.
  unfold on_file_end, on_spectrum_end, store, put. rewrite Hclose.
  destruct (closes_spectrum (c :: row')); simpl; [reflexivity|].
  now rewrite app_nil_r.
Qed.

End ParserFacts.

(** C9. A line that is neither skipped nor structural and contains a colon
    stores exactly one pair: the key is the stripped text before the first
    colon, the value the stripped text after the last colon.  The pair goes
    into the accumulator of the block when the flag is set, into the scan
    parameters otherwise, and nothing else in the state of the parser
    changes. *)
Theorem C9_pair_stored (st : Parser.state) (line : string)
    (pre tail front post : PyStr.chars) :
  let row := PyStr.strip (PyStr.of_str line) in
  Parser.skipped row = false →
  Parser.structural row = false →
  row = pre ++ ":"%char :: tail → ":"%char ∉ pre →
  row = front ++ ":"%char :: post → ":"%char ∉ post →
  let key := PyStr.to_str (PyStr.strip pre) in
  let value := PyStr.to_str (PyStr.strip post) in
  Parser.step st line =
    if Parser.inside_description st then
      Parser.mkState (Parser.scan_params st) (Parser.file_descriptions st)
        (Parser.spectra_descriptions st)
        (<[key := value]> (Parser.parameters st)) true
    else
      Parser.mkState (<[key := value]> (Parser.scan_params st))
        (Parser.file_descriptions st) (Parser.spectra_descriptions st)
        (Parser.parameters st) false.
Proof.
  intros row Hskip Hstruct Hpre Hnpre Hpost Hnpost key value.
  rewrite (step_ordinary st line Hskip Hstruct). fold row.
  assert (Parser.key_of row = key) as Hkey.
  { unfold Parser.key_of, Parser.split_row.
    rewrite first_map_strip by apply split_not_nil.
    now rewrite Hpre, (split_first _ _ _ Hnpre). }
  assert (Parser.value_of row = value) as Hvalue.
  { unfold Parser.value_of, Parser.split_row.
    rewrite last_map_strip by apply split_not_nil.
    now rewrite Hpost, (split_last _ _ _ Hnpost). }
  unfold Parser.store, Parser.put. rewrite Hkey, Hvalue.
  now destruct (Parser.inside_description st) eqn:Hin.
Qed.

Lemma C9_pair_stored_witness :
  Parser.step Parser.init " Caption : a:b : c " =
    Parser.mkState {["Caption" := "c"]} [] [] ∅ false.
Proof.
  exact (C9_pair_stored Parser.init " Caption : a:b : c "
           (PyStr.of_str "Caption ") (PyStr.of_str " a:b : c")
           (PyStr.of_str "Caption : a:b ") (PyStr.of_str " c")
           eq_refl eq_refl eq_refl ltac:(decide_by_computation)
           eq_refl ltac:(decide_by_computation)).
Defined.

(** C3 fails on the code: a line without a colon raises nothing.  It is
    stored as a pair whose key and value are both the line, and the parser
    returns the mapping. *)
Lemma C3_line_without_colon_is_stored :
  let row := PyStr.strip (PyStr.of_str "plain") in
  Parser.skipped row = false ∧ Parser.structural row = false ∧ (":"%char ∉ row) ∧
  Parser.read_anfatec_params ["xPixel : 2"; "plain"]
  = ((<["plain" := "plain"]> {["xPixel" := "2"]}), [], []).
Proof.
  repeat split; try reflexivity. decide_by_computation.
Qed.

(** C3, as the code has it. A line that is neither skipped nor structural
    and contains no colon is not rejected: the split has one segment, which
    is both the first and the last, so the stripped line is stored as the
    key and as the value of one pair, in the accumulator of the block when
    the flag is set and in the scan parameters otherwise. *)
Theorem C3_line_without_colon (st : Parser.state) (line : string) :
  let row := PyStr.strip (PyStr.of_str line) in
  Parser.skipped row = false →
  Parser.structural row = false →
  ":"%char ∉ row →
  Parser.step st line =
    if Parser.inside_description st then
      Parser.mkState (Parser.scan_params st) (Parser.file_descriptions st)
        (Parser.spectra_descriptions st)
        (<[PyStr.to_str row := PyStr.to_str row]> (Parser.parameters st)) true
    else
      Parser.mkState (<[PyStr.to_str row := PyStr.to_str row]> (Parser.scan_params st))
        (Parser.file_descriptions st) (Parser.spectra_descriptions st)
        (Parser.parameters st) false.
Proof.
  intros row Hskip Hstruct Hrow.
  rewrite (step_ordinary st line Hskip Hstruct). fold row.
  unfold Parser.store, Parser.put, Parser.key_of, Parser.value_of, Parser.split_row.
  rewrite (split_no_sep _ _ Hrow). cbn [map PyStr.first PyStr.last List.last hd].
  unfold row. rewrite strip_strip.
  now destruct (Parser.inside_description st) eqn:Hin.
Qed.

Lemma C3_line_without_colon_witness :
  Parser.step Parser.init " plain " =
    Parser.mkState {["plain" := "plain"]} [] [] ∅ false.
Proof.
  exact (C3_line_without_colon Parser.init " plain "
           eq_refl eq_refl ltac:(decide_by_computation)).
Defined.

(** C5 fails on the code: the descriptor appended by the closing line does
    not hold the pair parsed from that line.  The append and the reset come
    first (lines 169-171), so the pair is stored afterwards, with the flag
    cleared, into the scan parameters. *)
Lemma C5_closing_pair_not_in_descriptor :
  Parser.closes_file (PyStr.strip (PyStr.of_str "FileDescEnd")) = true ∧
  Parser.read_anfatec_params ["FileDescBegin"; "Caption : a"; "FileDescEnd"]
  = ({["FileDescEnd" := "FileDescEnd"]}, [ {["Caption" := "a"]} ], []) ∧
  ({["Caption" := "a"]} : gmap string string) !! "FileDescEnd" = None.
Proof. repeat split; reflexivity. Qed.

(** C5, as the code has it. A line that starts with [File] and ends with
    [End] appends the accumulator as it stood before this line to the channel
    descriptors; the accumulator is then empty and the flag cleared.  The
    pair parsed from the closing line is not part of the appended
    descriptor: it is stored after the reset, into the scan parameters. *)
Theorem C5_closing_line (st : Parser.state) (line : string) :
  let row := PyStr.strip (PyStr.of_str line) in
  Parser.closes_file row = true →
  let st' := Parser.step st line in
  Parser.file_descriptions st' = Parser.file_descriptions st ++ [Parser.parameters st] ∧
  Parser.parameters st' = ∅ ∧
  Parser.inside_description st' = false ∧
  Parser.scan_params st' =
    <[Parser.key_of row := Parser.value_of row]> (Parser.scan_params st).
Proof.
  intros row Hclose st'. unfold st'.
  rewrite (step_closing st line Hclose). fold row. now cbn.
Qed.

Lemma C5_closing_line_witness :
  let st := Parser.run ["FileDescBegin"; "Caption : a"] in
  let st' := Parser.step st "FileDescEnd" in
  Parser.file_descriptions st' = [ {["Caption" := "a"]} ] ∧
  Parser.parameters st' = ∅ ∧
  Parser.inside_description st' = false ∧
  Parser.scan_params st' = {["FileDescEnd" := "FileDescEnd"]}.
Proof.
  exact (C5_closing_line (Parser.run ["FileDescBegin"; "Caption : a"])
           "FileDescEnd" eq_refl).
Defined.

(** ** Lists as arrays *)

Section ListFacts.

Context {A B : Type}.

Lemma map_fmap (f : A → B) (l : list A) : map f l = f <$> l.
Proof. induction l; simpl; now f_equal. Qed.

Lemma lookup_map (f : A → B) (l : list A) (i : nat) :
  map f l !! i = f <$> l !! i.
Proof. rewrite map_fmap. apply list_lookup_fmap. Qed.

(** Row [x], column [y] of a rectangular list of rows is entry [x*Y + y] of
    the rows laid end to end. *)
Lemma lookup_concat_rect (l : list (list A)) (Y x y : nat) :
  Forall (λ r, length r = Y) l → (y < Y)%nat →
  concat l !! (x * Y + y)%nat = l !! x ≫= (λ r, r !! y).
Proof.
  intros Hl Hy. revert x.
  induction Hl as [|r l Hr Hl IH]; intros x; [now destruct x|].
  destruct x as [|x]; simpl.
  - rewrite lookup_app_l by lia. reflexivity.
  - rewrite lookup_app_r by lia.
    replace (Y + x * Y + y - length r)%nat with (x * Y + y)%nat by lia.
    apply IH.
Qed.

Lemma length_concat_rect (l : list (list A)) (Y : nat) :
  Forall (λ r, length r = Y) l → length (concat l) = (length l * Y)%nat.
Proof.
  induction 1 as [|r l Hr Hl IH]; [reflexivity|].
  simpl. rewrite length_app, IH. lia.
Qed.

(** Overwriting entry [k] of a list that already agrees with [T] below
    [k] extends the agreement by one. *)
Lemma take_drop_step (T zs : list A) (k : nat) (v : A) :
  T !! k = Some v → (k < length zs)%nat →
  <[k := v]> (take k T ++ drop k zs) = take (S k) T ++ drop (S k) zs.
Proof.
  intros HT Hk.
  assert (length (take k T) = k) as Hlen.
  { apply length_take_le. apply lookup_lt_Some in HT. lia. }
  rewrite insert_app_r_alt by lia. rewrite Hlen, Nat.sub_diag.
  destruct (lookup_lt_is_Some_2 zs k Hk) as [z Hz].
  rewrite (drop_S _ _ _ Hz). simpl.
  rewrite (take_S_r _ _ _ HT), <- app_assoc. reflexivity.
Qed.

Lemma take_drop_same (T zs : list A) (k : nat) (v : A) :
  T !! k = Some v → zs !! k = Some v →
  take k T ++ drop k zs = take (S k) T ++ drop (S k) zs.
Proof.
  intros HT Hz.
  rewrite (drop_S _ _ _ Hz), (take_S_r _ _ _ HT), <- app_assoc. reflexivity.
Qed.

Lemma shape1_first (l : list (list A)) (r : list A) :
  l !! 0%nat = Some r → Np.shape1 l = length r.
Proof. destruct l; [discriminate|]. now intros [= ->]. Qed.

End ListFacts.

Lemma zeros2_nat (n m : nat) :
  Np.zeros2 (Z.of_nat n) (Z.of_nat m) = Ok (replicate n (replicate m 0%float)).
Proof.
  unfold Np.zeros2.
  destruct (Z.ltb_spec (Z.of_nat n) 0) as [?|_]; [lia|].
  destruct (Z.ltb_spec (Z.of_nat m) 0) as [?|_]; [lia|].
  cbn [orb]. now rewrite !Nat2Z.id.
Qed.

(** ** [to_2d] *)

Section To2dFacts.

Import To2d.

Variable spectralmatrix : Np.array3.
Variable laserpower : float.
Variables X Y Ns : nat.
Hypothesis shape : Np.has_shape X Y Ns spectralmatrix.

Local Abbreviation corrected_rows := (To2d.corrected_rows spectralmatrix laserpower).
Local Abbreviation zeros := (replicate (X * Y) (replicate Ns 0%float)).
Local Abbreviation partial k := (To2d.partial spectralmatrix laserpower X Y Ns k).

Lemma shape_rows : Forall (λ row : list (list float), length row = Y) spectralmatrix.
Proof. destruct shape as [_ H]. eapply Forall_impl; [exact H|]. now intros ? []. Qed.

Lemma shape_cell x y :
  (x < X)%nat → (y < Y)%nat →
  ∃ row cell, spectralmatrix !! x = Some row ∧ row !! y = Some cell ∧ length cell = Ns.
Proof.
  intros Hx Hy. destruct shape as [Hlen Hall].
  destruct (lookup_lt_is_Some_2 spectralmatrix x) as [row Hrow]; [lia|].
  pose proof (proj1 (Forall_lookup _ _) Hall x row Hrow) as [HrowY Hcells].
  destruct (lookup_lt_is_Some_2 row y) as [cell Hcell]; [lia|].
  exists row, cell. repeat split; try assumption.
  exact (proj1 (Forall_lookup _ _) Hcells y cell Hcell).
Qed.

Lemma length_corrected_rows : length corrected_rows = (X * Y)%nat.
Proof.
  unfold To2d.corrected_rows. rewrite length_map, (length_concat_rect _ Y shape_rows).
  now destruct shape as [-> _].
Qed.

Lemma lookup_corrected_rows x y row cell :
  spectralmatrix !! x = Some row → row !! y = Some cell →
  corrected_rows !! (x * Y + y)%nat
  = Some (map (λ v, PrimFloat.div v laserpower) cell).
Proof.
  intros Hrow Hcell. unfold To2d.corrected_rows.
  assert (y < Y)%nat as Hy.
  { pose proof (proj1 (Forall_lookup _ _) shape_rows x row Hrow) as <-.
    now apply lookup_lt_Some in Hcell. }
  rewrite lookup_map, (lookup_concat_rect _ Y x y shape_rows Hy), Hrow.
  simpl. now rewrite Hcell.
Qed.

Lemma length_partial k : length (partial k) = (X * Y)%nat.
Proof.
  unfold To2d.partial.
  rewrite length_app, length_take, length_drop, length_replicate,
    length_corrected_rows. lia.
Qed.

Lemma set_row_in_bounds (k : nat) (v : list float) (fm : Np.array2) :
  (k < length fm)%nat → set_row (Z.of_nat k) v fm = Ok (<[k := v]> fm).
Proof.
  intros Hk. unfold set_row.
  destruct (Z.ltb_spec (Z.of_nat k) 0) as [?|_]; [lia|].
  destruct (Z.ltb_spec (Z.of_nat k) 0) as [?|_]; [lia|].
  destruct (Z.leb_spec (Z.of_nat (length fm)) (Z.of_nat k)) as [?|_]; [lia|].
  cbn. now rewrite Nat2Z.id.
Qed.

(** The loop over [z]: whatever the number of iterations, row [k] ends up
    holding the corrected vector. *)
Lemma z_loop_spec x y row cell :
  spectralmatrix !! x = Some row → row !! y = Some cell →
  let k := (x * Y + y)%nat in
  z_loop spectralmatrix laserpower x y Ns (mkState (Z.of_nat k) (partial k))
  = Ok (mkState (Z.of_nat k) (partial (S k))).
Proof.
  intros Hrow Hcell k.
  pose proof (lookup_corrected_rows x y row cell Hrow Hcell) as HT. fold k in HT.
  assert (k < X * Y)%nat as Hk.
  { apply lookup_lt_Some in HT. now rewrite length_corrected_rows in HT. }
  assert (length cell = Ns) as HS.
  { destruct shape as [_ Hall].
    pose proof (proj1 (Forall_lookup _ _) Hall x row Hrow) as [_ Hcells].
    exact (proj1 (Forall_lookup _ _) Hcells y cell Hcell). }
  assert (∀ n fm, length fm = (X * Y)%nat →
            fm !! k = Some (map (λ v, PrimFloat.div v laserpower) cell) →
            z_loop spectralmatrix laserpower x y n (mkState (Z.of_nat k) fm)
            = Ok (mkState (Z.of_nat k) fm)) as Hfix.
  { induction n as [|n IH]; intros fm Hlen Hfm; [reflexivity|].
    cbn [z_loop]. unfold corrected. rewrite Hrow. cbn. rewrite Hcell. cbn.
    cbn [counter featurematrix]. rewrite set_row_in_bounds by lia.
    cbn. rewrite (list_insert_id _ _ _ Hfm). now apply IH. }
  assert (∀ n, n = Ns →
            z_loop spectralmatrix laserpower x y n (mkState (Z.of_nat k) (partial k))
            = Ok (mkState (Z.of_nat k) (partial (S k)))) as Hcases; [|now apply Hcases].
  intros [|n] Hn.
  - cbn [z_loop]. do 2 f_equal. unfold To2d.partial.
    rewrite <- Hn in HS. destruct cell; [|discriminate].
    apply (take_drop_same _ _ _ _ HT).
    rewrite <- Hn. now apply lookup_replicate_2.
  - cbn [z_loop]. unfold corrected. rewrite Hrow. cbn. rewrite Hcell. cbn.
    cbn [counter featurematrix].
    rewrite set_row_in_bounds by (rewrite length_partial; lia).
    cbn. unfold To2d.partial at 1.
    rewrite (take_drop_step _ _ _ _ HT)
      by (rewrite length_replicate; lia).
    apply Hfix; [apply length_partial|].
    unfold To2d.partial. rewrite lookup_app_l.
    + rewrite lookup_take_lt by lia. exact HT.
    + rewrite length_take, length_corrected_rows. lia.
Qed.

Lemma y_loop_spec x row :
  spectralmatrix !! x = Some row →
  ∀ m y0, (y0 + m <= Y)%nat →
    y_loop spectralmatrix laserpower x Ns (seq y0 m)
      (mkState (Z.of_nat (x * Y + y0) - 1) (partial (x * Y + y0)))
    = Ok (mkState (Z.of_nat (x * Y + y0 + m) - 1) (partial (x * Y + y0 + m))).
Proof.
  intros Hrow. induction m as [|m IH]; intros y0 Hm.
  - cbn. now rewrite Nat.add_0_r.
  - cbn [seq y_loop counter featurematrix].
    replace (Z.of_nat (x * Y + y0) - 1 + 1) with (Z.of_nat (x * Y + y0)) by lia.
    assert (length row = Y) as HrowY
      by exact (proj1 (Forall_lookup _ _) shape_rows x row Hrow).
    destruct (lookup_lt_is_Some_2 row y0) as [cell Hcell]; [lia|].
    rewrite (z_loop_spec x y0 row cell Hrow Hcell). cbn.
    replace (Z.of_nat (x * Y + y0)) with (Z.of_nat (x * Y + S y0) - 1) by lia.
    replace (S (x * Y + y0)) with (x * Y + S y0)%nat by lia.
    rewrite IH by lia. do 3 f_equal; lia.
Qed.

Lemma x_loop_spec :
  ∀ n x0, (x0 + n <= X)%nat →
    x_loop spectralmatrix laserpower Y Ns (seq x0 n)
      (mkState (Z.of_nat (x0 * Y) - 1) (partial (x0 * Y)))
    = Ok (mkState (Z.of_nat ((x0 + n) * Y) - 1) (partial ((x0 + n) * Y))).
Proof.
  induction n as [|n IH]; intros x0 Hn.
  - cbn. now rewrite Nat.add_0_r.
  - cbn [seq x_loop].
    destruct (lookup_lt_is_Some_2 spectralmatrix x0) as [row Hrow].
    { destruct shape as [-> _]. lia. }
    pose proof (y_loop_spec x0 row Hrow Y 0%nat (Nat.le_refl _)) as Hy.
    rewrite !Nat.add_0_r in Hy. rewrite Hy. cbn.
    replace (x0 * Y + Y)%nat with (S x0 * Y)%nat by lia.
    rewrite IH by lia. do 3 f_equal; lia.
Qed.

(** On a cube with at least one row and one column, [to_2d] returns the
    corrected spectral vectors in row-major order. *)
Lemma to_2d_spec :
  (0 < X)%nat → (0 < Y)%nat →
  to_2d spectralmatrix laserpower = Ok corrected_rows.
Proof.
  intros HX HY.
  destruct (shape_cell 0 0 HX HY) as (row0 & cell0 & Hrow0 & Hcell0 & Hlen0).
  unfold to_2d. rewrite Hrow0. run_bind. rewrite Hcell0. run_bind.
  assert (Np.shape0 spectralmatrix = X) as -> by now destruct shape.
  assert (Np.shape1 spectralmatrix = Y) as ->.
  { rewrite (shape1_first _ _ Hrow0).
    exact (proj1 (Forall_lookup _ _) shape_rows 0%nat row0 Hrow0). }
  rewrite Hlen0, zeros2_nat. run_bind.
  assert (x_loop spectralmatrix laserpower Y Ns (seq 0 X) (mkState (-1) zeros)
          = Ok (mkState (Z.of_nat (X * Y) - 1) (partial (X * Y)))) as Hx
    by exact (x_loop_spec X 0%nat (Nat.le_refl _)).
  rewrite Hx. run_bind. cbn [featurematrix]. f_equal. unfold To2d.partial.
  rewrite take_ge by (rewrite length_corrected_rows; lia).
  rewrite drop_ge by (rewrite length_replicate; lia).
  apply app_nil_r.
Qed.

End To2dFacts.

Lemma corrected_rows_shape (spectralmatrix : Np.array3) (laserpower : float)
    (X Y Ns : nat) :
  Np.has_shape X Y Ns spectralmatrix →
  Np.has_shape2 (X * Y) Ns (To2d.corrected_rows spectralmatrix laserpower).
Proof.
  intros Hshape. split; [now apply (length_corrected_rows _ _ X Y Ns)|].
  unfold To2d.corrected_rows. rewrite map_fmap. apply Forall_fmap.
  destruct Hshape as [_ Hall]. induction Hall as [|row rest [_ Hrow] _ IH]; cbn.
  - constructor.
  - apply Forall_app. split; [|exact IH].
    eapply Forall_impl; [exact Hrow|]. intros cell Hcell. cbn.
    now rewrite length_map.
Qed.

(** C10 fails on the code for a cube with an empty spatial axis: line 198
    reads [spectralmatrix[0,0,:]] to find the spectral length, which raises
    [IndexError] on a cube of shape [(0, Y, S)] or [(X, 0, S)], where the
    claim promises a matrix with no rows. *)
Lemma C10_empty_cube_raises :
  Np.has_shape 0 2 3 [] ∧
  To2d.to_2d [] 2%float = Raise IndexError ∧
  Np.has_shape 2 0 3 [[]; []] ∧
  To2d.to_2d [[]; []] 2%float = Raise IndexError.
Proof.
  repeat split; try reflexivity; repeat constructor.
Qed.

(** C10, as the code has it. For a cube of shape [(X, Y, S)] with at least
    one row and one column, and every laser power, [to_2d] returns a matrix
    of shape [(X*Y, S)] whose row [x*Y + y] is the spectral vector
    [cube[x, y, :]] divided entry by entry by the laser power. *)
Theorem C10_to_2d_rows (cube : Np.array3) (laser_power : float) (X Y Ns : nat) :
  Np.has_shape X Y Ns cube →
  (0 < X)%nat → (0 < Y)%nat →
  ∃ fm : Np.array2,
    To2d.to_2d cube laser_power = Ok fm ∧
    Np.has_shape2 (X * Y) Ns fm ∧
    ∀ x y, (x < X)%nat → (y < Y)%nat →
      ∃ row cell,
        cube !! x = Some row ∧ row !! y = Some cell ∧
        fm !! (x * Y + y)%nat = Some (map (λ v, PrimFloat.div v laser_power) cell).
Proof.
  intros Hshape HX HY.
  exists (To2d.corrected_rows cube laser_power). split; [|split].
  - now apply (to_2d_spec cube laser_power X Y Ns).
  - now apply corrected_rows_shape.
  - intros x y Hx Hy.
    destruct (shape_cell cube X Y Ns Hshape x y Hx Hy) as (row & cell & Hrow & Hcell & _).
    exists row, cell. repeat split; try assumption.
    now apply (lookup_corrected_rows cube laser_power X Y Ns Hshape x y row cell).
Qed.

Lemma C10_to_2d_rows_witness :
  ∃ fm : Np.array2,
    To2d.to_2d [[[1; 2; 3]; [4; 5; 6]]; [[7; 8; 9]; [10; 11; 12]]]%float 2%float
    = Ok fm ∧
    Np.has_shape2 4 3 fm ∧
    ∀ x y, (x < 2)%nat → (y < 2)%nat →
      ∃ row cell,
        [[[1; 2; 3]; [4; 5; 6]]; [[7; 8; 9]; [10; 11; 12]]]%float !! x = Some row ∧
        row !! y = Some cell ∧
        fm !! (x * 2 + y)%nat = Some (map (λ v, PrimFloat.div v 2%float) cell).
Proof.
  apply (C10_to_2d_rows _ 2%float 2 2 3); [|lia|lia].
  split; [reflexivity|]. repeat constructor.
Defined.

(** The [(2,2,3)] cube of the specification, run. *)
Example to_2d_cube_2_2_3 :
  To2d.to_2d [[[1; 2; 3]; [4; 5; 6]]; [[7; 8; 9]; [10; 11; 12]]]%float 2%float
  = Ok [[0.5; 1; 1.5]; [2; 2.5; 3]; [3.5; 4; 4.5]; [5; 5.5; 6]]%float.
Proof. reflexivity. Qed.

(** ** [hyperslice] *)

Section SliceFacts.

Import Hyper Slice.

Lemma map_window_lookup v f (a : Np.array3) r :
  map_window v f a !! r
  = (λ row : list (list float),
       if Np.in_bounds (v_rows v) r
       then imap (λ c (cell : list float),
                    if Np.in_bounds (v_cols v) c then f cell else cell) row
       else row) <$> a !! r.
Proof. unfold map_window. apply list_lookup_imap. Qed.

(** The entry of a cell after an update of the window. *)
Lemma map_window_cell v f (a : Np.array3) r c :
  (map_window v f a !! r ≫= (λ row, row !! c))
  = (λ cell, if Np.in_bounds (v_rows v) r && Np.in_bounds (v_cols v) c
             then f cell else cell) <$> (a !! r ≫= (λ row, row !! c)).
Proof.
  rewrite map_window_lookup. destruct (a !! r) as [row|]; [|reflexivity]. cbn.
  destruct (Np.in_bounds (v_rows v) r); cbn.
  - now rewrite list_lookup_imap.
  - now destruct (row !! c).
Qed.

Lemma map_window_ext v f g (a : Np.array3) :
  (∀ cell, f cell = g cell) → map_window v f a = map_window v g a.
Proof.
  intros Hfg. unfold map_window. apply imap_ext. intros r row _.
  destruct (Np.in_bounds (v_rows v) r); [|reflexivity].
  apply imap_ext. intros c cell _. now rewrite Hfg.
Qed.

Lemma map_window_id v (a : Np.array3) : map_window v (λ cell, cell) a = a.
Proof.
  apply list_eq. intros r. rewrite map_window_lookup.
  destruct (a !! r) as [row|]; [|reflexivity]. cbn. f_equal.
  destruct (Np.in_bounds (v_rows v) r); [|reflexivity].
  apply list_eq. intros c. rewrite list_lookup_imap.
  destruct (row !! c); [|reflexivity]. cbn.
  now destruct (Np.in_bounds (v_cols v) c).
Qed.

Lemma map_window_compose v f g (a : Np.array3) :
  map_window v g (map_window v f a) = map_window v (λ cell, g (f cell)) a.
Proof.
  apply list_eq. intros r. rewrite !map_window_lookup.
  destruct (a !! r) as [row|]; [|reflexivity]. cbn. f_equal.
  destruct (Np.in_bounds (v_rows v) r); [|reflexivity].
  apply list_eq. intros c. rewrite !list_lookup_imap.
  destruct (row !! c); [|reflexivity]. cbn.
  now destruct (Np.in_bounds (v_cols v) c).
Qed.

Lemma map_window_shape v f (a : Np.array3) R C Ns :
  (∀ cell, length (f cell) = length cell) →
  Np.has_shape R C Ns a → Np.has_shape R C Ns (map_window v f a).
Proof.
  intros Hf [Hlen Hall]. split.
  - unfold map_window. now rewrite length_imap.
  - apply Forall_lookup. intros r row' Hrow'.
    rewrite map_window_lookup in Hrow'.
    destruct (a !! r) as [row|] eqn:Hrow; [|discriminate].
    injection Hrow' as <-.
    destruct (Forall_lookup_1 _ _ _ _ Hall Hrow) as [HrowC Hcells].
    destruct (Np.in_bounds (v_rows v) r); [|now split].
    split; [now rewrite length_imap|].
    apply Forall_lookup. intros c cell' Hcell'.
    rewrite list_lookup_imap in Hcell'.
    destruct (row !! c) as [cell|] eqn:Hcell; [|discriminate].
    injection Hcell' as <-.
    pose proof (Forall_lookup_1 _ _ _ _ Hcells Hcell) as Hlen'.
    destruct (Np.in_bounds (v_cols v) c); [now rewrite Hf|assumption].
Qed.

(** The shape of an array with a row and a column, read back. *)
Lemma shape_read_back (a : Np.array3) R C Ns :
  Np.has_shape R C Ns a → (0 < R)%nat → (0 < C)%nat →
  Np.shape0 a = R ∧ Np.shape1 a = C ∧ Np.shape2 a = Ns.
Proof.
  intros [Hlen Hall] HR HC.
  destruct a as [|row a']; [cbn in Hlen; lia|].
  apply Forall_cons in Hall as [[HrowC Hcells] _].
  destruct row as [|cell row']; [cbn in HrowC; lia|].
  apply Forall_cons in Hcells as [Hcell _]. now cbn.
Qed.

Lemma iadd_cell_length p k cell : length (iadd_cell p k cell) = length cell.
Proof. unfold iadd_cell. apply length_insert. Qed.

Lemma accumulate_cell_length p s idxs cell :
  length (accumulate_cell p s idxs cell) = length cell.
Proof.
  unfold accumulate_cell. revert cell.
  induction idxs as [|i idxs IH]; intros cell; [reflexivity|].
  cbn. now rewrite IH, iadd_cell_length.
Qed.

(** The accumulation writes to entry [p] of a cell and to no other. *)
Lemma accumulate_cell_other p s idxs cell k :
  k ≠ p → accumulate_cell p s idxs cell !! k = cell !! k.
Proof.
  intros Hk. unfold accumulate_cell. revert cell.
  induction idxs as [|i idxs IH]; intros cell; [reflexivity|].
  cbn. rewrite IH. unfold iadd_cell. now apply list_lookup_insert_ne.
Qed.

(** The loop of lines 67-68 as one update of the window, when every plane
    it reads exists. *)
Lemma accumulate_spec v s idxs (a : Np.array3) R C Ns :
  Np.has_shape R C Ns a → (0 < R)%nat → (0 < C)%nat →
  Forall (λ i, (s + i < Ns)%nat) idxs →
  accumulate v s idxs a
  = Ok (map_window v (accumulate_cell (v_plane v) s idxs) a).
Proof.
  intros Hshape HR HC Hidxs. revert a Hshape.
  induction Hidxs as [|i idxs Hi _ IH]; intros a Hshape.
  - cbn. now rewrite map_window_id.
  - cbn [accumulate].
    destruct (shape_read_back a R C Ns Hshape HR HC) as (_ & _ & ->).
    destruct (Nat.leb_spec Ns (s + i)) as [?|_]; [lia|].
    rewrite IH.
    + unfold iadd. now rewrite map_window_compose.
    + apply map_window_shape; [|exact Hshape].
      intros cell. apply iadd_cell_length.
Qed.

Lemma find_index_Some l v k :
  find_index l v = Some k →
  l !! k = Some v ∧ ∀ j, (j < k)%nat → l !! j ≠ Some v.
Proof.
  revert k. induction l as [|x l IH]; intros k; [discriminate|]. cbn.
  destruct (Z.eqb_spec x v) as [->|Hne].
  - intros [= <-]. split; [reflexivity|]. intros j Hj. lia.
  - destruct (find_index l v) as [k'|]; [|discriminate].
    intros [= <-]. destruct (IH k' eq_refl) as [Hk' Hfirst].
    split; [exact Hk'|]. intros [|j] Hj; cbn.
    + congruence.
    + apply Hfirst. lia.
Qed.

Lemma find_index_None l v : find_index l v = None ↔ v ∉ l.
Proof.
  induction l as [|x l IH]; cbn.
  - split; [intros _; apply not_elem_of_nil|reflexivity].
  - destruct (Z.eqb_spec x v) as [->|Hne].
    + split; [discriminate|]. intros H. exfalso. apply H. left.
    + rewrite not_elem_of_cons. destruct (find_index l v); cbn.
      * split; [discriminate|]. intros [_ H]. now apply IH in H.
      * split; [|reflexivity]. intros _. split; [congruence|]. now apply IH.
Qed.

Lemma find_index_elem l v : v ∈ l → ∃ k, find_index l v = Some k.
Proof.
  intros Hv. destruct (find_index l v) as [k|] eqn:Hk; [now exists k|].
  now apply find_index_None in Hk.
Qed.

Lemma ints_length wl axis : ints wl = Ok axis → length axis = length wl.
Proof.
  revert axis. induction wl as [|x wl IH]; intros axis; cbn.
  - now intros [= <-].
  - destruct (Num.py_int x); [|discriminate]. cbn.
    destruct (ints wl) as [ns|]; [|discriminate]. cbn.
    intros [= <-]. cbn. now rewrite (IH ns).
Qed.

Lemma with_cube_same h : with_cube h (hyper_image h) = h.
Proof. now destruct h. Qed.

(** Every call on a built container with both wavenumbers on the axis
    returns: the view is taken at the index of [stop], and the loop is one
    update of the window of the cube. *)
Lemma hyperslice_spec h start stop rows cols axis i_start i_stop :
  built h →
  ints (wavelength_data h) = Ok axis →
  find_index axis start = Some i_start →
  find_index axis stop = Some i_stop →
  let v := window_view h rows cols i_stop in
  hyperslice h start stop rows cols
  = Ok (v, with_cube h
             (map_window v
                (accumulate_cell i_stop i_stop
                   (range (Z.of_nat i_start - Z.of_nat i_stop)))
                (hyper_image h))).
Proof.
  intros (R & C & Nc & HR & HC & Hcube & _) Hints Hstart Hstop v.
  destruct (find_index_Some _ _ _ Hstart) as [Hstart' _].
  destruct (find_index_Some _ _ _ Hstop) as [Hstop' _].
  apply lookup_lt_Some in Hstart', Hstop'.
  rewrite (ints_length _ _ Hints) in Hstart', Hstop'.
  unfold hyperslice. rewrite Hints. run_bind.
  unfold index. rewrite Hstop. run_bind. rewrite Hstart. run_bind.
  destruct (shape_read_back _ _ _ _ Hcube HR HC) as (_ & _ & HNs).
  rewrite HNs.
  destruct (Nat.leb_spec (length (wavelength_data h)) i_stop) as [?|_]; [lia|].
  erewrite accumulate_spec; [reflexivity|exact Hcube|exact HR|exact HC|].
  apply Forall_forall. intros i Hi. unfold range in Hi.
  apply elem_of_seq in Hi. lia.
Qed.

(** With no iteration of the loop the container is left as it was. *)
Lemma hyperslice_single_plane h start stop rows cols axis i_start i_stop :
  built h →
  ints (wavelength_data h) = Ok axis →
  find_index axis start = Some i_start →
  find_index axis stop = Some i_stop →
  (i_start <= i_stop)%nat →
  hyperslice h start stop rows cols = Ok (window_view h rows cols i_stop, h).
Proof.
  intros Hbuilt Hints Hstart Hstop Hle.
  rewrite (hyperslice_spec h start stop rows cols axis i_start i_stop) by assumption.
  unfold range. replace (Z.to_nat (Z.of_nat i_start - Z.of_nat i_stop)) with 0%nat by lia.
  cbn [seq]. unfold accumulate_cell. cbn [fold_left].
  now rewrite map_window_id, with_cube_same.
Qed.

(** [list.index] raises when the value is not in the list. *)
Lemma hyperslice_absent h start stop rows cols axis :
  ints (wavelength_data h) = Ok axis →
  start ∉ axis ∨ stop ∉ axis →
  hyperslice h start stop rows cols = Raise ValueError.
Proof.
  intros Hints Habsent. unfold hyperslice. rewrite Hints. run_bind. unfold index.
  destruct (find_index axis stop) as [i_stop|] eqn:Hstop; [|reflexivity].
  run_bind. destruct Habsent as [Habsent|Habsent].
  - apply find_index_None in Habsent. now rewrite Habsent.
  - apply find_index_None in Habsent. congruence.
Qed.

Lemma slice_bound_le n i : (Np.slice_bound n i <= n)%nat.
Proof. unfold Np.slice_bound. destruct (Z.ltb_spec i 0); lia. Qed.

Lemma slice_lookup {A : Type} (b : nat * nat) (l : list A) i :
  (i < snd b - fst b)%nat → Np.slice b l !! i = l !! (fst b + i)%nat.
Proof.
  intros Hi. unfold Np.slice. rewrite lookup_take_lt by lia. apply lookup_drop.
Qed.

(** Reading through a view is indexing the array: entry [(i, j)] of the
    values seen is entry [(lo_r + i, lo_c + j, k)] of the array. *)
Lemma read_get (a : Np.array3) R C Ns v i j :
  Np.has_shape R C Ns a → (v_plane v < Ns)%nat →
  (i < snd (v_rows v) - fst (v_rows v))%nat →
  (j < snd (v_cols v) - fst (v_cols v))%nat →
  get2 (read a v) i j
  = get3 a (fst (v_rows v) + i) (fst (v_cols v) + j) (v_plane v).
Proof.
  intros [_ Hall] Hk Hi Hj. unfold get2, get3, read.
  rewrite lookup_map, (slice_lookup _ _ _ Hi).
  destruct (a !! (fst (v_rows v) + i)%nat) as [row|] eqn:Hrow; [|reflexivity].
  cbn. rewrite lookup_map, (slice_lookup _ _ _ Hj).
  destruct (row !! (fst (v_cols v) + j)%nat) as [cell|] eqn:Hcell; [|reflexivity].
  cbn. symmetry. apply list_lookup_lookup_total_lt.
  destruct (Forall_lookup_1 _ _ _ _ Hall Hrow) as [_ Hcells].
  now rewrite (Forall_lookup_1 _ _ _ _ Hcells Hcell).
Qed.

Lemma slice_lookup_ge {A : Type} (b : nat * nat) (l : list A) i :
  (snd b - fst b <= i)%nat → Np.slice b l !! i = None.
Proof. intros Hi. unfold Np.slice. now apply lookup_take_ge. Qed.

Lemma in_bounds_offset (b : nat * nat) i :
  (i < snd b - fst b)%nat → Np.in_bounds b (fst b + i) = true.
Proof.
  intros Hi. unfold Np.in_bounds. apply andb_true_iff. split.
  - apply Nat.leb_le. lia.
  - apply Nat.ltb_lt. lia.
Qed.

(** Two arrays of one shape are seen alike through a view when their cells
    in the window agree at the plane of the view. *)
Lemma read_ext (a1 a2 : Np.array3) R C Ns v :
  Np.has_shape R C Ns a1 → Np.has_shape R C Ns a2 →
  (∀ r c cell1 cell2,
     Np.in_bounds (v_rows v) r = true → Np.in_bounds (v_cols v) c = true →
     a1 !! r ≫= (λ row, row !! c) = Some cell1 →
     a2 !! r ≫= (λ row, row !! c) = Some cell2 →
     cell1 !!! v_plane v = cell2 !!! v_plane v) →
  read a1 v = read a2 v.
Proof.
  intros [Hlen1 Hall1] [Hlen2 Hall2] Hcells. unfold read.
  apply list_eq. intros i. rewrite !lookup_map.
  destruct (Nat.lt_ge_cases i (snd (v_rows v) - fst (v_rows v))) as [Hi|Hi];
    [|now rewrite !slice_lookup_ge].
  rewrite !slice_lookup by exact Hi.
  destruct (a1 !! (fst (v_rows v) + i)%nat) as [row1|] eqn:Hrow1;
    destruct (a2 !! (fst (v_rows v) + i)%nat) as [row2|] eqn:Hrow2; cbn.
  - f_equal. apply list_eq. intros j. rewrite !lookup_map.
    destruct (Nat.lt_ge_cases j (snd (v_cols v) - fst (v_cols v))) as [Hj|Hj];
      [|now rewrite !slice_lookup_ge].
    rewrite !slice_lookup by exact Hj.
    destruct (Forall_lookup_1 _ _ _ _ Hall1 Hrow1) as [HC1 _].
    destruct (Forall_lookup_1 _ _ _ _ Hall2 Hrow2) as [HC2 _].
    destruct (row1 !! (fst (v_cols v) + j)%nat) as [cell1|] eqn:Hcell1;
      destruct (row2 !! (fst (v_cols v) + j)%nat) as [cell2|] eqn:Hcell2; cbn.
    + f_equal.
      apply (Hcells (fst (v_rows v) + i)%nat (fst (v_cols v) + j)%nat).
      * now apply in_bounds_offset.
      * now apply in_bounds_offset.
      * rewrite Hrow1. exact Hcell1.
      * rewrite Hrow2. exact Hcell2.
    + apply lookup_lt_Some in Hcell1. apply lookup_ge_None in Hcell2. lia.
    + apply lookup_lt_Some in Hcell2. apply lookup_ge_None in Hcell1. lia.
    + reflexivity.
  - apply lookup_lt_Some in Hrow1. apply lookup_ge_None in Hrow2. lia.
  - apply lookup_lt_Some in Hrow2. apply lookup_ge_None in Hrow1. lia.
  - reflexivity.
Qed.

(** The entry the accumulation leaves at [p] is computed from the entries
    [p .. q] of the cell when the loop stops at or before [q]. *)
Lemma accumulate_cell_dep p q idxs (cell1 cell2 : list float) :
  Forall (λ i, (p + i <= q)%nat) idxs →
  (∀ k, (p <= k <= q)%nat → cell1 !! k = cell2 !! k) →
  ∀ k, (p <= k <= q)%nat →
    accumulate_cell p p idxs cell1 !! k = accumulate_cell p p idxs cell2 !! k.
Proof.
  intros Hidxs. revert cell1 cell2. unfold accumulate_cell.
  induction Hidxs as [|i idxs Hi _ IH]; intros cell1 cell2 Hagree; [exact Hagree|].
  cbn [fold_left]. apply IH. intros k Hk. unfold iadd_cell.
  assert (cell1 !!! p = cell2 !!! p) as Hp
    by (rewrite !list_lookup_total_alt; f_equal; apply Hagree; lia).
  assert (cell1 !!! (p + i)%nat = cell2 !!! (p + i)%nat) as Hpi
    by (rewrite !list_lookup_total_alt; f_equal; apply Hagree; lia).
  rewrite Hp, Hpi.
  destruct (decide (k = p)) as [->|Hne].
  - pose proof (Hagree p ltac:(lia)) as Hpp.
    destruct (cell1 !! p) as [x|] eqn:H1.
    + symmetry in Hpp. apply lookup_lt_Some in H1, Hpp.
      now rewrite !list_lookup_insert_eq.
    + symmetry in Hpp. apply lookup_ge_None in H1, Hpp.
      rewrite !list_insert_ge by assumption.
      apply lookup_ge_None in H1, Hpp. congruence.
  - rewrite !list_lookup_insert_ne by congruence. now apply Hagree.
Qed.

Lemma get3_cell (a : Np.array3) r c k cell :
  a !! r ≫= (λ row, row !! c) = Some cell → get3 a r c k = cell !! k.
Proof.
  unfold get3. destruct (a !! r) as [row|]; [|discriminate]. cbn.
  now intros ->.
Qed.

(** The container with another cube of the same shape has the same window. *)
Lemma window_view_with_cube h cube2 rows cols k :
  built h → built (with_cube h cube2) →
  window_view (with_cube h cube2) rows cols k = window_view h rows cols k.
Proof.
  intros (R & C & Nc & HR & HC & Hcube & Hchan)
         (R2 & C2 & Nc2 & HR2 & HC2 & Hcube2 & Hchan2).
  cbn [with_cube hyper_image channel_data wavelength_data] in Hcube2, Hchan2.
  destruct (shape_read_back _ _ _ _ Hchan HR HC) as (H0 & H1 & _).
  destruct (shape_read_back _ _ _ _ Hchan2 HR2 HC2) as (H0' & H1' & _).
  destruct (shape_read_back _ _ _ _ Hcube HR HC) as (Hc0 & Hc1 & _).
  destruct (shape_read_back _ _ _ _ Hcube2 HR2 HC2) as (Hc0' & Hc1' & _).
  unfold window_view. cbn [with_cube hyper_image channel_data].
  now rewrite Hc0, Hc1, Hc0', Hc1', <- H0, <- H1, H0', H1'.
Qed.

(** The array returned is computed from the planes of the window that lie
    between the two resolved indices. *)
Lemma hyperslice_between h cube2 start stop rows cols axis i_start i_stop :
  built h → built (with_cube h cube2) →
  ints (wavelength_data h) = Ok axis →
  find_index axis start = Some i_start →
  find_index axis stop = Some i_stop →
  let v := window_view h rows cols i_stop in
  (∀ r c k,
     Np.in_bounds (v_rows v) r = true → Np.in_bounds (v_cols v) c = true →
     (Nat.min i_start i_stop <= k <= Nat.max i_start i_stop)%nat →
     get3 cube2 r c k = get3 (hyper_image h) r c k) →
  returned <$> hyperslice (with_cube h cube2) start stop rows cols
  = returned <$> hyperslice h start stop rows cols.
Proof.
  intros Hbuilt Hbuilt2 Hints Hstart Hstop v Hagree.
  rewrite (hyperslice_spec h start stop rows cols axis i_start i_stop) by assumption.
  rewrite (hyperslice_spec (with_cube h cube2) start stop rows cols axis i_start i_stop)
    by assumption.
  rewrite (window_view_with_cube h cube2 rows cols i_stop Hbuilt Hbuilt2).
  fold v. run_bind. f_equal. unfold returned.
  cbn [fst snd with_cube hyper_image].
  destruct Hbuilt as (R & C & Nc & HR & HC & Hcube & Hchan).
  destruct Hbuilt2 as (R2 & C2 & Nc2 & HR2 & HC2 & Hcube2 & Hchan2).
  cbn [with_cube hyper_image channel_data wavelength_data] in Hcube2, Hchan2.
  assert (R2 = R ∧ C2 = C) as [-> ->].
  { destruct (shape_read_back _ _ _ _ Hchan HR HC) as (H0 & H1 & _).
    destruct (shape_read_back _ _ _ _ Hchan2 HR2 HC2) as (H0' & H1' & _).
    split; congruence. }
  apply (read_ext _ _ R C (length (wavelength_data h)));
    try (apply map_window_shape; [intros; apply accumulate_cell_length|assumption]).
  intros r c cell1' cell2' Hr Hc Hcell1 Hcell2.
  rewrite map_window_cell, Hr, Hc in Hcell1, Hcell2. cbn [andb] in Hcell1, Hcell2.
  destruct (cube2 !! r ≫= (λ row, row !! c)) as [cell1|] eqn:H1; [|discriminate].
  destruct (hyper_image h !! r ≫= (λ row, row !! c)) as [cell2|] eqn:H2; [|discriminate].
  injection Hcell1 as <-. injection Hcell2 as <-.
  rewrite !list_lookup_total_alt. f_equal. cbn [v_plane v window_view].
  apply (accumulate_cell_dep i_stop (Nat.max i_start i_stop)); [| |lia].
  - apply Forall_forall. intros i Hi. unfold range in Hi.
    apply elem_of_seq in Hi. lia.
  - intros k Hk.
    rewrite <- (get3_cell _ _ _ k _ H1), <- (get3_cell _ _ _ k _ H2).
    apply Hagree; [exact Hr|exact Hc|lia].
Qed.

(** The cube after the accumulation differs from the cube before it at
    most in the window, at the plane of the view. *)
Lemma map_window_frame v f (a : Np.array3) r c k :
  (∀ cell, k ≠ v_plane v → f cell !! k = cell !! k) →
  Np.in_bounds (v_rows v) r && Np.in_bounds (v_cols v) c && (k =? v_plane v)%nat = false →
  get3 (map_window v f a) r c k = get3 a r c k.
Proof.
  intros Hf Hout.
  destruct (a !! r ≫= (λ row, row !! c)) as [cell|] eqn:Hcell.
  - rewrite (get3_cell a r c k cell Hcell).
    erewrite get3_cell; [|rewrite map_window_cell, Hcell; reflexivity].
    destruct (Np.in_bounds (v_rows v) r && Np.in_bounds (v_cols v) c); [|reflexivity].
    cbn [andb] in Hout. apply Nat.eqb_neq in Hout. now apply Hf.
  - unfold get3. rewrite map_window_lookup.
    destruct (a !! r) as [row|]; [|reflexivity]. cbn in *.
    destruct (Np.in_bounds (v_rows v) r); cbn.
    + rewrite list_lookup_imap, Hcell. reflexivity.
    + now rewrite Hcell.
Qed.

End SliceFacts.

Lemma built_c3 : Slice.built Sample.c3.
Proof.
  exists 1%nat, 1%nat, 0%nat.
  repeat split; try lia; repeat constructor.
Defined.

Lemma built_zero3 : Slice.built Sample.zero3.
Proof.
  exists 1%nat, 1%nat, 0%nat.
  repeat split; try lia; repeat constructor.
Defined.

(** Two binary64 values that compare different are different. *)
Lemma float_neq (x y : float) :
  PrimFloat.eqb x y = false → PrimFloat.is_nan x = false → x ≠ y.
Proof.
  intros Hxy Hnan <-. unfold PrimFloat.is_nan in Hnan.
  rewrite Hxy in Hnan. discriminate.
Qed.

(** C7. With [start == stop == w] and [w] on the truncated axis, the loop
    does not run: [hyperslice] returns the view of the one plane at the first
    index where the axis holds [w], over the selected window, and leaves the
    container as it was.  Each entry of the array returned is the entry of
    the cube at that plane, as a direct lookup gives it. *)
Theorem C7_single_plane (h : Hyper.HyperImage) (w : Z) (rows cols : option (Z * Z))
    (axis : list Z) :
  Slice.built h →
  Slice.ints (Hyper.wavelength_data h) = Ok axis →
  w ∈ axis →
  ∃ k : nat,
    (axis !! k = Some w ∧ ∀ j, (j < k)%nat → axis !! j ≠ Some w) ∧
    let v := Slice.window_view h rows cols k in
    Slice.hyperslice h w w rows cols = Ok (v, h) ∧
    Slice.returned (v, h)
    = Slice.plane (Hyper.hyper_image h) (Slice.v_rows v) (Slice.v_cols v) k ∧
    ∀ i j,
      (i < snd (Slice.v_rows v) - fst (Slice.v_rows v))%nat →
      (j < snd (Slice.v_cols v) - fst (Slice.v_cols v))%nat →
      Slice.get2 (Slice.returned (v, h)) i j
      = Slice.get3 (Hyper.hyper_image h)
          (fst (Slice.v_rows v) + i) (fst (Slice.v_cols v) + j) k.
Proof.
  intros Hbuilt Hints Hw.
  destruct (find_index_elem _ _ Hw) as [k Hk].
  exists k. split; [exact (find_index_Some _ _ _ Hk)|].
  intros v. split; [|split].
  - now apply (hyperslice_single_plane h w w rows cols axis k k).
  - reflexivity.
  - intros i j Hi Hj.
    destruct Hbuilt as (R & C & Nc & HR & HC & Hcube & _).
    apply (read_get _ R C _ v i j Hcube); [|exact Hi|exact Hj].
    destruct (find_index_Some _ _ _ Hk) as [Hk' _].
    apply lookup_lt_Some in Hk'. now rewrite (ints_length _ _ Hints) in Hk'.
Qed.

Lemma C7_single_plane_witness :
  ∃ k : nat,
    ([300; 305; 310] !! k = Some 305 ∧
     ∀ j, (j < k)%nat → [300; 305; 310] !! j ≠ Some 305) ∧
    let v := Slice.window_view Sample.c3 None None k in
    Slice.hyperslice Sample.c3 305 305 None None = Ok (v, Sample.c3) ∧
    Slice.returned (v, Sample.c3)
    = Slice.plane (Hyper.hyper_image Sample.c3) (Slice.v_rows v) (Slice.v_cols v) k ∧
    ∀ i j,
      (i < snd (Slice.v_rows v) - fst (Slice.v_rows v))%nat →
      (j < snd (Slice.v_cols v) - fst (Slice.v_cols v))%nat →
      Slice.get2 (Slice.returned (v, Sample.c3)) i j
      = Slice.get3 (Hyper.hyper_image Sample.c3)
          (fst (Slice.v_rows v) + i) (fst (Slice.v_cols v) + j) k.
Proof.
  apply (C7_single_plane Sample.c3 305 None None [300; 305; 310] built_c3 eq_refl).
  decide_by_computation.
Defined.

(** The plane at 305 of the sample container, through [hyperslice]. *)
Example hyperslice_c3_305 :
  Slice.returned <$> Slice.hyperslice Sample.c3 305 305 None None
  = Ok [[10%float]].
Proof. reflexivity. Qed.

(** C6 fails on the code: with both wavenumbers on the axis and a negative
    span, no error is raised.  [range] of a negative number is empty, so the
    call returns the one plane at the index of [stop]. *)
Lemma C6_negative_span_returns :
  Slice.built Sample.c3 ∧
  Slice.ints (Hyper.wavelength_data Sample.c3) = Ok [300; 305; 310] ∧
  Slice.find_index [300; 305; 310] 300 = Some 0%nat ∧
  Slice.find_index [300; 305; 310] 310 = Some 2%nat ∧
  Slice.hyperslice Sample.c3 300 310 None None
  = Ok (Slice.mkView (0, 1)%nat (0, 1)%nat 2, Sample.c3) ∧
  Slice.returned <$> Slice.hyperslice Sample.c3 300 310 None None
  = Ok [[100%float]].
Proof. split; [exact built_c3|]. repeat split; reflexivity. Qed.

(** C6, as the code has it. A wavenumber that is not on the truncated axis
    makes [list.index] raise ([ValueError], the code's form of a wavenumber
    that is not found).  With both wavenumbers on the axis nothing is raised
    for an empty or negative span: the call returns the one plane at the
    index of [stop] and leaves the container as it was. *)
Theorem C6_errors (h : Hyper.HyperImage) (start stop : Z)
    (rows cols : option (Z * Z)) (axis : list Z) :
  Slice.ints (Hyper.wavelength_data h) = Ok axis →
  (start ∉ axis ∨ stop ∉ axis →
   Slice.hyperslice h start stop rows cols = Raise ValueError) ∧
  (Slice.built h →
   ∀ i_start i_stop,
     Slice.find_index axis start = Some i_start →
     Slice.find_index axis stop = Some i_stop →
     (i_start <= i_stop)%nat →
     Slice.hyperslice h start stop rows cols
     = Ok (Slice.window_view h rows cols i_stop, h)).
Proof.
  intros Hints. split.
  - now apply hyperslice_absent.
  - intros Hbuilt i_start i_stop Hstart Hstop Hle.
    now apply (hyperslice_single_plane h start stop rows cols axis i_start i_stop).
Qed.

Lemma C6_errors_witness :
  (301 ∉ [300; 305; 310] ∨ 310 ∉ [300; 305; 310] →
   Slice.hyperslice Sample.c3 301 310 None None = Raise ValueError) ∧
  (Slice.built Sample.c3 →
   ∀ i_start i_stop,
     Slice.find_index [300; 305; 310] 301 = Some i_start →
     Slice.find_index [300; 305; 310] 310 = Some i_stop →
     (i_start <= i_stop)%nat →
     Slice.hyperslice Sample.c3 301 310 None None
     = Ok (Slice.window_view Sample.c3 None None i_stop, Sample.c3)).
Proof.
  exact (C6_errors Sample.c3 301 310 None None [300; 305; 310] eq_refl).
Defined.

(** A wavenumber off the axis, run. *)
Example hyperslice_c3_absent :
  Slice.hyperslice Sample.c3 301 310 None None = Raise ValueError ∧
  Slice.hyperslice Sample.c3 300 311 None None = Raise ValueError.
Proof. split; reflexivity. Qed.

(** C1 fails on the code, on the axis of the specification with planes 1, 10
    and 100.  [hyperslice(c, 300, 310)] resolves a negative span and returns
    the plane at index 2 alone; [hyperslice(c, 310, 300)] adds plane 0 to
    itself, then plane 1, and never reads plane 2.  Neither is the sum 111
    of the three planes. *)
Lemma C1_not_the_sum_of_the_planes :
  Slice.built Sample.c3 ∧
  Slice.ints (Hyper.wavelength_data Sample.c3) = Ok [300; 305; 310] ∧
  Slice.plane_sum (Hyper.hyper_image Sample.c3) (0, 1)%nat (0, 1)%nat 0 2
  = [[111%float]] ∧
  Slice.returned <$> Slice.hyperslice Sample.c3 300 310 None None
  = Ok [[100%float]] ∧
  Slice.returned <$> Slice.hyperslice Sample.c3 310 300 None None
  = Ok [[12%float]] ∧
  [[100%float]] ≠ [[111%float]] ∧
  [[12%float]] ≠ [[111%float]].
Proof.
  split; [exact built_c3|].
  repeat split; try reflexivity.
  - intros H. apply (float_neq 100 111); [reflexivity|reflexivity|congruence].
  - intros H. apply (float_neq 12 111); [reflexivity|reflexivity|congruence].
Qed.

(** C1, as the code has it by design. The two wavenumbers are resolved in
    one direction: the view is taken at the index of [stop], and planes are
    accumulated from there upwards, below the index of [start].  The call
    returns for every pair of wavenumbers on the axis; when the index of
    [start] does not exceed the index of [stop] it returns the one plane at
    the index of [stop] and leaves the container as it was; and the array
    returned is computed from the planes of the window between the two
    resolved indices and from no other entry of the cube. *)
Theorem C1_directional (h : Hyper.HyperImage) (start stop : Z)
    (rows cols : option (Z * Z)) (axis : list Z) (i_start i_stop : nat) :
  Slice.built h →
  Slice.ints (Hyper.wavelength_data h) = Ok axis →
  Slice.find_index axis start = Some i_start →
  Slice.find_index axis stop = Some i_stop →
  let v := Slice.window_view h rows cols i_stop in
  (∃ cube', Slice.hyperslice h start stop rows cols = Ok (v, Slice.with_cube h cube')) ∧
  ((i_start <= i_stop)%nat →
   Slice.hyperslice h start stop rows cols = Ok (v, h) ∧
   Slice.returned (v, h)
   = Slice.plane (Hyper.hyper_image h) (Slice.v_rows v) (Slice.v_cols v) i_stop) ∧
  (∀ cube2,
     Slice.built (Slice.with_cube h cube2) →
     (∀ r c k,
        Np.in_bounds (Slice.v_rows v) r = true →
        Np.in_bounds (Slice.v_cols v) c = true →
        (Nat.min i_start i_stop <= k <= Nat.max i_start i_stop)%nat →
        Slice.get3 cube2 r c k = Slice.get3 (Hyper.hyper_image h) r c k) →
     Slice.returned <$> Slice.hyperslice (Slice.with_cube h cube2) start stop rows cols
     = Slice.returned <$> Slice.hyperslice h start stop rows cols).
Proof.
  intros Hbuilt Hints Hstart Hstop v. split; [|split].
  - eexists. now apply (hyperslice_spec h start stop rows cols axis i_start i_stop).
  - intros Hle. split; [|reflexivity].
    now apply (hyperslice_single_plane h start stop rows cols axis i_start i_stop).
  - intros cube2 Hbuilt2 Hagree.
    now apply (hyperslice_between h cube2 start stop rows cols axis i_start i_stop).
Qed.

Lemma C1_directional_witness :
  let v := Slice.window_view Sample.c3 None None 2 in
  (∃ cube',
     Slice.hyperslice Sample.c3 300 310 None None
     = Ok (v, Slice.with_cube Sample.c3 cube')) ∧
  ((0 <= 2)%nat →
   Slice.hyperslice Sample.c3 300 310 None None = Ok (v, Sample.c3) ∧
   Slice.returned (v, Sample.c3)
   = Slice.plane (Hyper.hyper_image Sample.c3) (Slice.v_rows v) (Slice.v_cols v) 2) ∧
  (∀ cube2,
     Slice.built (Slice.with_cube Sample.c3 cube2) →
     (∀ r c k,
        Np.in_bounds (Slice.v_rows v) r = true →
        Np.in_bounds (Slice.v_cols v) c = true →
        (Nat.min 0 2 <= k <= Nat.max 0 2)%nat →
        Slice.get3 cube2 r c k = Slice.get3 (Hyper.hyper_image Sample.c3) r c k) →
     Slice.returned <$> Slice.hyperslice (Slice.with_cube Sample.c3 cube2) 300 310 None None
     = Slice.returned <$> Slice.hyperslice Sample.c3 300 310 None None).
Proof.
  exact (C1_directional Sample.c3 300 310 None None [300; 305; 310] 0 2
           built_c3 eq_refl eq_refl eq_refl).
Defined.

(** C2 fails on the code for a cube of zeros: the span is positive, the
    accumulation writes zeros over zeros, the container is left as it was
    and a second identical call returns what the first returned. *)
Lemma C2_zero_cube_unchanged :
  Slice.built Sample.zero3 ∧
  Slice.find_index [300; 305; 310] 310 = Some 2%nat ∧
  Slice.find_index [300; 305; 310] 300 = Some 0%nat ∧
  Slice.hyperslice Sample.zero3 310 300 None None
  = Ok (Slice.mkView (0, 1)%nat (0, 1)%nat 0, Sample.zero3) ∧
  Slice.returned <$> Slice.hyperslice Sample.zero3 310 300 None None
  = Ok [[0%float]].
Proof. split; [exact built_zero3|]. repeat split; reflexivity. Qed.

(** C2, as the code has it. With a positive span the array returned is a
    view of the cube at the plane of the index of [stop], and the
    accumulation is done in the memory of the cube: after the call every
    entry of the cube outside the window, or at another plane, is what it
    was, and the entries of the window at that plane are the values
    returned.  The cube has changed whenever the values returned differ from
    the plane as it was before the call. *)
Theorem C2_written_back (h : Hyper.HyperImage) (start stop : Z)
    (rows cols : option (Z * Z)) (axis : list Z) (i_start i_stop : nat) :
  Slice.built h →
  Slice.ints (Hyper.wavelength_data h) = Ok axis →
  Slice.find_index axis start = Some i_start →
  Slice.find_index axis stop = Some i_stop →
  (i_stop < i_start)%nat →
  let v := Slice.window_view h rows cols i_stop in
  ∃ cube',
    Slice.hyperslice h start stop rows cols = Ok (v, Slice.with_cube h cube') ∧
    (∀ r c k,
       Np.in_bounds (Slice.v_rows v) r && Np.in_bounds (Slice.v_cols v) c
         && (k =? i_stop)%nat = false →
       Slice.get3 cube' r c k = Slice.get3 (Hyper.hyper_image h) r c k) ∧
    (∀ i j,
       (i < snd (Slice.v_rows v) - fst (Slice.v_rows v))%nat →
       (j < snd (Slice.v_cols v) - fst (Slice.v_cols v))%nat →
       Slice.get3 cube' (fst (Slice.v_rows v) + i) (fst (Slice.v_cols v) + j) i_stop
       = Slice.get2 (Slice.returned (v, Slice.with_cube h cube')) i j) ∧
    (Slice.returned (v, Slice.with_cube h cube')
     ≠ Slice.plane (Hyper.hyper_image h) (Slice.v_rows v) (Slice.v_cols v) i_stop →
     cube' ≠ Hyper.hyper_image h).
Proof.
  intros Hbuilt Hints Hstart Hstop Hspan v.
  eexists. split; [|split; [|split]].
  - now apply (hyperslice_spec h start stop rows cols axis i_start i_stop).
  - intros r c k Hout. apply map_window_frame; [|exact Hout].
    intros cell Hk. now apply accumulate_cell_other.
  - intros i j Hi Hj. symmetry.
    destruct Hbuilt as (R & C & Nc & HR & HC & Hcube & _).
    unfold Slice.returned. cbn [fst snd Slice.with_cube Hyper.hyper_image].
    apply (read_get _ R C (length (Hyper.wavelength_data h)) v i j);
      [|cbn|exact Hi|exact Hj].
    + apply map_window_shape; [|exact Hcube].
      intros cell. apply accumulate_cell_length.
    + destruct (find_index_Some _ _ _ Hstop) as [Hk _].
      apply lookup_lt_Some in Hk. now rewrite (ints_length _ _ Hints) in Hk.
  - intros Hdiff Hsame. apply Hdiff.
    unfold Slice.returned. cbn [fst snd Slice.with_cube Hyper.hyper_image].
    now rewrite Hsame.
Qed.

Lemma C2_written_back_witness :
  let v := Slice.window_view Sample.c3 None None 0 in
  ∃ cube',
    Slice.hyperslice Sample.c3 310 300 None None
    = Ok (v, Slice.with_cube Sample.c3 cube') ∧
    (∀ r c k,
       Np.in_bounds (Slice.v_rows v) r && Np.in_bounds (Slice.v_cols v) c
         && (k =? 0)%nat = false →
       Slice.get3 cube' r c k = Slice.get3 (Hyper.hyper_image Sample.c3) r c k) ∧
    (∀ i j,
       (i < snd (Slice.v_rows v) - fst (Slice.v_rows v))%nat →
       (j < snd (Slice.v_cols v) - fst (Slice.v_cols v))%nat →
       Slice.get3 cube' (fst (Slice.v_rows v) + i) (fst (Slice.v_cols v) + j) 0
       = Slice.get2 (Slice.returned (v, Slice.with_cube Sample.c3 cube')) i j) ∧
    (Slice.returned (v, Slice.with_cube Sample.c3 cube')
     ≠ Slice.plane (Hyper.hyper_image Sample.c3) (Slice.v_rows v) (Slice.v_cols v) 0 →
     cube' ≠ Hyper.hyper_image Sample.c3).
Proof.
  exact (C2_written_back Sample.c3 310 300 None None [300; 305; 310] 2 0
           built_c3 eq_refl eq_refl eq_refl ltac:(lia)).
Defined.

(** The sample container, run twice: the first call returns 12 and leaves
    12 in plane 0 of the cube, so the second returns 34. *)
Example hyperslice_c3_twice :
  ∃ v h',
    Slice.hyperslice Sample.c3 310 300 None None = Ok (v, h') ∧
    Slice.returned (v, h') = [[12%float]] ∧
    Hyper.hyper_image h' = [[[12; 10; 100]]]%float ∧
    Slice.returned <$> Slice.hyperslice h' 310 300 None None = Ok [[34%float]].
Proof. do 2 eexists. repeat split; reflexivity. Qed.

(** ** The builder *)

Lemma chunk_lookup {A : Type} (size : nat) (l : list A) (i t : nat) :
  Np.chunk size l i !! t
  = if decide (t < size)%nat then l !! (i * size + t)%nat else None.
Proof.
  unfold Np.chunk. destruct (decide (t < size)%nat) as [Ht|Ht].
  - rewrite lookup_take_lt by exact Ht. apply lookup_drop.
  - apply lookup_take_ge. lia.
Qed.

Lemma chunk_length {A : Type} (size : nat) (l : list A) (i : nat) :
  (S i * size <= length l)%nat → length (Np.chunk size l i) = size.
Proof.
  intros Hi. unfold Np.chunk. rewrite length_take, length_drop. lia.
Qed.

(** Pixel [x] of line [y] is pixel [y*X + x] of the file. *)
Lemma chunk_chunk {A : Type} (n X : nat) (data : list A) (x y : nat) :
  (x < X)%nat →
  Np.chunk n (Np.chunk (X * n) data y) x = Np.chunk n data (y * X + x).
Proof.
  intros Hx. apply list_eq. intros t. rewrite !chunk_lookup.
  destruct (decide (t < n)%nat) as [Ht|Ht]; [|reflexivity].
  rewrite decide_True by nia. f_equal. lia.
Qed.

Lemma chunk_one {A : Type} `{Inhabited A} (data : list A) (k : nat) :
  (k < length data)%nat → Np.chunk 1 data k = [data !!! k].
Proof.
  intros Hk. apply list_eq. intros t. rewrite chunk_lookup.
  destruct (decide (t < 1)%nat) as [Ht|Ht].
  - replace t with 0%nat by lia. rewrite Nat.mul_1_r, Nat.add_0_r. cbn.
    now apply list_lookup_lookup_total_lt.
  - destruct t; [lia|reflexivity].
Qed.

(** [np.split] into [X] pieces of a list of [X * n] items. *)
Lemma split_exact {A : Type} (l : list A) (X n : nat) :
  (0 < X)%nat → length l = (X * n)%nat →
  Np.split l (Z.of_nat X) = Ok (map (Np.chunk n l) (seq 0 X)).
Proof.
  intros HX Hlen. unfold Np.split.
  destruct (Z.eqb_spec (Z.of_nat X) 0) as [?|_]; [lia|].
  destruct (Z.ltb_spec (Z.of_nat X) 0) as [?|_]; [lia|].
  rewrite Hlen, Nat2Z.inj_mul, Z.mul_comm, Z_mod_mult. cbn [Z.eqb negb].
  now rewrite Nat2Z.id, Nat.mul_comm, Nat.div_mul by lia.
Qed.

Lemma lookup_chunks {A : Type} (size X : nat) (l : list A) (t : nat) (piece : list A) :
  map (Np.chunk size l) (seq 0 X) !! t = Some piece →
  (t < X)%nat ∧ piece = Np.chunk size l t.
Proof.
  rewrite lookup_map. destruct (seq 0 X !! t) as [k|] eqn:Hk; [|discriminate].
  apply lookup_seq in Hk as [-> Ht]. cbn. intros [= <-]. now split.
Qed.

Section FillFacts.

Import Hyper.

Variable store : list Z → list float → result (list float).

(** One assignment changes one cell. *)
Lemma assign_cell_spec j i pixel (a : Np.array3) cell new :
  Np.cell_at a j i = Some cell → store pixel cell = Ok new →
  ∃ a', assign_cell store j i pixel a = Ok a' ∧
    ∀ x y, Np.cell_at a' x y
           = if decide (x = j ∧ y = i) then Some new else Np.cell_at a x y.
Proof.
  unfold Np.cell_at, assign_cell, nth_item. intros Hcell Hstore.
  destruct (a !! j) as [row|] eqn:Hrow; [|discriminate]. cbn in Hcell.
  run_bind. rewrite Hcell. run_bind. rewrite Hstore. run_bind.
  eexists. split; [reflexivity|]. intros x y.
  pose proof (lookup_lt_Some _ _ _ Hrow) as Hj.
  pose proof (lookup_lt_Some _ _ _ Hcell) as Hi.
  destruct (decide (x = j)) as [->|Hx].
  - rewrite list_lookup_insert_eq by exact Hj. cbn.
    destruct (decide (y = i)) as [->|Hy].
    + rewrite list_lookup_insert_eq by exact Hi.
      now rewrite decide_True by tauto.
    + rewrite list_lookup_insert_ne by congruence.
      rewrite decide_False by tauto. now rewrite Hrow.
  - rewrite list_lookup_insert_ne by congruence.
    now rewrite decide_False by tauto.
Qed.

(** The loop over the pixels of line [i], from column [j] on: pixel [t] of
    the list is stored into the cell of column [j + t]. *)
Lemma pixel_loop_cells i :
  ∀ (pixels : list (list Z)) j (a : Np.array3) (f : nat → list float → list float),
    (∀ t pixel, pixels !! t = Some pixel →
       ∃ cell, Np.cell_at a (j + t) i = Some cell ∧ store pixel cell = Ok (f t cell)) →
    ∃ a', pixel_loop (assign_cell store) i j pixels a = Ok a' ∧
      ∀ x y, Np.cell_at a' x y
             = if decide (y = i ∧ (j <= x < j + length pixels)%nat)
               then f (x - j)%nat <$> Np.cell_at a x y
               else Np.cell_at a x y.
Proof.
  induction pixels as [|pixel pixels IH]; intros j a f Hcells.
  - exists a. split; [reflexivity|]. intros x y.
    rewrite decide_False; [reflexivity|]. cbn. lia.
  - destruct (Hcells 0%nat pixel eq_refl) as (cell & Hcell & Hstore).
    rewrite Nat.add_0_r in Hcell.
    destruct (assign_cell_spec j i pixel a cell _ Hcell Hstore) as (a1 & Ha1 & Hcells1).
    destruct (IH (S j) a1 (λ t, f (S t))) as (a' & Ha' & Hcells').
    { intros t px Hpx. destruct (Hcells (S t) px Hpx) as (cl & Hcl & Hst).
      exists cl. split; [|exact Hst].
      rewrite Hcells1. rewrite decide_False by lia.
      now replace (S j + t)%nat with (j + S t)%nat by lia. }
    exists a'. split.
    { cbn [pixel_loop]. rewrite Ha1. run_bind. exact Ha'. }
    intros x y. rewrite Hcells', Hcells1. cbn [length].
    destruct (decide (y = i ∧ (S j <= x < S j + length pixels)%nat)) as [[-> Hx]|Hout].
    + rewrite decide_False by lia. rewrite decide_True by lia.
      now replace (x - j)%nat with (S (x - S j)) by lia.
    + destruct (decide (x = j ∧ y = i)) as [[-> ->]|Hne].
      * rewrite decide_True by lia. rewrite Nat.sub_diag, Hcell. reflexivity.
      * rewrite decide_False by lia. reflexivity.
Qed.

(** The loop over the lines, from line [i] on: pixel [x] of line [s] of the
    list is stored into the cell of column [x] and line [i + s]. *)
Lemma line_loop_cells X n :
  (0 < X)%nat →
  ∀ (lines : list (list Z)) i (a : Np.array3)
    (F : nat → nat → list float → list float),
    (∀ s line, lines !! s = Some line → length line = (X * n)%nat) →
    (∀ s line x, lines !! s = Some line → (x < X)%nat →
       ∃ cell, Np.cell_at a x (i + s) = Some cell ∧
               store (Np.chunk n line x) cell = Ok (F s x cell)) →
    ∃ a', line_loop (assign_cell store) (Z.of_nat X) i lines a = Ok a' ∧
      ∀ x y, Np.cell_at a' x y
             = if decide ((x < X)%nat ∧ (i <= y < i + length lines)%nat)
               then F (y - i)%nat x <$> Np.cell_at a x y
               else Np.cell_at a x y.
Proof.
  intros HX. induction lines as [|line lines IH]; intros i a F Hlen Hcells.
  - exists a. split; [reflexivity|]. intros x y.
    rewrite decide_False; [reflexivity|]. cbn. lia.
  - pose proof (Hlen 0%nat line eq_refl) as Hline.
    destruct (pixel_loop_cells i (map (Np.chunk n line) (seq 0 X)) 0 a (F 0%nat))
      as (a1 & Ha1 & Hcells1).
    { intros t pixel Hpixel. apply lookup_chunks in Hpixel as [Ht ->].
      destruct (Hcells 0%nat line t eq_refl Ht) as (cell & Hcell & Hstore).
      exists cell. now rewrite Nat.add_0_r in Hcell. }
    rewrite length_map, length_seq in Hcells1.
    destruct (IH (S i) a1 (λ s, F (S s))) as (a' & Ha' & Hcells').
    { intros s ln Hln. exact (Hlen (S s) ln Hln). }
    { intros s ln x Hln Hx.
      destruct (Hcells (S s) ln x Hln Hx) as (cell & Hcell & Hstore).
      exists cell. split; [|exact Hstore].
      rewrite Hcells1, decide_False by lia.
      now replace (S i + s)%nat with (i + S s)%nat by lia. }
    exists a'. split.
    { cbn [line_loop]. rewrite (split_exact line X n HX Hline). run_bind.
      rewrite Ha1. run_bind. exact Ha'. }
    intros x y. rewrite Hcells', Hcells1. cbn [length].
    destruct (decide ((x < X)%nat ∧ (S i <= y < S i + length lines)%nat)) as [[Hx Hy]|Hout].
    + rewrite decide_False by lia. rewrite decide_True by lia.
      now replace (y - i)%nat with (S (y - S i)) by lia.
    + destruct (decide (y = i ∧ (0 <= x < 0 + X)%nat)) as [[-> Hx]|Hne].
      * rewrite decide_True by lia. now rewrite Nat.sub_diag, Nat.sub_0_r.
      * rewrite decide_False by lia. reflexivity.
Qed.

(** The two loops over the samples of a file of [Y] lines of [X] pixels of
    [n] samples: the cell [(x, y)] receives pixel [y*X + x] of the file, and
    no other cell changes. *)
Lemma fill_cells X Y n (data : list Z) (a : Np.array3)
    (F : nat → nat → list float → list float) :
  (0 < X)%nat → (0 < Y)%nat →
  length data = (Y * (X * n))%nat →
  (∀ x y, (x < X)%nat → (y < Y)%nat →
     ∃ cell, Np.cell_at a x y = Some cell ∧
             store (Np.chunk n data (y * X + x)) cell = Ok (F y x cell)) →
  ∃ a', fill (assign_cell store) (Z.of_nat X) (Z.of_nat Y) data a = Ok a' ∧
    ∀ x y, Np.cell_at a' x y
           = if decide ((x < X)%nat ∧ (y < Y)%nat)
             then F y x <$> Np.cell_at a x y
             else Np.cell_at a x y.
Proof.
  intros HX HY Hlen Hcells.
  destruct (line_loop_cells X n HX (map (Np.chunk (X * n) data) (seq 0 Y)) 0 a F)
    as (a' & Ha' & Hcells').
  - intros s line Hline. apply lookup_chunks in Hline as [Hs ->].
    apply chunk_length. nia.
  - intros s line x Hline Hx. apply lookup_chunks in Hline as [Hs ->].
    rewrite (chunk_chunk n X data x s Hx). cbn [Nat.add]. now apply Hcells.
  - exists a'. split.
    + unfold fill. rewrite (split_exact data Y (X * n) HY Hlen). run_bind. exact Ha'.
    + intros x y. rewrite Hcells', length_map, length_seq, Nat.sub_0_r.
      destruct (decide ((x < X)%nat ∧ (y < Y)%nat)) as [Hin|Hout].
      * now rewrite decide_True by lia.
      * now rewrite decide_False by lia.
Qed.

End FillFacts.

Lemma pixel_index_lt (X Y x y : nat) :
  (x < X)%nat → (y < Y)%nat → (y * X + x < Y * X)%nat.
Proof. nia. Qed.

Lemma spectrum_index_le (X Y Ns x y : nat) :
  (x < X)%nat → (y < Y)%nat → (S (y * X + x) * Ns <= Y * (X * Ns))%nat.
Proof.
  intros Hx Hy. pose proof (pixel_index_lt X Y x y Hx Hy).
  rewrite Nat.mul_assoc. apply Nat.mul_le_mono_r. lia.
Qed.

Lemma spectrum_index_lt (X Y Ns x y k : nat) :
  (x < X)%nat → (y < Y)%nat → (k < Ns)%nat →
  ((y * X + x) * Ns + k < Y * (X * Ns))%nat.
Proof.
  intros Hx Hy Hk. pose proof (spectrum_index_le X Y Ns x y Hx Hy). lia.
Qed.

Lemma shape_cell_at (a : Np.array3) X Y Ns x y :
  Np.has_shape X Y Ns a → (x < X)%nat → (y < Y)%nat →
  ∃ cell, Np.cell_at a x y = Some cell ∧ length cell = Ns.
Proof.
  intros Hshape Hx Hy.
  destruct (shape_cell a X Y Ns Hshape x y Hx Hy) as (row & cell & Hrow & Hcell & Hlen).
  exists cell. split; [|exact Hlen]. unfold Np.cell_at. now rewrite Hrow.
Qed.

(** The grid of one channel before the orientation is normalised. *)
Lemma fill_channel (raw : list Z) (scale : float) (ch X Y Nc : nat) (a : Np.array3) :
  Np.has_shape X Y Nc a → (ch < Nc)%nat → (0 < X)%nat → (0 < Y)%nat →
  length raw = (Y * X)%nat →
  ∃ grid,
    Hyper.fill (Hyper.assign_sample scale ch) (Z.of_nat X) (Z.of_nat Y) raw a = Ok grid ∧
    ∀ x y, Np.cell_at grid x y
           = if decide ((x < X)%nat ∧ (y < Y)%nat)
             then (λ cell, <[ch := PrimFloat.mul scale (Num.of_i4 (raw !!! (y * X + x)%nat))]> cell)
                    <$> Np.cell_at a x y
             else Np.cell_at a x y.
Proof.
  intros Hshape Hch HX HY Hlen.
  apply (fill_cells (Hyper.store_sample scale ch) X Y 1 raw a
           (λ y x cell, <[ch := PrimFloat.mul scale (Num.of_i4 (raw !!! (y * X + x)%nat))]> cell));
    [exact HX|exact HY|now rewrite Nat.mul_1_r|].
  intros x y Hx Hy.
  destruct (shape_cell_at a X Y Nc x y Hshape Hx Hy) as (cell & Hcell & Hcl).
  exists cell. split; [exact Hcell|].
  unfold Hyper.store_sample. rewrite Hcl.
  destruct (Nat.leb_spec Nc ch) as [?|_]; [lia|].
  rewrite chunk_one by (rewrite Hlen; now apply pixel_index_lt). reflexivity.
Qed.

(** The cube before the orientation is normalised. *)
Lemma fill_cube (raw : list Z) (scale : float) (X Y Ns : nat) (a : Np.array3) :
  Np.has_shape X Y Ns a → (0 < X)%nat → (0 < Y)%nat →
  length raw = (Y * (X * Ns))%nat →
  ∃ cube,
    Hyper.fill (Hyper.assign_spectrum scale) (Z.of_nat X) (Z.of_nat Y) raw a = Ok cube ∧
    ∀ x y, Np.cell_at cube x y
           = if decide ((x < X)%nat ∧ (y < Y)%nat)
             then (λ _, Hyper.scaled scale (Np.chunk Ns raw (y * X + x))) <$> Np.cell_at a x y
             else Np.cell_at a x y.
Proof.
  intros Hshape HX HY Hlen.
  apply (fill_cells (Hyper.store_spectrum scale) X Y Ns raw a
           (λ y x _, Hyper.scaled scale (Np.chunk Ns raw (y * X + x))));
    [exact HX|exact HY|exact Hlen|].
  intros x y Hx Hy.
  destruct (shape_cell_at a X Y Ns x y Hshape Hx Hy) as (cell & Hcell & Hcl).
  exists cell. split; [exact Hcell|].
  unfold Hyper.store_spectrum, Hyper.broadcast, Hyper.scaled.
  rewrite length_map, chunk_length, Hcl
    by (rewrite Hlen; now apply spectrum_index_le).
  now rewrite Nat.eqb_refl.
Qed.

(** C8. Before the orientation is normalised, the grid of a channel file of
    [Y] rows of [X] samples holds at [[x, y]] the sample of row [y] and
    column [x], times the scale factor: the destination address is
    [[column, row]].  The same holds plane by plane for the cube, whose file
    has one spectrum of [Ns] samples per pixel. *)
Theorem C8_grid_transposed (scale : float) (X Y x y : nat) :
  (x < X)%nat → (y < Y)%nat →
  (∀ (bytes : list Byte.byte) (ch Nc : nat) (a : Np.array3),
     let raw := Num.fromfile_i4 bytes in
     Np.has_shape X Y Nc a → (ch < Nc)%nat → length raw = (Y * X)%nat →
     ∃ grid,
       Hyper.fill (Hyper.assign_sample scale ch) (Z.of_nat X) (Z.of_nat Y) raw a
       = Ok grid ∧
       Slice.get3 grid x y ch
       = Some (PrimFloat.mul scale (Num.of_i4 (raw !!! (y * X + x)%nat)))) ∧
  (∀ (bytes : list Byte.byte) (Ns : nat) (a : Np.array3),
     let raw := Num.fromfile_i4 bytes in
     Np.has_shape X Y Ns a → length raw = (Y * (X * Ns))%nat →
     ∃ cube,
       Hyper.fill (Hyper.assign_spectrum scale) (Z.of_nat X) (Z.of_nat Y) raw a
       = Ok cube ∧
       ∀ k, (k < Ns)%nat →
         Slice.get3 cube x y k
         = Some (PrimFloat.mul scale (Num.of_i4 (raw !!! ((y * X + x) * Ns + k)%nat)))).
Proof.
  intros Hx Hy. split.
  - intros bytes ch Nc a raw Hshape Hch Hlen.
    destruct (fill_channel raw scale ch X Y Nc a Hshape Hch) as (grid & Hgrid & Hcells);
      [lia|lia|exact Hlen|].
    exists grid. split; [exact Hgrid|].
    destruct (shape_cell_at a X Y Nc x y Hshape Hx Hy) as (cell & Hcell & Hcl).
    specialize (Hcells x y). rewrite decide_True, Hcell in Hcells by tauto.
    rewrite (get3_cell grid x y ch _ Hcells).
    apply list_lookup_insert_eq. lia.
  - intros bytes Ns a raw Hshape Hlen.
    destruct (fill_cube raw scale X Y Ns a Hshape) as (cube & Hcube & Hcells);
      [lia|lia|exact Hlen|].
    exists cube. split; [exact Hcube|]. intros k Hk.
    destruct (shape_cell_at a X Y Ns x y Hshape Hx Hy) as (cell & Hcell & Hcl).
    specialize (Hcells x y). rewrite decide_True, Hcell in Hcells by tauto.
    rewrite (get3_cell cube x y k _ Hcells).
    unfold Hyper.scaled. rewrite lookup_map, chunk_lookup, decide_True by exact Hk.
    rewrite (list_lookup_lookup_total_lt raw)
      by (rewrite Hlen; now apply spectrum_index_lt).
    reflexivity.
Qed.

Lemma C8_grid_transposed_witness :
  (∀ (bytes : list Byte.byte) (ch Nc : nat) (a : Np.array3),
     let raw := Num.fromfile_i4 bytes in
     Np.has_shape 2 1 Nc a → (ch < Nc)%nat → length raw = (1 * 2)%nat →
     ∃ grid,
       Hyper.fill (Hyper.assign_sample 2%float ch) (Z.of_nat 2) (Z.of_nat 1) raw a
       = Ok grid ∧
       Slice.get3 grid 1 0 ch
       = Some (PrimFloat.mul 2%float (Num.of_i4 (raw !!! (0 * 2 + 1)%nat)))) ∧
  (∀ (bytes : list Byte.byte) (Ns : nat) (a : Np.array3),
     let raw := Num.fromfile_i4 bytes in
     Np.has_shape 2 1 Ns a → length raw = (1 * (2 * Ns))%nat →
     ∃ cube,
       Hyper.fill (Hyper.assign_spectrum 2%float) (Z.of_nat 2) (Z.of_nat 1) raw a
       = Ok cube ∧
       ∀ k, (k < Ns)%nat →
         Slice.get3 cube 1 0 k
         = Some (PrimFloat.mul 2%float (Num.of_i4 (raw !!! ((0 * 2 + 1) * Ns + k)%nat)))).
Proof.
  exact (C8_grid_transposed 2%float 2 1 1 0 ltac:(lia) ltac:(lia)).
Defined.

Lemma bind_Ok {A B : Type} (m : result A) (k : A → result B) (b : B) :
  m ≫= k = Ok b → ∃ a, m = Ok a ∧ k a = Ok b.
Proof. destruct m as [a|e]; [|discriminate]. intros Hk. now exists a. Qed.

(** Take the next step of a computation that is known to return. *)
Ltac next_step H x Hx :=
  apply bind_Ok in H as (x & Hx & H).

Lemma zeros3_Ok x y s (a : Np.array3) :
  Np.zeros3 x y s = Ok a →
  0 <= x ∧ 0 <= y ∧ 0 <= s ∧ Np.has_shape (Z.to_nat x) (Z.to_nat y) (Z.to_nat s) a.
Proof.
  unfold Np.zeros3.
  destruct (Z.ltb_spec x 0); [discriminate|].
  destruct (Z.ltb_spec y 0); [discriminate|].
  destruct (Z.ltb_spec s 0); [discriminate|].
  cbn [orb]. intros [= <-]. repeat split; try assumption.
  - apply length_replicate.
  - apply Forall_replicate. split; [apply length_replicate|].
    apply Forall_replicate. apply length_replicate.
Qed.

Lemma split_Ok {A : Type} (l : list A) (n : Z) (pieces : list (list A)) :
  Np.split l n = Ok pieces → 0 < n ∧ length pieces = Z.to_nat n.
Proof.
  unfold Np.split.
  destruct (Z.eqb_spec n 0); [discriminate|].
  destruct (Z.ltb_spec n 0); [discriminate|].
  destruct (negb _); [discriminate|].
  intros [= <-]. rewrite length_map, length_seq. lia.
Qed.

Section Preservation.

Import Hyper.

Variable store : list Z → list float → result (list float).
Hypothesis store_length :
  ∀ pixel cell new, store pixel cell = Ok new → length new = length cell.

Variables X Y Ns : nat.

(** An assignment into a cell keeps the shape of the array. *)
Lemma assign_cell_shape j i pixel (a a' : Np.array3) :
  Np.has_shape X Y Ns a → assign_cell store j i pixel a = Ok a' →
  Np.has_shape X Y Ns a'.
Proof.
  intros [Hlen Hall] Hassign. unfold assign_cell, nth_item in Hassign.
  destruct (a !! j) as [row|] eqn:Hrow; [|discriminate]. run_bind.
  cbn in Hassign.
  destruct (row !! i) as [cell|] eqn:Hcell; [|discriminate]. cbn in Hassign.
  destruct (store pixel cell) as [new|] eqn:Hstore; [|discriminate].
  cbn in Hassign. injection Hassign as <-.
  destruct (Forall_lookup_1 _ _ _ _ Hall Hrow) as [HrowY Hcells].
  split; [now rewrite length_insert|].
  apply Forall_insert; [exact Hall|]. split; [now rewrite length_insert|].
  apply Forall_insert; [exact Hcells|].
  rewrite (store_length _ _ _ Hstore).
  exact (Forall_lookup_1 _ _ _ _ Hcells Hcell).
Qed.

Lemma pixel_loop_shape i :
  ∀ pixels j (a a' : Np.array3),
    Np.has_shape X Y Ns a → pixel_loop (assign_cell store) i j pixels a = Ok a' →
    Np.has_shape X Y Ns a'.
Proof.
  induction pixels as [|pixel pixels IH]; intros j a a' Hshape Hloop.
  - now injection Hloop as <-.
  - cbn [pixel_loop] in Hloop. next_step Hloop a1 Ha1.
    apply (IH (S j) a1 a'); [|exact Hloop].
    exact (assign_cell_shape j i pixel a a1 Hshape Ha1).
Qed.

Lemma line_loop_shape x_pixel :
  ∀ lines i (a a' : Np.array3),
    Np.has_shape X Y Ns a → line_loop (assign_cell store) x_pixel i lines a = Ok a' →
    Np.has_shape X Y Ns a'.
Proof.
  induction lines as [|line lines IH]; intros i a a' Hshape Hloop.
  - now injection Hloop as <-.
  - cbn [line_loop] in Hloop. next_step Hloop pixels Hpixels.
    next_step Hloop a1 Ha1.
    apply (IH (S i) a1 a'); [|exact Hloop].
    exact (pixel_loop_shape i pixels 0 a a1 Hshape Ha1).
Qed.

Lemma fill_shape x_pixel y_pixel data (a a' : Np.array3) :
  Np.has_shape X Y Ns a → fill (assign_cell store) x_pixel y_pixel data a = Ok a' →
  Np.has_shape X Y Ns a'.
Proof.
  intros Hshape Hfill. unfold fill in Hfill. next_step Hfill lines Hlines.
  exact (line_loop_shape x_pixel lines 0 a a' Hshape Hfill).
Qed.

(** A file is read only with at least one pixel each way: [np.split] into
    no pieces raises. *)
Lemma fill_positive x_pixel y_pixel data (a a' : Np.array3) :
  fill (assign_cell store) x_pixel y_pixel data a = Ok a' →
  0 < x_pixel ∧ 0 < y_pixel.
Proof.
  intros Hfill. unfold fill in Hfill. next_step Hfill lines Hlines.
  apply split_Ok in Hlines as [Hy Hlen]. split; [|exact Hy].
  destruct lines as [|line lines]; [cbn in Hlen; lia|].
  cbn [line_loop] in Hfill. next_step Hfill pixels Hpixels.
  now apply split_Ok in Hpixels as [Hx _].
Qed.

End Preservation.

Lemma store_spectrum_length scale pixel cell new :
  Hyper.store_spectrum scale pixel cell = Ok new → length new = length cell.
Proof.
  unfold Hyper.store_spectrum, Hyper.broadcast.
  destruct (Nat.eqb_spec (length (Hyper.scaled scale pixel)) (length cell)) as [Heq|_].
  - now intros [= <-].
  - destruct (Hyper.scaled scale pixel) as [|v [|? ?]]; try discriminate.
    intros [= <-]. apply length_replicate.
Qed.

Lemma store_sample_length scale ch pixel cell new :
  Hyper.store_sample scale ch pixel cell = Ok new → length new = length cell.
Proof.
  unfold Hyper.store_sample.
  destruct (length cell <=? ch)%nat; [discriminate|].
  destruct (Hyper.scaled scale pixel) as [|v [|? ?]]; try discriminate.
  intros [= <-]. apply length_insert.
Qed.

Section InitFacts.

Import Hyper.

Variable py_float : string → result float.
Variable dir : directory.

(** The loop over the channels keeps the shape of the stack and records one
    caption per channel. *)
Lemma channel_loop_shape X Y Nc x_pixel y_pixel :
  ∀ channels ch names (a : Np.array3) names' (a' : Np.array3),
    Np.has_shape X Y Nc a →
    channel_loop py_float dir x_pixel y_pixel ch channels (names, a) = Ok (names', a') →
    Np.has_shape X Y Nc a' ∧ length names' = (length names + length channels)%nat.
Proof.
  induction channels as [|channel channels IH]; intros ch names a names' a' Hshape Hloop.
  - injection Hloop as <- <-. split; [exact Hshape|]. cbn. lia.
  - cbn [channel_loop] in Hloop.
    next_step Hloop caption Hcaption. next_step Hloop name Hname.
    next_step Hloop data Hdata. next_step Hloop scale Hscale.
    next_step Hloop scaling Hscaling. next_step Hloop a1 Ha1.
    cbn [fst snd] in *.
    apply (fill_shape _ (store_sample_length scaling ch) X Y Nc) in Ha1;
      [|exact Hshape].
    destruct (IH _ _ _ _ _ Ha1 Hloop) as [Hshape' Hlen].
    split; [exact Hshape'|]. rewrite Hlen, length_app. cbn. lia.
Qed.

(** The transpose of the two leading axes swaps their lengths. *)
Lemma transpose_shape (a : Np.array3) X Y Ns :
  Np.has_shape X Y Ns a → (0 < X)%nat → Np.has_shape Y X Ns (Np.transpose a).
Proof.
  intros [Hlen Hall] HX. unfold Np.transpose.
  assert (Np.shape1 a = Y) as ->.
  { destruct a as [|row a']; [cbn in Hlen; lia|].
    now apply Forall_cons in Hall as [[HrowY _] _]. }
  split; [now rewrite length_map, length_seq|].
  rewrite map_fmap. apply Forall_fmap, Forall_forall. intros j Hj.
  apply elem_of_seq in Hj. cbn. split; [now rewrite length_map|].
  rewrite map_fmap. apply Forall_fmap. eapply Forall_impl; [exact Hall|].
  intros row [HrowY Hcells]. cbn.
  destruct (lookup_lt_is_Some_2 row j) as [cell Hcell]; [lia|].
  rewrite (list_lookup_total_correct _ _ _ Hcell).
  exact (Forall_lookup_1 _ _ _ _ Hcells Hcell).
Qed.

Lemma flip1_shape (a : Np.array3) X Y Ns :
  Np.has_shape X Y Ns a → Np.has_shape X Y Ns (Np.flip1 a).
Proof.
  intros [Hlen Hall]. unfold Np.flip1. split; [now rewrite length_map|].
  rewrite map_fmap. apply Forall_fmap. eapply Forall_impl; [exact Hall|].
  intros row [HrowY Hcells]. cbn. split; [now rewrite length_reverse|].
  now apply Forall_reverse.
Qed.

(** The orientation exposed is the transpose of the grid built. *)
Lemma normalise_transpose (a : Np.array3) : normalise a = Np.transpose a.
Proof.
  unfold normalise, Np.rot90_neg1, Np.flip1. rewrite map_map.
  rewrite <- (map_id (Np.transpose a)) at 2. apply map_ext.
  intros row. apply reverse_involutive.
Qed.

Lemma normalise_shape (a : Np.array3) X Y Ns :
  Np.has_shape X Y Ns a → (0 < X)%nat → Np.has_shape Y X Ns (normalise a).
Proof. intros Hshape HX. rewrite normalise_transpose. now apply transpose_shape. Qed.

(** What a construction that returns has read and built, before the
    orientation is normalised. *)
Lemma build_shape h :
  build py_float dir = Ok h →
  ∃ (X Y : nat) (xs ys : string),
    parms h !! "xPixel" = Some xs ∧ Num.int_of_str xs = Ok (Z.of_nat X) ∧
    parms h !! "yPixel" = Some ys ∧ Num.int_of_str ys = Ok (Z.of_nat Y) ∧
    (0 < X)%nat ∧ (0 < Y)%nat ∧
    Np.has_shape X Y (length (wavelength_data h)) (hyper_image h) ∧
    Np.has_shape X Y
      (length (snd (fst (Parser.read_anfatec_params (param_lines dir)))) - 1)
      (channel_data h) ∧
    length (channel_names h)
    = (length (snd (fst (Parser.read_anfatec_params (param_lines dir)))) - 1)%nat.
Proof.
  unfold build.
  destruct (Parser.read_anfatec_params (param_lines dir)) as [[parms0 channels] e].
  cbn [fst snd]. intros Hbuild.
  next_step Hbuild xs Hxs. next_step Hbuild x_pixel Hx.
  next_step Hbuild ys Hys. next_step Hbuild y_pixel Hy.
  next_step Hbuild chan0 Hchan0. next_step Hbuild wname Hwname.
  next_step Hbuild wname' Hwname'. next_step Hbuild wl Hwl.
  next_step Hbuild cube0 Hcube0. next_step Hbuild scale Hscale.
  next_step Hbuild scaling Hscaling. next_step Hbuild name Hname.
  next_step Hbuild data Hdata. next_step Hbuild cube Hcube.
  next_step Hbuild stack0 Hstack0. next_step Hbuild st Hst.
  injection Hbuild as <-. cbn [Hyper.parms wavelength_data hyper_image channel_data channel_names].
  destruct (fill_positive _ _ _ _ _ _ Hcube) as [Hxpos Hypos].
  apply zeros3_Ok in Hcube0 as (_ & _ & _ & Hshape0).
  apply zeros3_Ok in Hstack0 as (_ & _ & _ & Hstack0).
  rewrite Nat2Z.id in Hshape0, Hstack0.
  apply (fill_shape _ (store_spectrum_length scaling) _ _ _ _ _ _ _ _ Hshape0) in Hcube.
  destruct st as [names stack].
  destruct (channel_loop_shape _ _ _ _ _ _ _ _ _ _ _ Hstack0 Hst) as [Hstack Hnames].
  rewrite length_drop in Hstack, Hnames.
  exists (Z.to_nat x_pixel), (Z.to_nat y_pixel), xs, ys.
  rewrite !Z2Nat.id by lia.
  unfold getitem in Hxs, Hys.
  destruct (parms0 !! "xPixel") as [xs'|] eqn:Hxs'; [|discriminate].
  destruct (parms0 !! "yPixel") as [ys'|] eqn:Hys'; [|discriminate].
  injection Hxs as ->. injection Hys as ->.
  cbn [length Nat.add] in Hnames.
  repeat (split; [solve [reflexivity|assumption|lia]|]). exact Hnames.
Qed.

End InitFacts.

(** The shapes a construction that returns exposes. *)
Lemma init_shape (py_float : string → result float) (dir : Hyper.directory)
    (h : Hyper.HyperImage) :
  Hyper.init py_float dir = Ok h →
  ∃ (X Y : nat) (xs ys : string),
    Hyper.parms h !! "xPixel" = Some xs ∧ Num.int_of_str xs = Ok (Z.of_nat X) ∧
    Hyper.parms h !! "yPixel" = Some ys ∧ Num.int_of_str ys = Ok (Z.of_nat Y) ∧
    (0 < X)%nat ∧ (0 < Y)%nat ∧
    Np.has_shape Y X (length (Hyper.wavelength_data h)) (Hyper.hyper_image h) ∧
    Np.has_shape Y X
      (length (snd (fst (Parser.read_anfatec_params (Hyper.param_lines dir)))) - 1)
      (Hyper.channel_data h) ∧
    length (Hyper.channel_names h)
    = (length (snd (fst (Parser.read_anfatec_params (Hyper.param_lines dir)))) - 1)%nat.
Proof.
  unfold Hyper.init. intros Hinit. next_step Hinit h0 Hbuild.
  injection Hinit as <-.
  destruct (build_shape py_float dir h0 Hbuild)
    as (X & Y & xs & ys & Hxs & Hx & Hys & Hy & HX & HY & Hcube & Hstack & Hnames).
  exists X, Y, xs, ys.
  cbn [Hyper.parms Hyper.wavelength_data Hyper.hyper_image Hyper.channel_data
       Hyper.channel_names].
  repeat (split; [solve [assumption|now apply normalise_shape]|]). exact Hnames.
Qed.

(** A container that [HyperImage(path)] returns is a built container. *)
Lemma init_built (py_float : string → result float) (dir : Hyper.directory)
    (h : Hyper.HyperImage) :
  Hyper.init py_float dir = Ok h → Slice.built h.
Proof.
  intros Hinit.
  destruct (init_shape py_float dir h Hinit)
    as (X & Y & xs & ys & _ & _ & _ & _ & HX & HY & Hcube & Hstack & _).
  exists Y, X. eexists. repeat (split; [eassumption|]). exact Hstack.
Qed.

(** C4 fails on the code when the two pixel counts differ: for
    [xPixel = 2] and [yPixel = 1] the arrays exposed have one row of two
    columns.  [np.rot90] swaps the two leading axes of the grid built. *)
Lemma C4_exposed_axes_are_swapped :
  ∃ h,
    Hyper.init Sample.float_of_literal Sample.scan_2x1 = Ok h ∧
    Hyper.parms h !! "xPixel" = Some "2" ∧
    Hyper.parms h !! "yPixel" = Some "1" ∧
    length (Hyper.wavelength_data h) = 2%nat ∧
    Hyper.hyper_image h = [[[1; 2]; [3; 4]]]%float ∧
    Hyper.channel_data h = [[[10]; [-2]]]%float ∧
    ¬ Np.has_shape 2 1 2 (Hyper.hyper_image h) ∧
    ¬ Np.has_shape 2 1 1 (Hyper.channel_data h).
Proof.
  eexists. split; [vm_compute; reflexivity|].
  repeat split; try reflexivity; intros [Hlen _]; discriminate Hlen.
Qed.

(** C4, as the code has it. A construction that returns has read pixel
    counts [xPixel = X] and [yPixel = Y], both at least one, and exposes a
    cube of shape [(Y, X, S)] and a channel stack of shape [(Y, X, C)],
    where [S] is the length of the wavelength axis and [C] the number of
    channel descriptors after the first: rows are counted by [yPixel] and
    columns by [xPixel].  The shape is [(X, Y, .)] when [X = Y]. *)
Theorem C4_exposed_shape (py_float : string → result float)
    (dir : Hyper.directory) (h : Hyper.HyperImage) :
  Hyper.init py_float dir = Ok h →
  ∃ (X Y : nat) (xs ys : string),
    Hyper.parms h !! "xPixel" = Some xs ∧ Num.int_of_str xs = Ok (Z.of_nat X) ∧
    Hyper.parms h !! "yPixel" = Some ys ∧ Num.int_of_str ys = Ok (Z.of_nat Y) ∧
    (0 < X)%nat ∧ (0 < Y)%nat ∧
    Np.has_shape Y X (length (Hyper.wavelength_data h)) (Hyper.hyper_image h) ∧
    Np.has_shape Y X
      (length (snd (fst (Parser.read_anfatec_params (Hyper.param_lines dir)))) - 1)
      (Hyper.channel_data h).
Proof.
  intros Hinit.
  destruct (init_shape py_float dir h Hinit)
    as (X & Y & xs & ys & Hxs & Hx & Hys & Hy & HX & HY & Hcube & Hstack & _).
  exists X, Y, xs, ys. repeat (split; [assumption|]). exact Hstack.
Qed.

Lemma C4_exposed_shape_witness :
  ∃ h,
    Hyper.init Sample.float_of_literal Sample.scan_2x1 = Ok h ∧
    ∃ (X Y : nat) (xs ys : string),
      Hyper.parms h !! "xPixel" = Some xs ∧ Num.int_of_str xs = Ok (Z.of_nat X) ∧
      Hyper.parms h !! "yPixel" = Some ys ∧ Num.int_of_str ys = Ok (Z.of_nat Y) ∧
      (0 < X)%nat ∧ (0 < Y)%nat ∧
      Np.has_shape Y X (length (Hyper.wavelength_data h)) (Hyper.hyper_image h) ∧
      Np.has_shape Y X
        (length (snd (fst (Parser.read_anfatec_params
                             (Hyper.param_lines Sample.scan_2x1)))) - 1)
        (Hyper.channel_data h).
Proof.
  eexists. split; [vm_compute; reflexivity|].
  apply (C4_exposed_shape Sample.float_of_literal Sample.scan_2x1).
  vm_compute. reflexivity.
Defined.

(** The grids the sample scan builds before the orientation is normalised:
    entry [[x, 0]] holds pixel [x] of the one line of each file. *)
Example build_scan_2x1 :
  ∃ h,
    Hyper.build Sample.float_of_literal Sample.scan_2x1 = Ok h ∧
    Hyper.hyper_image h = [[[1; 2]]; [[3; 4]]]%float ∧
    Hyper.channel_data h = [[[10]]; [[-2]]]%float ∧
    Hyper.channel_names h = ["Topography"].
Proof. eexists. split; [vm_compute; reflexivity|]. repeat split; reflexivity. Qed.

(** ** The grids of the builder, end to end *)

Section LoopInvariant.

Import Hyper.

Variable assign : nat → nat → list Z → Np.array3 → result Np.array3.
Variable P : Np.array3 → Prop.
Hypothesis assign_keeps :
  ∀ j i pixel a a', P a → assign j i pixel a = Ok a' → P a'.

Lemma pixel_loop_keeps i :
  ∀ pixels j a a', P a → pixel_loop assign i j pixels a = Ok a' → P a'.
Proof.
  induction pixels as [|pixel pixels IH]; intros j a a' HP Hloop.
  - now injection Hloop as <-.
  - cbn [pixel_loop] in Hloop. next_step Hloop a1 Ha1.
    apply (IH (S j) a1 a'); [|exact Hloop]. exact (assign_keeps _ _ _ _ _ HP Ha1).
Qed.

Lemma line_loop_keeps x_pixel :
  ∀ lines i a a', P a → line_loop assign x_pixel i lines a = Ok a' → P a'.
Proof.
  induction lines as [|line lines IH]; intros i a a' HP Hloop.
  - now injection Hloop as <-.
  - cbn [line_loop] in Hloop. next_step Hloop pixels Hpixels.
    next_step Hloop a1 Ha1.
    apply (IH (S i) a1 a'); [|exact Hloop].
    exact (pixel_loop_keeps i pixels 0 a a1 HP Ha1).
Qed.

Lemma fill_keeps x_pixel y_pixel data a a' :
  P a → fill assign x_pixel y_pixel data a = Ok a' → P a'.
Proof.
  intros HP Hfill. unfold fill in Hfill. next_step Hfill lines Hlines.
  exact (line_loop_keeps x_pixel lines 0 a a' HP Hfill).
Qed.

End LoopInvariant.

Section GridFacts.

Import Hyper.

Variable py_float : string → result float.
Variable dir : directory.

Lemma get3_cell_at (a : Np.array3) x y k :
  Slice.get3 a x y k = Np.cell_at a x y ≫= (λ cell, cell !! k).
Proof.
  unfold Slice.get3, Np.cell_at. now destruct (a !! x) as [row|].
Qed.

(** Storing the sample of channel [ch] leaves the other channels of every
    cell as they were. *)
Lemma assign_sample_frame scale ch x y k j i pixel (a a' : Np.array3) :
  k ≠ ch → assign_sample scale ch j i pixel a = Ok a' →
  Slice.get3 a' x y k = Slice.get3 a x y k.
Proof.
  intros Hk Hassign. unfold assign_sample, assign_cell, nth_item in Hassign.
  destruct (a !! j) as [row|] eqn:Hrow; [|discriminate]. cbn in Hassign.
  destruct (row !! i) as [cell|] eqn:Hcell; [|discriminate]. cbn in Hassign.
  destruct (store_sample scale ch pixel cell) as [new|] eqn:Hstore; [|discriminate].
  assert (Np.cell_at a j i = Some cell) as Hat
    by (unfold Np.cell_at; now rewrite Hrow).
  destruct (assign_cell_spec (store_sample scale ch) j i pixel a cell new Hat Hstore)
    as (a1 & Ha1 & Hcells).
  unfold assign_cell, nth_item in Ha1. rewrite Hrow in Ha1. cbn in Ha1.
  rewrite Hcell in Ha1. cbn in Ha1. rewrite Hstore in Ha1.
  cbn in Hassign, Ha1. rewrite Hassign in Ha1. injection Ha1 as <-.
  rewrite !get3_cell_at, Hcells.
  destruct (decide (x = j ∧ y = i)) as [[-> ->]|_]; [|reflexivity].
  rewrite Hat. cbn. unfold store_sample in Hstore.
  destruct (length cell <=? ch)%nat; [discriminate|].
  destruct (scaled scale pixel) as [|v [|? ?]]; try discriminate.
  injection Hstore as <-. apply list_lookup_insert_ne. congruence.
Qed.

Lemma channel_loop_frame x_pixel y_pixel x y :
  ∀ channels ch0 st st',
    channel_loop py_float dir x_pixel y_pixel ch0 channels st = Ok st' →
    ∀ k, (k < ch0)%nat → Slice.get3 (snd st') x y k = Slice.get3 (snd st) x y k.
Proof.
  induction channels as [|channel channels IH]; intros ch0 st st' Hloop k Hk.
  - now injection Hloop as <-.
  - cbn [channel_loop] in Hloop.
    next_step Hloop caption Hcaption. next_step Hloop name Hname.
    next_step Hloop data Hdata. next_step Hloop scale Hscale.
    next_step Hloop scaling Hscaling. next_step Hloop a1 Ha1.
    rewrite (IH _ _ _ Hloop k) by lia. cbn [snd].
    apply (fill_keeps (assign_sample scaling ch0)
             (λ a0, Slice.get3 a0 x y k = Slice.get3 (snd st) x y k)
             ltac:(intros j i pixel a0 a0' HP Ha0;
                   rewrite <- HP;
                   apply (assign_sample_frame scaling ch0 x y k j i pixel);
                   [lia|exact Ha0])
             x_pixel y_pixel data (snd st) a1 eq_refl Ha1).
Qed.

(** Channel [ch0 + t] of the stack holds the samples of the file of
    descriptor [t], transposed and scaled. *)
Lemma channel_loop_entry X Y Nc x y :
  (x < X)%nat → (y < Y)%nat →
  ∀ channels ch0 names (a : Np.array3) st',
    Np.has_shape X Y Nc a →
    channel_loop py_float dir (Z.of_nat X) (Z.of_nat Y) ch0 channels (names, a) = Ok st' →
    ∀ t channel name bytes scale scaling,
      channels !! t = Some channel →
      channel !! "FileName" = Some name → binary dir name = Some bytes →
      channel !! "Scale" = Some scale → py_float scale = Ok scaling →
      length (Num.fromfile_i4 bytes) = (Y * X)%nat →
      (ch0 + t < Nc)%nat →
      Slice.get3 (snd st') x y (ch0 + t)
      = Some (PrimFloat.mul scaling
                (Num.of_i4 (Num.fromfile_i4 bytes !!! (y * X + x)%nat))).
Proof.
  intros Hx Hy.
  induction channels as [|chan channels IH];
    intros ch0 names a st' Hshape Hloop t channel name bytes scale scaling
           Ht Hname Hbytes Hscale Hscaling Hlen Hch; [discriminate|].
  cbn [channel_loop] in Hloop.
  next_step Hloop caption' Hcaption'. next_step Hloop name' Hname'.
  next_step Hloop data' Hdata'. next_step Hloop scale' Hscale'.
  next_step Hloop scaling' Hscaling'. next_step Hloop a1 Ha1.
  cbn [fst snd] in *.
  pose proof (fill_shape _ (store_sample_length scaling' ch0) X Y Nc _ _ _ _ _
                Hshape Ha1) as Hshape1.
  destruct t as [|t].
  - injection Ht as ->. rewrite Nat.add_0_r.
    unfold getitem in Hname', Hscale'. rewrite Hname in Hname'.
    rewrite Hscale in Hscale'. injection Hname' as <-. injection Hscale' as <-.
    unfold fromfile in Hdata'. rewrite Hbytes in Hdata'. injection Hdata' as <-.
    rewrite Hscaling in Hscaling'. injection Hscaling' as <-.
    rewrite (channel_loop_frame _ _ x y _ _ _ _ Hloop ch0) by lia. cbn [snd].
    rewrite Nat.add_0_r in Hch.
    destruct (fill_channel (Num.fromfile_i4 bytes) scaling ch0 X Y Nc a Hshape Hch)
      as (grid & Hgrid & Hcells); [lia|lia|exact Hlen|].
    rewrite Hgrid in Ha1. injection Ha1 as <-.
    destruct (shape_cell_at a X Y Nc x y Hshape Hx Hy) as (cell & Hcell & Hcl).
    specialize (Hcells x y). rewrite decide_True, Hcell in Hcells by tauto.
    rewrite (get3_cell grid x y ch0 _ Hcells).
    apply list_lookup_insert_eq. lia.
  - replace (ch0 + S t)%nat with (S ch0 + t)%nat by lia.
    apply (IH (S ch0) _ a1 st' Hshape1 Hloop t channel name bytes scale scaling);
      try assumption. lia.
Qed.

End GridFacts.

(** The steps of a construction that returns, one hypothesis for each. *)
Ltac invert_build Hbuild :=
  unfold Hyper.build in Hbuild;
  destruct (Parser.read_anfatec_params (Hyper.param_lines _)) as [[parms0 channels] e];
  cbn [fst snd] in *;
  apply bind_Ok in Hbuild as (xs0 & Hxs & Hbuild);
  apply bind_Ok in Hbuild as (x_pixel & Hx & Hbuild);
  apply bind_Ok in Hbuild as (ys0 & Hys & Hbuild);
  apply bind_Ok in Hbuild as (y_pixel & Hy & Hbuild);
  apply bind_Ok in Hbuild as (chan0 & Hchan0 & Hbuild);
  apply bind_Ok in Hbuild as (wname & Hwname & Hbuild);
  apply bind_Ok in Hbuild as (wname' & Hwname' & Hbuild);
  apply bind_Ok in Hbuild as (wl & Hwl & Hbuild);
  apply bind_Ok in Hbuild as (cube0 & Hcube0 & Hbuild);
  apply bind_Ok in Hbuild as (scale0 & Hscale0 & Hbuild);
  apply bind_Ok in Hbuild as (scaling0 & Hscaling0 & Hbuild);
  apply bind_Ok in Hbuild as (name0 & Hname0 & Hbuild);
  apply bind_Ok in Hbuild as (data0 & Hdata0 & Hbuild);
  apply bind_Ok in Hbuild as (cube & Hcube & Hbuild);
  apply bind_Ok in Hbuild as (stack0 & Hstack0 & Hbuild);
  apply bind_Ok in Hbuild as (st & Hst & Hbuild);
  injection Hbuild as <-;
  cbn [Hyper.parms Hyper.wavelength_data Hyper.hyper_image Hyper.channel_data
       Hyper.channel_names] in *.

(** The channel stack a construction builds, before its orientation is
    normalised: channel [ch] holds at [[x, y]] the sample of row [y] and
    column [x] of the file of descriptor [ch + 1], times its scale. *)
Lemma build_channel_grid (py_float : string → result float) (dir : Hyper.directory)
    (h : Hyper.HyperImage) (X Y : nat) (xs ys : string) :
  Hyper.build py_float dir = Ok h →
  Hyper.parms h !! "xPixel" = Some xs → Num.int_of_str xs = Ok (Z.of_nat X) →
  Hyper.parms h !! "yPixel" = Some ys → Num.int_of_str ys = Ok (Z.of_nat Y) →
  ∀ ch channel name bytes scale scaling,
    snd (fst (Parser.read_anfatec_params (Hyper.param_lines dir))) !! S ch = Some channel →
    channel !! "FileName" = Some name → Hyper.binary dir name = Some bytes →
    channel !! "Scale" = Some scale → py_float scale = Ok scaling →
    length (Num.fromfile_i4 bytes) = (Y * X)%nat →
    ∀ x y, (x < X)%nat → (y < Y)%nat →
      Slice.get3 (Hyper.channel_data h) x y ch
      = Some (PrimFloat.mul scaling
                (Num.of_i4 (Num.fromfile_i4 bytes !!! (y * X + x)%nat))).
Proof.
  intros Hbuild Hxs' Hx' Hys' Hy' ch channel name bytes scale scaling
         Hchannel Hname Hbytes Hscale Hscaling Hlen x y Hxlt Hylt.
  invert_build Hbuild.
  unfold Hyper.getitem in Hxs, Hys. rewrite Hxs' in Hxs. rewrite Hys' in Hys.
  injection Hxs as <-. injection Hys as <-.
  rewrite Hx' in Hx. rewrite Hy' in Hy. injection Hx as <-. injection Hy as <-.
  apply zeros3_Ok in Hstack0 as (_ & _ & _ & Hstack0).
  rewrite !Nat2Z.id in Hstack0. destruct st as [names stack].
  assert (drop 1 channels !! ch = Some channel) as Hch
    by (rewrite lookup_drop; exact Hchannel).
  apply (channel_loop_entry py_float dir X Y (length (drop 1 channels)) x y Hxlt Hylt
           (drop 1 channels) 0 [] stack0 (names, stack) Hstack0 Hst
           ch channel name bytes scale scaling); try assumption.
  now apply lookup_lt_Some in Hch.
Qed.

(** The cube a construction builds, before its orientation is normalised:
    it holds at [[x, y, k]] sample [k] of the spectrum of row [y] and column
    [x] of the file of the first descriptor, times its scale. *)
Lemma build_cube_grid (py_float : string → result float) (dir : Hyper.directory)
    (h : Hyper.HyperImage) (X Y : nat) (xs ys : string) :
  Hyper.build py_float dir = Ok h →
  Hyper.parms h !! "xPixel" = Some xs → Num.int_of_str xs = Ok (Z.of_nat X) →
  Hyper.parms h !! "yPixel" = Some ys → Num.int_of_str ys = Ok (Z.of_nat Y) →
  ∀ channel name bytes scale scaling,
    snd (fst (Parser.read_anfatec_params (Hyper.param_lines dir))) !! 0%nat = Some channel →
    channel !! "FileName" = Some name → Hyper.binary dir name = Some bytes →
    channel !! "Scale" = Some scale → py_float scale = Ok scaling →
    let Ns := length (Hyper.wavelength_data h) in
    length (Num.fromfile_i4 bytes) = (Y * (X * Ns))%nat →
    ∀ x y k, (x < X)%nat → (y < Y)%nat → (k < Ns)%nat →
      Slice.get3 (Hyper.hyper_image h) x y k
      = Some (PrimFloat.mul scaling
                (Num.of_i4 (Num.fromfile_i4 bytes !!! ((y * X + x) * Ns + k)%nat))).
Proof.
  intros Hbuild Hxs' Hx' Hys' Hy' channel name bytes scale scaling
         Hchannel Hname Hbytes Hscale Hscaling Ns Hlen x y k Hxlt Hylt Hk.
  invert_build Hbuild. subst Ns.
  unfold Hyper.getitem in Hxs, Hys. rewrite Hxs' in Hxs. rewrite Hys' in Hys.
  injection Hxs as <-. injection Hys as <-.
  rewrite Hx' in Hx. rewrite Hy' in Hy. injection Hx as <-. injection Hy as <-.
  unfold Hyper.nth_item in Hchan0. rewrite Hchannel in Hchan0. injection Hchan0 as <-.
  unfold Hyper.getitem in Hscale0, Hname0. rewrite Hscale in Hscale0.
  rewrite Hname in Hname0. injection Hscale0 as <-. injection Hname0 as <-.
  rewrite Hscaling in Hscaling0. injection Hscaling0 as <-.
  unfold Hyper.fromfile in Hdata0. rewrite Hbytes in Hdata0. injection Hdata0 as <-.
  apply zeros3_Ok in Hcube0 as (_ & _ & _ & Hcube0).
  rewrite !Nat2Z.id in Hcube0.
  destruct (fill_cube (Num.fromfile_i4 bytes) scaling X Y (length wl) cube0 Hcube0)
    as (cube' & Hcube' & Hcells); [lia|lia|exact Hlen|].
  rewrite Hcube' in Hcube. injection Hcube as <-.
  destruct (shape_cell_at cube0 X Y (length wl) x y Hcube0 Hxlt Hylt) as (cell & Hcell & _).
  specialize (Hcells x y). rewrite decide_True, Hcell in Hcells by tauto.
  rewrite (get3_cell cube' x y k _ Hcells).
  unfold Hyper.scaled. rewrite lookup_map, chunk_lookup, decide_True by exact Hk.
  rewrite (list_lookup_lookup_total_lt (Num.fromfile_i4 bytes))
    by (rewrite Hlen; now apply spectrum_index_lt).
  reflexivity.
Qed.

(** The call of the specification on an axis that truncates to
    [300, 305, 310], for every built container and every window: the index
    of 300 is 0 and the index of 310 is 2, the span is negative, and the
    plane at index 2 comes back alone. *)
Lemma hyperslice_300_310 (h : Hyper.HyperImage) (rows cols : option (Z * Z)) :
  Slice.built h →
  Slice.ints (Hyper.wavelength_data h) = Ok [300; 305; 310] →
  Slice.hyperslice h 300 310 rows cols = Ok (Slice.window_view h rows cols 2, h).
Proof.
  intros Hbuilt Hints.
  apply (hyperslice_single_plane h 300 310 rows cols [300; 305; 310] 0 2);
    [assumption|assumption|reflexivity|reflexivity|lia].
Qed.

(** * Further properties of the code *)

(** ** The parser, line by line *)

Section ParserMore.

Import PyStr Parser.

Lemma of_str_to_str (s : chars) : of_str (to_str s) = s.
Proof. apply list_ascii_of_string_of_list_ascii. Qed.

Lemma opens_file_not_skipped row : opens_file row = true → skipped row = false.
Proof.
  unfold opens_file, skipped, startswith.
  intros [_ Hstart]%andb_true_iff.
  change (list_ascii_of_string "File") with ["F"; "i"; "l"; "e"]%char in Hstart.
  destruct row as [|c row']; [discriminate|].
  cbn [startswith_chars] in Hstart. apply andb_true_iff in Hstart as [Hc _].
  apply Ascii.eqb_eq in Hc as <-. reflexivity.
Qed.

Lemma step_skipped st line :
  skipped (strip (of_str line)) = true → step st line = st.
Proof.
  unfold step, skipped. destruct (strip (of_str line)) as [|c row]; [reflexivity|].
  now intros ->.
Qed.

Lemma step_opening st line :
  let row := strip (of_str line) in
  skipped row = false → opens_file row || opens_spectrum row = true →
  step st line
  = mkState (scan_params st) (file_descriptions st) (spectra_descriptions st)
            (parameters st) true.
Proof.
  intros row Hskip Hopen. unfold step. fold row.
  destruct row as [|c row'] eqn:Hrow; [discriminate|].
  cbn [skipped] in Hskip. rewrite Hskip.
  destruct (opens_file (c :: row')); [reflexivity|].
  rewrite orb_false_l in Hopen. now rewrite Hopen.
Qed.

(** What one line adds to the channel descriptors: the accumulator when
    the line closes a channel block, and nothing otherwise. *)
Lemma step_file_descriptions st line :
  file_descriptions (step st line)
  = file_descriptions st
    ++ (if closes_file (strip (of_str line)) then [parameters st] else []).
Proof.
  destruct (closes_file (strip (of_str line))) eqn:Hclose.
  - now rewrite (step_closing st line Hclose).
  - rewrite app_nil_r. unfold step.
    destruct (strip (of_str line)) as [|c row] eqn:Hrow; [reflexivity|].
    destruct (Ascii.eqb c ";"); [reflexivity|].
    destruct (opens_file (c :: row)); [reflexivity|].
    destruct (opens_spectrum (c :: row)); [reflexivity|].
    unfold on_file_end. rewrite Hclose. unfold on_spectrum_end, store, put.
    destruct (closes_spectrum (c :: row)); cbn;
      now destruct (inside_description st).
Qed.

Lemma run_file_descriptions lines :
  ∀ st, ∃ added,
    file_descriptions (fold_left step lines st) = file_descriptions st ++ added ∧
    length added
    = length (List.filter (λ line, closes_file (strip (of_str line))) lines).
Proof.
  induction lines as [|line lines IH]; intros st.
  - exists []. split; [now rewrite app_nil_r|reflexivity].
  - cbn [fold_left List.filter]. destruct (IH (step st line)) as (added & Hadded & Hlen).
    rewrite step_file_descriptions in Hadded.
    destruct (closes_file (strip (of_str line))).
    + exists (parameters st :: added). split.
      * now rewrite Hadded, <- app_assoc.
      * cbn. now rewrite Hlen.
    + exists added. split; [|exact Hlen]. now rewrite Hadded, app_nil_r.
Qed.

End ParserMore.

(** X1. Blank lines and comment lines can be removed from a parameter file
    without changing what the parser returns. *)
Theorem comments_do_not_matter (lines : list string) :
  Parser.read_anfatec_params lines
  = Parser.read_anfatec_params
      (List.filter (λ line, negb (Parser.skipped (PyStr.strip (PyStr.of_str line)))) lines).
Proof.
  unfold Parser.read_anfatec_params, Parser.run.
  assert (∀ st,
            fold_left Parser.step lines st
            = fold_left Parser.step
                (List.filter (λ line, negb (Parser.skipped (PyStr.strip (PyStr.of_str line))))
                   lines) st) as Hrun; [|now rewrite Hrun].
  induction lines as [|line lines IH]; intros st; [reflexivity|].
  cbn [fold_left List.filter].
  destruct (Parser.skipped (PyStr.strip (PyStr.of_str line))) eqn:Hskip; cbn [negb].
  - rewrite (step_skipped st line Hskip). apply IH.
  - cbn [fold_left]. apply IH.
Qed.

(** X2. The parser returns one channel descriptor per line that starts with
    [File] and ends with [End], whatever the opening lines are. *)
Theorem one_descriptor_per_closing_line (lines : list string) :
  length (snd (fst (Parser.read_anfatec_params lines)))
  = length (List.filter
              (λ line, Parser.closes_file (PyStr.strip (PyStr.of_str line))) lines).
Proof.
  unfold Parser.read_anfatec_params, Parser.run. cbn [fst snd].
  destruct (run_file_descriptions lines Parser.init) as (added & Hadded & Hlen).
  rewrite Hadded. cbn. exact Hlen.
Qed.

(** X3. A channel descriptor, once appended, is never changed or removed by
    the lines that follow. *)
Theorem descriptors_are_final (lines : list string) (st : Parser.state)
    (k : nat) (d : gmap string string) :
  Parser.file_descriptions st !! k = Some d →
  Parser.file_descriptions (fold_left Parser.step lines st) !! k = Some d.
Proof.
  intros Hd. destruct (run_file_descriptions lines st) as (added & -> & _).
  now apply lookup_app_l_Some.
Qed.

Lemma descriptors_are_final_witness :
  Parser.file_descriptions
    (fold_left Parser.step ["Scale : 2"; "FileDescEnd"]
       (Parser.run ["FileDescBegin"; "Caption : a"; "FileDescEnd"])) !! 0%nat
  = Some {["Caption" := "a"]}.
Proof.
  exact (descriptors_are_final ["Scale : 2"; "FileDescEnd"]
           (Parser.run ["FileDescBegin"; "Caption : a"; "FileDescEnd"])
           0 {["Caption" := "a"]} eq_refl).
Defined.

Section ParserBlocks.

Import PyStr Parser.

Lemma closes_spectrum_not_opening row :
  closes_spectrum row = true → opens_file row = false ∧ opens_spectrum row = false.
Proof.
  unfold closes_spectrum, opens_file, opens_spectrum, endswith.
  change (reverse (list_ascii_of_string "SpectrumDescEnd"))
    with ("d" :: reverse (list_ascii_of_string "SpectrumDescEn"))%char.
  change (reverse (list_ascii_of_string "Begin"))
    with ["n"; "i"; "g"; "e"; "B"]%char.
  change (reverse (list_ascii_of_string "SpectrumDescBegin"))
    with ("n" :: reverse (list_ascii_of_string "SpectrumDescBegi"))%char.
  destruct (reverse row) as [|d w]; [discriminate|].
  cbn [startswith_chars]. intros [Hd _]%andb_true_iff.
  apply Ascii.eqb_eq in Hd as <-. now cbn.
Qed.

Lemma step_spectrum_end st line :
  let row := row_of line in
  skipped row = false → closes_spectrum row = true → closes_file row = false →
  step st line
  = put (key_of row) (value_of row)
      (mkState (scan_params st) (file_descriptions st)
         (spectra_descriptions st ++ [parameters st]) ∅ (inside_description st)).
Proof.
  intros row Hskip Hclose Hfile.
  destruct (closes_spectrum_not_opening row Hclose) as [Hof Hos].
  unfold step. fold (row_of line). fold row.
  destruct row as [|c row'] eqn:Hrow; [discriminate|].
  cbn [skipped] in Hskip. rewrite Hskip, Hof, Hos.
  unfold on_file_end, on_spectrum_end, store. now rewrite Hfile, Hclose.
Qed.

(** The lines of the body of a block, all of them ordinary, go into the
    accumulator. *)
Lemma run_body body :
  Forall (λ line, skipped (row_of line) = false ∧ structural (row_of line) = false) body →
  ∀ st, inside_description st = true →
    fold_left step body st
    = mkState (scan_params st) (file_descriptions st) (spectra_descriptions st)
              (add_pairs body (parameters st)) true.
Proof.
  induction 1 as [|line body [Hskip Hstruct] _ IH]; intros st Hin.
  - destruct st. cbn in *. now subst.
  - cbn [fold_left]. rewrite (step_ordinary st line Hskip Hstruct).
    unfold store, put. rewrite Hin. rewrite IH by reflexivity. reflexivity.
Qed.

End ParserBlocks.

(** X4. A line that ends with [SpectrumDescEnd] appends the accumulator to
    the spectrum descriptors and empties it, but leaves the inside-a-block
    flag as it was: inside a block, the pair parsed from this very line
    starts the next accumulator, and the lines that follow keep going into
    it rather than into the scan parameters. *)
Theorem spectrum_end_keeps_the_flag (st : Parser.state) (line : string) :
  let row := Parser.row_of line in
  Parser.skipped row = false →
  Parser.closes_spectrum row = true →
  Parser.closes_file row = false →
  let st' := Parser.step st line in
  Parser.spectra_descriptions st'
  = Parser.spectra_descriptions st ++ [Parser.parameters st] ∧
  Parser.file_descriptions st' = Parser.file_descriptions st ∧
  Parser.inside_description st' = Parser.inside_description st ∧
  (Parser.inside_description st = true →
   Parser.parameters st' = {[Parser.key_of row := Parser.value_of row]} ∧
   Parser.scan_params st' = Parser.scan_params st) ∧
  (Parser.inside_description st = false →
   Parser.parameters st' = ∅ ∧
   Parser.scan_params st'
   = <[Parser.key_of row := Parser.value_of row]> (Parser.scan_params st)).
Proof.
  intros row Hskip Hclose Hfile st'. unfold st'.
  rewrite (step_spectrum_end st line Hskip Hclose Hfile). fold row.
  unfold Parser.put. cbn [Parser.inside_description].
  destruct (Parser.inside_description st); cbn; repeat split; try discriminate;
    intros _; split; reflexivity.
Qed.

Lemma spectrum_end_keeps_the_flag_witness :
  let st := Parser.run ["SpectrumDescBegin"; "a : 1"] in
  let st' := Parser.step st "SpectrumDescEnd" in
  Parser.spectra_descriptions st' = [] ++ [ {["a" := "1"]} ] ∧
  Parser.file_descriptions st' = [] ∧
  Parser.inside_description st' = true ∧
  (true = true →
   Parser.parameters st' = {["SpectrumDescEnd" := "SpectrumDescEnd"]} ∧
   Parser.scan_params st' = ∅) ∧
  (true = false →
   Parser.parameters st' = ∅ ∧
   Parser.scan_params st' = <["SpectrumDescEnd" := "SpectrumDescEnd"]> ∅).
Proof.
  exact (spectrum_end_keeps_the_flag (Parser.run ["SpectrumDescBegin"; "a : 1"])
           "SpectrumDescEnd" eq_refl eq_refl eq_refl).
Defined.

(** X5. Leading and trailing whitespace of the lines of a parameter file,
    line terminators included, does not change what the parser returns. *)
Theorem surrounding_whitespace_does_not_matter (lines : list string) :
  Parser.read_anfatec_params lines
  = Parser.read_anfatec_params (map (λ line, PyStr.to_str (Parser.row_of line)) lines).
Proof.
  unfold Parser.read_anfatec_params, Parser.run.
  assert (∀ st,
            fold_left Parser.step lines st
            = fold_left Parser.step
                (map (λ line, PyStr.to_str (Parser.row_of line)) lines) st) as Hrun;
    [|now rewrite Hrun].
  induction lines as [|line lines IH]; intros st; [reflexivity|].
  cbn [fold_left map]. rewrite <- IH. f_equal.
  unfold Parser.step, Parser.row_of. now rewrite of_str_to_str, strip_strip.
Qed.

(** X6. A channel block is an opening line, ordinary lines and a closing
    line.  Parsing it appends one descriptor: the pairs of the ordinary
    lines, stored in order on top of what the accumulator held when the
    block opened (the opening line does not empty it).  The accumulator is
    then empty, the flag cleared, and the closing line has left its own pair
    in the scan parameters. *)
Theorem channel_block_parsed (st : Parser.state) (opening closing : string)
    (body : list string) :
  Parser.opens_file (Parser.row_of opening) = true →
  Forall (λ line, Parser.skipped (Parser.row_of line) = false
                  ∧ Parser.structural (Parser.row_of line) = false) body →
  Parser.closes_file (Parser.row_of closing) = true →
  let st' := fold_left Parser.step (opening :: body ++ [closing]) st in
  Parser.file_descriptions st'
  = Parser.file_descriptions st ++ [Parser.add_pairs body (Parser.parameters st)] ∧
  Parser.parameters st' = ∅ ∧
  Parser.inside_description st' = false ∧
  Parser.scan_params st'
  = <[Parser.key_of (Parser.row_of closing) := Parser.value_of (Parser.row_of closing)]>
      (Parser.scan_params st).
Proof.
  intros Hopen Hbody Hclose st'. unfold st'.
  cbn [fold_left]. rewrite fold_left_app. cbn [fold_left].
  rewrite (step_opening st opening (opens_file_not_skipped _ Hopen))
    by (unfold Parser.row_of in Hopen; now rewrite Hopen).
  rewrite (run_body body Hbody) by reflexivity.
  rewrite (step_closing _ closing Hclose). cbn. repeat split; reflexivity.
Qed.

Lemma channel_block_parsed_witness :
  let st' :=
    fold_left Parser.step
      ("FileDescBegin" :: ["FileName : topo.int"; "Scale : 2"] ++ ["FileDescEnd"])
      Parser.init in
  Parser.file_descriptions st'
  = [] ++ [Parser.add_pairs ["FileName : topo.int"; "Scale : 2"] ∅] ∧
  Parser.parameters st' = ∅ ∧
  Parser.inside_description st' = false ∧
  Parser.scan_params st'
  = <[Parser.key_of (Parser.row_of "FileDescEnd")
      := Parser.value_of (Parser.row_of "FileDescEnd")]> ∅.
Proof.
  apply (channel_block_parsed Parser.init "FileDescBegin" "FileDescEnd"
           ["FileName : topo.int"; "Scale : 2"]); [reflexivity| |reflexivity].
  repeat constructor.
Defined.

(** ** The builder: what makes a construction fail *)

(** X7. A parameter file without an [xPixel] entry, or with one that reads
    as an integer but without a [yPixel] entry, makes the construction raise
    [KeyError]. *)
Theorem missing_pixel_count_raises (py_float : string → result float)
    (dir : Hyper.directory) :
  let parms := fst (fst (Parser.read_anfatec_params (Hyper.param_lines dir))) in
  (parms !! "xPixel" = None ∨
   ∃ xs x_pixel, parms !! "xPixel" = Some xs ∧ Num.int_of_str xs = Ok x_pixel ∧
                 parms !! "yPixel" = None) →
  Hyper.init py_float dir = Raise KeyError.
Proof.
  intros parms Hmissing. unfold Hyper.init, Hyper.build. subst parms.
  destruct (Parser.read_anfatec_params (Hyper.param_lines dir)) as [[parms channels] e].
  cbn [fst snd] in Hmissing. unfold Hyper.getitem.
  destruct Hmissing as [Hx|(xs & x_pixel & Hxs & Hx & Hy)].
  - now rewrite Hx.
  - rewrite Hxs. run_bind. rewrite Hx. run_bind. now rewrite Hy.
Qed.

Lemma missing_pixel_count_raises_witness :
  Hyper.init Sample.float_of_literal
    (Hyper.mkDir ["xPixel : 2"; "FileDescBegin"; "FileDescEnd"] (λ _, None) (λ _, None))
  = Raise KeyError.
Proof.
  apply (missing_pixel_count_raises Sample.float_of_literal
           (Hyper.mkDir ["xPixel : 2"; "FileDescBegin"; "FileDescEnd"]
              (λ _, None) (λ _, None))).
  right. exists "2", 2. repeat split; reflexivity.
Defined.

(** X8. With both pixel counts readable and no channel block closed in the
    parameter file, the construction raises [IndexError]: there is no first
    descriptor to take the wavelength file from. *)
Theorem no_descriptor_raises (py_float : string → result float)
    (dir : Hyper.directory) (xs ys : string) (x_pixel y_pixel : Z) :
  let parsed := Parser.read_anfatec_params (Hyper.param_lines dir) in
  fst (fst parsed) !! "xPixel" = Some xs → Num.int_of_str xs = Ok x_pixel →
  fst (fst parsed) !! "yPixel" = Some ys → Num.int_of_str ys = Ok y_pixel →
  snd (fst parsed) = [] →
  Hyper.init py_float dir = Raise IndexError.
Proof.
  intros parsed. unfold Hyper.init, Hyper.build. subst parsed.
  destruct (Parser.read_anfatec_params (Hyper.param_lines dir)) as [[parms channels] e].
  cbn [fst snd]. intros Hxs Hx Hys Hy ->. unfold Hyper.getitem.
  rewrite Hxs. run_bind. rewrite Hx. run_bind.
  rewrite Hys. run_bind. rewrite Hy. reflexivity.
Qed.

Lemma no_descriptor_raises_witness :
  Hyper.init Sample.float_of_literal
    (Hyper.mkDir ["xPixel : 2"; "yPixel : 1"; "FileDescBegin"; "Scale : 1"]
       (λ _, None) (λ _, None))
  = Raise IndexError.
Proof.
  exact (no_descriptor_raises Sample.float_of_literal
           (Hyper.mkDir ["xPixel : 2"; "yPixel : 1"; "FileDescBegin"; "Scale : 1"]
              (λ _, None) (λ _, None))
           "2" "1" 2 1 eq_refl eq_refl eq_refl eq_refl eq_refl).
Defined.

Section FileSize.

Import Hyper.

Lemma split_uneven {A : Type} (l : list A) (Y : nat) :
  (0 < Y)%nat → (length l `mod` Y ≠ 0)%nat →
  Np.split l (Z.of_nat Y) = Raise ValueError.
Proof.
  intros HY Hmod. unfold Np.split.
  destruct (Z.eqb_spec (Z.of_nat Y) 0) as [?|_]; [lia|].
  destruct (Z.ltb_spec (Z.of_nat Y) 0) as [?|_]; [lia|].
  rewrite <- Nat2Z.inj_mod.
  destruct (Z.eqb_spec (Z.of_nat (length l `mod` Y)) 0) as [?|_]; [lia|].
  reflexivity.
Qed.

Lemma split_first_piece {A : Type} (l : list A) (X n : nat) :
  (0 < X)%nat → length l = (X * n)%nat →
  ∃ rest, Np.split l (Z.of_nat X) = Ok (Np.chunk n l 0 :: rest) ∧
          length (Np.chunk n l 0) = n.
Proof.
  intros HX Hlen. rewrite (split_exact l X n HX Hlen).
  destruct X as [|X']; [lia|]. cbn [seq map]. eexists. split; [reflexivity|].
  apply chunk_length. lia.
Qed.

Lemma divides_or_not (a b : nat) :
  (0 < b)%nat → (a `mod` b ≠ 0)%nat ∨ ∃ m, a = (b * m)%nat.
Proof.
  intros Hb. destruct (decide (a `mod` b = 0)%nat) as [Hmod|Hmod]; [right|now left].
  exists (a / b)%nat. now apply Nat.Div0.div_exact.
Qed.

(** A channel file that does not hold exactly one sample per pixel is
    rejected, at the latest when its first pixel is stored. *)
Lemma fill_channel_wrong_size (raw : list Z) (scale : float) (ch X Y Nc : nat)
    (a : Np.array3) :
  Np.has_shape X Y Nc a → (ch < Nc)%nat → (0 < X)%nat → (0 < Y)%nat →
  length raw ≠ (Y * X)%nat →
  fill (assign_sample scale ch) (Z.of_nat X) (Z.of_nat Y) raw a = Raise ValueError.
Proof.
  intros Hshape Hch HX HY Hlen. unfold fill.
  destruct (divides_or_not (length raw) Y HY) as [Hmod|[m Hm]].
  { now rewrite (split_uneven raw Y HY Hmod). }
  destruct (split_first_piece raw Y m HY Hm) as (lines & -> & Hline).
  run_bind. cbn [line_loop].
  destruct (divides_or_not m X HX) as [Hmod|[n Hn]].
  { rewrite (split_uneven _ X HX) by now rewrite Hline. reflexivity. }
  destruct (split_first_piece (Np.chunk m raw 0) X n HX) as (pixels & -> & Hpixel);
    [now rewrite Hline|].
  run_bind. cbn [pixel_loop].
  destruct (shape_cell a X Y Nc Hshape 0 0 HX HY) as (row & cell & Hrow & Hcell & Hcl).
  unfold assign_sample, assign_cell, nth_item. rewrite Hrow. run_bind.
  rewrite Hcell. run_bind. unfold store_sample. rewrite Hcl.
  destruct (Nat.leb_spec Nc ch) as [?|_]; [lia|].
  assert (n ≠ 1%nat) as Hn1 by (intros ->; apply Hlen; subst m; lia).
  assert (length (scaled scale (Np.chunk n (Np.chunk m raw 0) 0)) = n) as Hscaled
    by (unfold scaled; now rewrite length_map).
  destruct (scaled scale (Np.chunk n (Np.chunk m raw 0) 0)) as [|v [|? ?]];
    cbn in Hscaled; try reflexivity. congruence.
Qed.

End FileSize.

(** X9. A channel file whose number of samples is not the number of pixels
    is never read in part or padded: filling the channel raises
    [ValueError]. *)
Theorem channel_file_of_wrong_size_raises (bytes : list Byte.byte) (scale : float)
    (ch X Y Nc : nat) (a : Np.array3) :
  Np.has_shape X Y Nc a → (ch < Nc)%nat → (0 < X)%nat → (0 < Y)%nat →
  length (Num.fromfile_i4 bytes) ≠ (Y * X)%nat →
  Hyper.fill (Hyper.assign_sample scale ch) (Z.of_nat X) (Z.of_nat Y)
    (Num.fromfile_i4 bytes) a
  = Raise ValueError.
Proof. intros. now apply (fill_channel_wrong_size _ scale ch X Y Nc). Qed.

Lemma channel_file_of_wrong_size_raises_witness :
  Hyper.fill (Hyper.assign_sample 2%float 0) (Z.of_nat 2) (Z.of_nat 1)
    (Num.fromfile_i4
       [Byte.x05; Byte.x00; Byte.x00; Byte.x00; Byte.x06; Byte.x00; Byte.x00; Byte.x00;
        Byte.x07; Byte.x00; Byte.x00; Byte.x00; Byte.x08; Byte.x00; Byte.x00; Byte.x00])
    [[[0%float]]; [[0%float]]]
  = Raise ValueError.
Proof.
  apply (channel_file_of_wrong_size_raises _ 2%float 0 2 1 1); try lia.
  - split; [reflexivity|]. repeat constructor.
  - cbn. lia.
Defined.

(** ** The builder: what a construction exposes *)

(** X10. A cube file with one sample per pixel instead of one spectrum per
    pixel is not rejected: each sample, scaled, is written to every plane of
    its pixel. *)
Theorem cube_file_of_one_sample_per_pixel (bytes : list Byte.byte) (scale : float)
    (X Y Ns : nat) (a : Np.array3) (x y : nat) :
  let raw := Num.fromfile_i4 bytes in
  Np.has_shape X Y Ns a → length raw = (Y * X)%nat →
  (x < X)%nat → (y < Y)%nat →
  ∃ cube,
    Hyper.fill (Hyper.assign_spectrum scale) (Z.of_nat X) (Z.of_nat Y) raw a = Ok cube ∧
    Np.cell_at cube x y
    = Some (replicate Ns (PrimFloat.mul scale (Num.of_i4 (raw !!! (y * X + x)%nat)))).
Proof.
  intros raw Hshape Hlen Hx Hy.
  destruct (fill_cells (Hyper.store_spectrum scale) X Y 1 raw a
              (λ y x _, replicate Ns
                          (PrimFloat.mul scale (Num.of_i4 (raw !!! (y * X + x)%nat)))))
    as (cube & Hcube & Hcells); [lia|lia|now rewrite Nat.mul_1_r| |].
  - intros x' y' Hx' Hy'.
    destruct (shape_cell_at a X Y Ns x' y' Hshape Hx' Hy') as (cell & Hcell & Hcl).
    exists cell. split; [exact Hcell|].
    rewrite chunk_one by (rewrite Hlen; now apply pixel_index_lt).
    unfold Hyper.store_spectrum, Hyper.broadcast, Hyper.scaled. rewrite Hcl. cbn [map length].
    destruct (Nat.eqb_spec 1 Ns) as [<-|_]; reflexivity.
  - exists cube. split; [exact Hcube|].
    destruct (shape_cell_at a X Y Ns x y Hshape Hx Hy) as (cell & Hcell & _).
    rewrite Hcells, decide_True, Hcell by tauto. reflexivity.
Qed.

Lemma cube_file_of_one_sample_per_pixel_witness :
  let raw :=
    Num.fromfile_i4
      [Byte.x05; Byte.x00; Byte.x00; Byte.x00; Byte.xff; Byte.xff; Byte.xff; Byte.xff] in
  ∃ cube,
    Hyper.fill (Hyper.assign_spectrum 2%float) (Z.of_nat 2) (Z.of_nat 1) raw
      [[[0; 0; 0]]; [[0; 0; 0]]]%float
    = Ok cube ∧
    Np.cell_at cube 1 0
    = Some (replicate 3 (PrimFloat.mul 2%float (Num.of_i4 (raw !!! (0 * 2 + 1)%nat)))).
Proof.
  apply (cube_file_of_one_sample_per_pixel
           [Byte.x05; Byte.x00; Byte.x00; Byte.x00; Byte.xff; Byte.xff; Byte.xff; Byte.xff]
           2%float 2 1 3 [[[0; 0; 0]]; [[0; 0; 0]]]%float 1 0); try lia.
  - split; [reflexivity|]. repeat constructor.
  - reflexivity.
Defined.

Section Orientation.

Import Hyper.

Lemma transpose_lookup (a : Np.array3) X Y Ns j :
  Np.has_shape X Y Ns a → (0 < X)%nat → (j < Y)%nat →
  Np.transpose a !! j = Some (map (λ row : list (list float), row !!! j) a).
Proof.
  intros [Hlen Hall] HX Hj. unfold Np.transpose.
  assert (Np.shape1 a = Y) as ->.
  { destruct a as [|row a']; [cbn in Hlen; lia|].
    now apply Forall_cons in Hall as [[HrowY _] _]. }
  rewrite lookup_map, lookup_seq_lt by exact Hj. reflexivity.
Qed.

(** The cell [[y, x]] of the transpose is the cell [[x, y]] of the array. *)
Lemma transpose_cell (a : Np.array3) X Y Ns x y :
  Np.has_shape X Y Ns a → (x < X)%nat → (y < Y)%nat →
  Np.cell_at (Np.transpose a) y x = Np.cell_at a x y.
Proof.
  intros Hshape Hx Hy. unfold Np.cell_at.
  rewrite (transpose_lookup a X Y Ns y Hshape) by lia. run_bind. cbn.
  rewrite lookup_map.
  destruct (shape_cell a X Y Ns Hshape x y Hx Hy) as (row & cell & Hrow & Hcell & _).
  rewrite Hrow. cbn. rewrite Hcell.
  now rewrite (list_lookup_total_correct _ _ _ Hcell).
Qed.

Lemma normalise_entry (a : Np.array3) X Y Ns x y k :
  Np.has_shape X Y Ns a → (x < X)%nat → (y < Y)%nat →
  Slice.get3 (normalise a) y x k = Slice.get3 a x y k.
Proof.
  intros Hshape Hx Hy.
  rewrite !get3_cell_at, normalise_transpose.
  now rewrite (transpose_cell a X Y Ns x y).
Qed.

Lemma transpose_involutive (a : Np.array3) X Y Ns :
  Np.has_shape X Y Ns a → (0 < X)%nat → (0 < Y)%nat →
  Np.transpose (Np.transpose a) = a.
Proof.
  intros Hshape HX HY.
  pose proof (transpose_shape a X Y Ns Hshape HX) as Hshape'.
  apply list_eq. intros x.
  destruct (Nat.lt_ge_cases x X) as [Hx|Hx].
  - rewrite (transpose_lookup _ Y X Ns x Hshape') by lia.
    destruct Hshape as [Hlen Hall].
    destruct (lookup_lt_is_Some_2 a x) as [row Hrow]; [lia|].
    rewrite Hrow. f_equal.
    destruct (Forall_lookup_1 _ _ _ _ Hall Hrow) as [HrowY _].
    apply list_eq. intros y. rewrite lookup_map.
    destruct (Nat.lt_ge_cases y Y) as [Hy|Hy].
    + rewrite (transpose_lookup a X Y Ns y (conj Hlen Hall)) by lia. cbn.
      destruct (lookup_lt_is_Some_2 row y) as [cell Hcell]; [lia|].
      rewrite Hcell. f_equal.
      erewrite list_lookup_total_correct; [|rewrite lookup_map, Hrow; reflexivity].
      now apply list_lookup_total_correct.
    + rewrite (lookup_ge_None_2 row) by lia.
      destruct Hshape' as [Hlen' _]. rewrite lookup_ge_None_2 by lia. reflexivity.
  - destruct Hshape as [Hlen _]. rewrite (lookup_ge_None_2 a) by lia.
    apply lookup_ge_None_2. destruct (transpose_shape _ Y X Ns Hshape' HY) as [-> _].
    exact Hx.
Qed.

End Orientation.

(** X11. The orientation of lines 120-124, a quarter turn followed by a
    mirror of the columns, is the transposition of the two spatial axes:
    the exposed entry [[y, x, k]] is the entry [[x, y, k]] of the grid
    built. *)
Theorem normalisation_transposes (a : Np.array3) (X Y Ns x y k : nat) :
  Np.has_shape X Y Ns a → (x < X)%nat → (y < Y)%nat →
  Slice.get3 (Hyper.normalise a) y x k = Slice.get3 a x y k.
Proof. apply normalise_entry. Qed.

Lemma normalisation_transposes_witness :
  Slice.get3 (Hyper.normalise [[[1; 2]]; [[3; 4]]]%float) 0 1 1
  = Slice.get3 [[[1; 2]]; [[3; 4]]]%float 1 0 1.
Proof.
  apply (normalisation_transposes _ 2 1 2 1 0 1); try lia.
  split; [reflexivity|]. repeat constructor.
Defined.

(** X12. The orientation is not idempotent: applied a second time it gives
    back the grid as it was built, so it has to be applied exactly once. *)
Theorem normalisation_twice_is_identity (a : Np.array3) (X Y Ns : nat) :
  Np.has_shape X Y Ns a → (0 < X)%nat → (0 < Y)%nat →
  Hyper.normalise (Hyper.normalise a) = a.
Proof.
  intros Hshape HX HY. rewrite !normalise_transpose.
  now apply (transpose_involutive a X Y Ns).
Qed.

Lemma normalisation_twice_is_identity_witness :
  Hyper.normalise (Hyper.normalise [[[1; 2]]; [[3; 4]]]%float)
  = [[[1; 2]]; [[3; 4]]]%float.
Proof.
  apply (normalisation_twice_is_identity _ 2 1 2); try lia.
  split; [reflexivity|]. repeat constructor.
Defined.

Section Exposed.

Import Hyper.

Variable py_float : string → result float.
Variable dir : directory.

Lemma init_inv h :
  init py_float dir = Ok h →
  ∃ h0, build py_float dir = Ok h0 ∧
        parms h = parms h0 ∧ wavelength_data h = wavelength_data h0 ∧
        channel_names h = channel_names h0 ∧
        hyper_image h = normalise (hyper_image h0) ∧
        channel_data h = normalise (channel_data h0).
Proof.
  unfold init. intros Hinit. next_step Hinit h0 Hbuild.
  injection Hinit as <-. exists h0. now cbn.
Qed.

(** A channel loop that returns has read files of one sample per pixel. *)
Lemma channel_loop_lengths X Y Nc :
  (0 < X)%nat → (0 < Y)%nat →
  ∀ channels ch0 names (a : Np.array3) st',
    Np.has_shape X Y Nc a →
    channel_loop py_float dir (Z.of_nat X) (Z.of_nat Y) ch0 channels (names, a) = Ok st' →
    (ch0 + length channels <= Nc)%nat →
    ∀ t channel name bytes,
      channels !! t = Some channel →
      channel !! "FileName" = Some name → binary dir name = Some bytes →
      length (Num.fromfile_i4 bytes) = (Y * X)%nat.
Proof.
  intros HX HY.
  induction channels as [|chan channels IH];
    intros ch0 names a st' Hshape Hloop Hch t channel name bytes Ht Hname Hbytes;
    [discriminate|].
  cbn [channel_loop] in Hloop.
  next_step Hloop caption' Hcaption'. next_step Hloop name' Hname'.
  next_step Hloop data' Hdata'. next_step Hloop scale' Hscale'.
  next_step Hloop scaling' Hscaling'. next_step Hloop a1 Ha1.
  cbn [fst snd length] in *.
  destruct t as [|t].
  - injection Ht as ->. unfold getitem in Hname'. rewrite Hname in Hname'.
    injection Hname' as <-. unfold fromfile in Hdata'. rewrite Hbytes in Hdata'.
    injection Hdata' as <-.
    destruct (decide (length (Num.fromfile_i4 bytes) = (Y * X)%nat)) as [Heq|Hne];
      [exact Heq|].
    rewrite (fill_channel_wrong_size _ scaling' ch0 X Y Nc a Hshape) in Ha1
      by (assumption || lia).
    discriminate.
  - apply (IH (S ch0) (names ++ [caption']) a1 st') with (t := t) (channel := channel)
                                                         (name := name);
      try assumption; [|lia].
    exact (fill_shape _ (store_sample_length scaling' ch0) X Y Nc _ _ _ _ _ Hshape Ha1).
Qed.

(** The captions are recorded in the order of the descriptors. *)
Lemma channel_loop_names x_pixel y_pixel :
  ∀ channels ch0 names (a : Np.array3) names' a',
    channel_loop py_float dir x_pixel y_pixel ch0 channels (names, a) = Ok (names', a') →
    ∃ captions, names' = names ++ captions ∧
                Forall2 (λ d c, d !! "Caption" = Some c) channels captions.
Proof.
  induction channels as [|chan channels IH]; intros ch0 names a names' a' Hloop.
  - injection Hloop as <- <-. exists []. split; [now rewrite app_nil_r|constructor].
  - cbn [channel_loop] in Hloop.
    next_step Hloop caption Hcaption. next_step Hloop name Hname.
    next_step Hloop data Hdata. next_step Hloop scale Hscale.
    next_step Hloop scaling Hscaling. next_step Hloop a1 Ha1.
    cbn [fst snd] in Hloop.
    destruct (IH _ _ _ _ _ Hloop) as (captions & -> & Hall).
    exists (caption :: captions). split; [now rewrite <- app_assoc|].
    constructor; [|exact Hall]. unfold getitem in Hcaption.
    destruct (chan !! "Caption"); [|discriminate]. now injection Hcaption as ->.
Qed.

End Exposed.

(** X13. After a construction that returns, channel [ch] of the exposed
    stack holds at row [y] and column [x] the sample of row [y] and column
    [x] of the file of descriptor [ch + 1], times its scale: the exposed
    stack is in the row-major order of the files.  A construction returns
    only if each channel file has exactly one sample per pixel. *)
Theorem exposed_channel_entries (py_float : string → result float)
    (dir : Hyper.directory) (h : Hyper.HyperImage) (X Y : nat) (xs ys : string) :
  Hyper.init py_float dir = Ok h →
  Hyper.parms h !! "xPixel" = Some xs → Num.int_of_str xs = Ok (Z.of_nat X) →
  Hyper.parms h !! "yPixel" = Some ys → Num.int_of_str ys = Ok (Z.of_nat Y) →
  ∀ ch channel name bytes scale scaling,
    snd (fst (Parser.read_anfatec_params (Hyper.param_lines dir))) !! S ch = Some channel →
    channel !! "FileName" = Some name → Hyper.binary dir name = Some bytes →
    channel !! "Scale" = Some scale → py_float scale = Ok scaling →
    length (Num.fromfile_i4 bytes) = (Y * X)%nat ∧
    ∀ x y, (x < X)%nat → (y < Y)%nat →
      Slice.get3 (Hyper.channel_data h) y x ch
      = Some (PrimFloat.mul scaling
                (Num.of_i4 (Num.fromfile_i4 bytes !!! (y * X + x)%nat))).
Proof.
  intros Hinit Hxs' Hx' Hys' Hy' ch channel name bytes scale scaling
         Hchannel Hname Hbytes Hscale Hscaling.
  destruct (init_inv py_float dir h Hinit)
    as (h0 & Hbuild & Hparms & _ & _ & _ & Hnorm).
  rewrite Hparms in Hxs', Hys'.
  destruct (build_shape py_float dir h0 Hbuild)
    as (X' & Y' & xs' & ys' & Hxs'' & Hx'' & Hys'' & Hy'' & HX & HY & _ & Hshape & _).
  rewrite Hxs' in Hxs''. rewrite Hys' in Hys''.
  injection Hxs'' as <-. injection Hys'' as <-.
  rewrite Hx' in Hx''. rewrite Hy' in Hy''.
  injection Hx'' as HXX. injection Hy'' as HYY.
  apply Nat2Z.inj in HXX, HYY. subst X' Y'.
  assert (length (Num.fromfile_i4 bytes) = (Y * X)%nat) as Hlen.
  { pose proof Hbuild as Hbuild'. invert_build Hbuild'.
    unfold Hyper.getitem in Hxs, Hys. rewrite Hxs' in Hxs. rewrite Hys' in Hys.
    injection Hxs as <-. injection Hys as <-.
    rewrite Hx' in Hx. rewrite Hy' in Hy. injection Hx as <-. injection Hy as <-.
    apply zeros3_Ok in Hstack0 as (_ & _ & _ & Hstack0).
    rewrite !Nat2Z.id in Hstack0. destruct st as [names stack].
    apply (channel_loop_lengths py_float dir X Y (length (drop 1 channels)) HX HY
             (drop 1 channels) 0 [] stack0 (names, stack) Hstack0 Hst
             ltac:(cbn; lia) ch channel name bytes); try assumption.
    rewrite lookup_drop. exact Hchannel. }
  split; [exact Hlen|]. intros x y Hxlt Hylt. rewrite Hnorm.
  rewrite (normalise_entry _ X Y _ x y ch Hshape Hxlt Hylt).
  now apply (build_channel_grid py_float dir h0 X Y xs ys Hbuild Hxs' Hx' Hys' Hy'
               ch channel name bytes scale scaling).
Qed.

Lemma exposed_channel_entries_witness :
  ∃ h, Hyper.init Sample.float_of_literal Sample.scan_2x1 = Ok h ∧
       Slice.get3 (Hyper.channel_data h) 0 1 0 = Some (-2)%float.
Proof.
  eexists. split; [vm_compute; reflexivity|].
  assert (Hyper.init Sample.float_of_literal Sample.scan_2x1 = Ok _) as Hinit
    by (vm_compute; reflexivity).
  destruct (exposed_channel_entries Sample.float_of_literal Sample.scan_2x1 _ 2 1 "2" "1"
              Hinit ltac:(vm_compute; reflexivity) ltac:(vm_compute; reflexivity)
              ltac:(vm_compute; reflexivity) ltac:(vm_compute; reflexivity)
              0%nat _ "topo.int" _ "2" _
              ltac:(vm_compute; reflexivity) ltac:(vm_compute; reflexivity)
              ltac:(vm_compute; reflexivity) ltac:(vm_compute; reflexivity)
              ltac:(vm_compute; reflexivity)) as [_ Hentries].
  exact (Hentries 1%nat 0%nat ltac:(lia) ltac:(lia)).
Defined.

(** X14. After a construction that returns, when the cube file holds one
    sample per pixel and wavelength, the exposed cube holds at row [y],
    column [x] and plane [k] the sample of index [(y * X + x) * S + k] of
    the file, times the scale of the first descriptor: the exposed cube is
    in the row-major order of the file. *)
Theorem exposed_cube_entries (py_float : string → result float)
    (dir : Hyper.directory) (h : Hyper.HyperImage) (X Y : nat) (xs ys : string) :
  Hyper.init py_float dir = Ok h →
  Hyper.parms h !! "xPixel" = Some xs → Num.int_of_str xs = Ok (Z.of_nat X) →
  Hyper.parms h !! "yPixel" = Some ys → Num.int_of_str ys = Ok (Z.of_nat Y) →
  ∀ channel name bytes scale scaling,
    snd (fst (Parser.read_anfatec_params (Hyper.param_lines dir))) !! 0%nat = Some channel →
    channel !! "FileName" = Some name → Hyper.binary dir name = Some bytes →
    channel !! "Scale" = Some scale → py_float scale = Ok scaling →
    let Ns := length (Hyper.wavelength_data h) in
    length (Num.fromfile_i4 bytes) = (Y * (X * Ns))%nat →
    ∀ x y k, (x < X)%nat → (y < Y)%nat → (k < Ns)%nat →
      Slice.get3 (Hyper.hyper_image h) y x k
      = Some (PrimFloat.mul scaling
                (Num.of_i4 (Num.fromfile_i4 bytes !!! ((y * X + x) * Ns + k)%nat))).
Proof.
  intros Hinit Hxs' Hx' Hys' Hy' channel name bytes scale scaling
         Hchannel Hname Hbytes Hscale Hscaling Ns Hlen x y k Hxlt Hylt Hk.
  destruct (init_inv py_float dir h Hinit)
    as (h0 & Hbuild & Hparms & Hwl & _ & Hnorm & _).
  rewrite Hparms in Hxs', Hys'. subst Ns. rewrite Hwl in Hlen, Hk |- *.
  destruct (build_shape py_float dir h0 Hbuild)
    as (X' & Y' & xs' & ys' & Hxs'' & Hx'' & Hys'' & Hy'' & HX & HY & Hshape & _).
  rewrite Hxs' in Hxs''. rewrite Hys' in Hys''.
  injection Hxs'' as <-. injection Hys'' as <-.
  rewrite Hx' in Hx''. rewrite Hy' in Hy''.
  injection Hx'' as HXX. injection Hy'' as HYY.
  apply Nat2Z.inj in HXX, HYY. subst X' Y'.
  rewrite Hnorm. rewrite (normalise_entry _ X Y _ x y k Hshape Hxlt Hylt).
  now apply (build_cube_grid py_float dir h0 X Y xs ys Hbuild Hxs' Hx' Hys' Hy'
               channel name bytes scale scaling).
Qed.

Lemma exposed_cube_entries_witness :
  ∃ h, Hyper.init Sample.float_of_literal Sample.scan_2x1 = Ok h ∧
       Slice.get3 (Hyper.hyper_image h) 0 1 0 = Some 3%float.
Proof.
  eexists. split; [vm_compute; reflexivity|].
  assert (Hyper.init Sample.float_of_literal Sample.scan_2x1 = Ok _) as Hinit
    by (vm_compute; reflexivity).
  exact (exposed_cube_entries Sample.float_of_literal Sample.scan_2x1 _ 2 1 "2" "1"
           Hinit ltac:(vm_compute; reflexivity) ltac:(vm_compute; reflexivity)
           ltac:(vm_compute; reflexivity) ltac:(vm_compute; reflexivity)
           _ "cube.int" _ "1" _
           ltac:(vm_compute; reflexivity) ltac:(vm_compute; reflexivity)
           ltac:(vm_compute; reflexivity) ltac:(vm_compute; reflexivity)
           ltac:(vm_compute; reflexivity) ltac:(vm_compute; reflexivity)
           1%nat 0%nat 0%nat ltac:(vm_compute; lia) ltac:(lia) ltac:(vm_compute; lia)).
Defined.

(** X15. After a construction that returns, [channel_names] lists the
    captions of the descriptors after the first, one per descriptor and in
    their order; the caption of the cube's own descriptor is not among the
    names read. *)
Theorem channel_names_are_the_captions (py_float : string → result float)
    (dir : Hyper.directory) (h : Hyper.HyperImage) :
  Hyper.init py_float dir = Ok h →
  Forall2 (λ d c, d !! "Caption" = Some c)
    (drop 1 (snd (fst (Parser.read_anfatec_params (Hyper.param_lines dir)))))
    (Hyper.channel_names h).
Proof.
  intros Hinit.
  destruct (init_inv py_float dir h Hinit) as (h0 & Hbuild & _ & _ & -> & _).
  invert_build Hbuild. destruct st as [names stack].
  destruct (channel_loop_names py_float dir _ _ _ _ _ _ _ _ Hst)
    as (captions & -> & Hall).
  exact Hall.
Qed.

Lemma channel_names_are_the_captions_witness :
  ∃ h, Hyper.init Sample.float_of_literal Sample.scan_2x1 = Ok h ∧
       Forall2 (λ d c, d !! "Caption" = Some c)
         (drop 1 (snd (fst (Parser.read_anfatec_params
                              (Hyper.param_lines Sample.scan_2x1)))))
         (Hyper.channel_names h).
Proof.
  eexists. split; [vm_compute; reflexivity|].
  apply (channel_names_are_the_captions Sample.float_of_literal Sample.scan_2x1).
  vm_compute; reflexivity.
Defined.

(** X16. After a construction that returns, [parms] is the scan-parameter
    mapping of the parameter file and [wavelength_data] is the content of the
    file that the first descriptor names under [FileNameWavelengths]. *)
Theorem exposed_parameters_and_axis (py_float : string → result float)
    (dir : Hyper.directory) (h : Hyper.HyperImage) :
  Hyper.init py_float dir = Ok h →
  Hyper.parms h = fst (fst (Parser.read_anfatec_params (Hyper.param_lines dir))) ∧
  ∃ d wname,
    snd (fst (Parser.read_anfatec_params (Hyper.param_lines dir))) !! 0%nat = Some d ∧
    d !! "FileNameWavelengths" = Some wname ∧
    Hyper.loadtxt dir wname = Some (Hyper.wavelength_data h).
Proof.
  intros Hinit.
  destruct (init_inv py_float dir h Hinit) as (h0 & Hbuild & -> & -> & _).
  invert_build Hbuild. split; [reflexivity|].
  exists chan0, wname. unfold Hyper.nth_item, Hyper.getitem, Hyper.py_str in *.
  destruct (channels !! 0%nat); [|discriminate]. injection Hchan0 as ->.
  destruct (chan0 !! "FileNameWavelengths"); [|discriminate]. injection Hwname as ->.
  destruct (forallb _ _); [|discriminate]. injection Hwname' as <-.
  destruct (Hyper.loadtxt dir wname); [|discriminate]. injection Hwl as ->.
  repeat split.
Qed.

Lemma exposed_parameters_and_axis_witness :
  ∃ h, Hyper.init Sample.float_of_literal Sample.scan_2x1 = Ok h ∧
       Hyper.parms h
       = fst (fst (Parser.read_anfatec_params (Hyper.param_lines Sample.scan_2x1))) ∧
       ∃ d wname,
         snd (fst (Parser.read_anfatec_params (Hyper.param_lines Sample.scan_2x1)))
           !! 0%nat = Some d ∧
         d !! "FileNameWavelengths" = Some wname ∧
         Hyper.loadtxt Sample.scan_2x1 wname = Some (Hyper.wavelength_data h).
Proof.
  eexists. split; [vm_compute; reflexivity|].
  apply (exposed_parameters_and_axis Sample.float_of_literal Sample.scan_2x1).
  vm_compute; reflexivity.
Defined.

(** ** More on [hyperslice] *)

Section SliceMore.

Import Hyper Slice.

(** A call that returns has found both endpoints in the truncated axis. *)
Lemma hyperslice_inv h start stop rows cols r :
  hyperslice h start stop rows cols = Ok r →
  ∃ axis i_start i_stop,
    ints (wavelength_data h) = Ok axis ∧
    find_index axis start = Some i_start ∧
    find_index axis stop = Some i_stop.
Proof.
  unfold hyperslice. intros Hcall.
  next_step Hcall axis Haxis. next_step Hcall i_stop Hstop.
  next_step Hcall i_start Hstart.
  exists axis, i_start, i_stop. unfold index in Hstop, Hstart.
  destruct (find_index axis stop); [|discriminate].
  destruct (find_index axis start); [|discriminate].
  injection Hstop as ->. injection Hstart as ->. now repeat split.
Qed.

(** What the loop leaves in entry [p] of a cell: the entry doubled by the
    first iteration, then the entries that follow it, added in order. *)
Lemma accumulate_cell_tail p (cell : list float) :
  ∀ idxs (cl : list float),
    (p < length cl)%nat →
    Forall (λ i, i ≠ 0%nat) idxs →
    (∀ k, k ≠ p → cl !!! k = cell !!! k) →
    fold_left (λ cl i, iadd_cell p (p + i) cl) idxs cl !!! p
    = fold_left (λ acc i, PrimFloat.add acc (cell !!! (p + i)%nat)) idxs (cl !!! p).
Proof.
  induction idxs as [|i idxs IH]; intros cl Hp Hidxs Hagree; [reflexivity|].
  apply Forall_cons in Hidxs as [Hi Hidxs]. cbn [fold_left].
  rewrite IH; [|now rewrite iadd_cell_length|exact Hidxs|].
  - f_equal. unfold iadd_cell. rewrite list_lookup_total_insert_eq by exact Hp.
    f_equal. apply Hagree. lia.
  - intros k Hk. unfold iadd_cell.
    rewrite list_lookup_total_insert_ne by congruence. now apply Hagree.
Qed.

Lemma fold_left_shift (cell : list float) p n :
  ∀ s acc,
    fold_left (λ acc i, PrimFloat.add acc (cell !!! (p + i)%nat)) (seq s n) acc
    = fold_left (λ acc k, PrimFloat.add acc (cell !!! k)) (seq (p + s) n) acc.
Proof.
  induction n as [|n IH]; intros s acc; [reflexivity|]. cbn [seq fold_left].
  rewrite IH. now rewrite Nat.add_succ_r.
Qed.

Lemma accumulate_cell_value p n (cell : list float) :
  (p < length cell)%nat →
  accumulate_cell p p (seq 0 (S n)) cell !!! p
  = fold_left (λ acc k, PrimFloat.add acc (cell !!! k)) (seq (S p) n)
      (PrimFloat.add (cell !!! p) (cell !!! p)).
Proof.
  intros Hp. unfold accumulate_cell. cbn [seq fold_left].
  rewrite (accumulate_cell_tail p cell).
  - rewrite fold_left_shift, Nat.add_1_r. f_equal.
    unfold iadd_cell. rewrite Nat.add_0_r.
    now rewrite list_lookup_total_insert_eq by exact Hp.
  - now rewrite iadd_cell_length.
  - apply Forall_forall. intros i Hi. apply elem_of_seq in Hi. lia.
  - intros k Hk. unfold iadd_cell.
    now rewrite list_lookup_total_insert_ne by congruence.
Qed.

(** The shape of what is seen through a view that lies inside the array. *)
Lemma read_shape (a : Np.array3) R C Ns v :
  Np.has_shape R C Ns a →
  (snd (v_rows v) <= R)%nat → (snd (v_cols v) <= C)%nat →
  Np.has_shape2 (snd (v_rows v) - fst (v_rows v))
                (snd (v_cols v) - fst (v_cols v)) (read a v).
Proof.
  intros [Hlen Hall] Hr Hc. unfold read, Np.slice. split.
  - rewrite length_map, length_take, length_drop. lia.
  - rewrite map_fmap. apply Forall_fmap. apply Forall_take, Forall_drop.
    eapply Forall_impl; [exact Hall|]. intros row [Hrow _]. cbn.
    rewrite length_map, length_take, length_drop. lia.
Qed.

End SliceMore.

(** X17. What a call with a positive span returns, entry by entry: with
    [p] the index of [stop] and [q] the index of [start], [p < q], the
    entry of a pixel of the window is the pixel's value at plane [p] added
    to itself, and then the values at planes [p+1 .. q-1] added in order.
    The plane at [p] is counted twice and the plane at [q] is not added. *)
Theorem positive_span_entries (h : Hyper.HyperImage) (start stop : Z)
    (rows cols : option (Z * Z)) (axis : list Z) (i_start i_stop : nat) :
  Slice.built h →
  Slice.ints (Hyper.wavelength_data h) = Ok axis →
  Slice.find_index axis start = Some i_start →
  Slice.find_index axis stop = Some i_stop →
  (i_stop < i_start)%nat →
  ∃ r,
    Slice.hyperslice h start stop rows cols = Ok r ∧
    ∀ i j cell,
      (i < snd (Slice.v_rows (fst r)) - fst (Slice.v_rows (fst r)))%nat →
      (j < snd (Slice.v_cols (fst r)) - fst (Slice.v_cols (fst r)))%nat →
      Np.cell_at (Hyper.hyper_image h)
        (fst (Slice.v_rows (fst r)) + i) (fst (Slice.v_cols (fst r)) + j) = Some cell →
      Slice.get2 (Slice.returned r) i j
      = Some (fold_left (λ acc k, PrimFloat.add acc (cell !!! k))
                (seq (S i_stop) (i_start - i_stop - 1))
                (PrimFloat.add (cell !!! i_stop) (cell !!! i_stop))).
Proof.
  intros Hbuilt Hints Hstart Hstop Hspan.
  eexists. split;
    [now apply (hyperslice_spec h start stop rows cols axis i_start i_stop)|].
  cbn [fst snd]. intros i j cell Hi Hj Hcell.
  destruct Hbuilt as (R & C & Nc & HR & HC & Hcube & _).
  assert (i_stop < length (Hyper.wavelength_data h))%nat as Hp.
  { destruct (find_index_Some _ _ _ Hstop) as [Hk _].
    apply lookup_lt_Some in Hk. now rewrite (ints_length _ _ Hints) in Hk. }
  unfold Slice.returned. cbn [fst snd Slice.with_cube Hyper.hyper_image].
  rewrite (read_get _ R C (length (Hyper.wavelength_data h)) _ i j);
    [|apply map_window_shape; [intros c; apply accumulate_cell_length|exact Hcube]
     |exact Hp|exact Hi|exact Hj].
  set (v := Slice.window_view h rows cols i_stop) in *.
  unfold Np.cell_at in Hcell.
  pose proof (map_window_cell v
                (Slice.accumulate_cell i_stop i_stop
                   (Slice.range (Z.of_nat i_start - Z.of_nat i_stop)))
                (Hyper.hyper_image h)
                (fst (Slice.v_rows v) + i) (fst (Slice.v_cols v) + j)) as Hnew.
  rewrite Hcell in Hnew. cbn [fmap option_fmap option_map] in Hnew.
  rewrite (in_bounds_offset _ i Hi), (in_bounds_offset _ j Hj) in Hnew.
  cbn [andb] in Hnew.
  rewrite (get3_cell _ _ _ _ _ Hnew). cbn [Slice.v_plane v].
  assert (length cell = length (Hyper.wavelength_data h)) as Hcl.
  { destruct (Hyper.hyper_image h !! (fst (Slice.v_rows v) + i)%nat) as [row|] eqn:Hrow;
      [|discriminate].
    cbn in Hcell. destruct Hcube as [_ Hall].
    pose proof (proj1 (Forall_lookup _ _) Hall _ _ Hrow) as [_ Hcells].
    exact (proj1 (Forall_lookup _ _) Hcells _ _ Hcell). }
  unfold Slice.range.
  replace (Z.to_nat (Z.of_nat i_start - Z.of_nat i_stop))
    with (S (i_start - i_stop - 1)) by lia.
  rewrite <- (accumulate_cell_value i_stop (i_start - i_stop - 1) cell) by lia.
  apply list_lookup_lookup_total_lt. rewrite accumulate_cell_length. lia.
Qed.

Lemma positive_span_entries_witness :
  ∃ r,
    Slice.hyperslice Sample.c3 310 300 None None = Ok r ∧
    Slice.get2 (Slice.returned r) 0 0 = Some 12%float.
Proof.
  destruct (positive_span_entries Sample.c3 310 300 None None [300; 305; 310] 2 0
              built_c3 eq_refl eq_refl eq_refl ltac:(lia)) as (r & Hcall & Hentries).
  exists r. split; [exact Hcall|].
  assert (r = (Slice.mkView (0, 1)%nat (0, 1)%nat 0,
               Hyper.mkHyper ∅ [300.2; 305.9; 310.1]%float []
                 [[[12; 10; 100]]]%float [[[]]])) as ->
    by (assert (Ok r = Slice.hyperslice Sample.c3 310 300 None None) as Hr
          by (now rewrite Hcall);
        vm_compute in Hr; now injection Hr).
  exact (Hentries 0%nat 0%nat [1; 10; 100]%float ltac:(cbn; lia) ltac:(cbn; lia) eq_refl).
Defined.

(** X18. The shape of the array a call returns: the rows and columns of
    the window, with its bounds normalised as Python normalises the bounds
    of a slice; with no window given it is the whole image, of the shape
    [(R, C)] of the cube, at one plane. *)
Theorem returned_shape (h : Hyper.HyperImage) (start stop : Z)
    (rows cols : option (Z * Z)) (r : Slice.view * Hyper.HyperImage)
    (R C Nc : nat) :
  (0 < R)%nat → (0 < C)%nat →
  Np.has_shape R C (length (Hyper.wavelength_data h)) (Hyper.hyper_image h) →
  Np.has_shape R C Nc (Hyper.channel_data h) →
  Slice.hyperslice h start stop rows cols = Ok r →
  let rb := Np.slice_bounds R (default (0, Z.of_nat R) rows) in
  let cb := Np.slice_bounds C (default (0, Z.of_nat C) cols) in
  Np.has_shape2 (snd rb - fst rb) (snd cb - fst cb) (Slice.returned r) ∧
  (rows = None → cols = None → Np.has_shape2 R C (Slice.returned r)).
Proof.
  intros HR HC Hcube Hchan Hcall rb cb.
  assert (Slice.built h) as Hbuilt
    by (exists R, C, Nc; repeat (split; [assumption|]); assumption).
  destruct (hyperslice_inv h start stop rows cols r Hcall)
    as (axis & i_start & i_stop & Hints & Hstart & Hstop).
  rewrite (hyperslice_spec h start stop rows cols axis i_start i_stop) in Hcall
    by assumption.
  injection Hcall as <-.
  destruct (shape_read_back _ _ _ _ Hcube HR HC) as (Hc0 & Hc1 & _).
  destruct (shape_read_back _ _ _ _ Hchan HR HC) as (Hd0 & Hd1 & _).
  assert (Np.has_shape2 (snd rb - fst rb) (snd cb - fst cb)
            (Slice.returned
               (Slice.window_view h rows cols i_stop,
                Slice.with_cube h
                  (Slice.map_window (Slice.window_view h rows cols i_stop)
                     (Slice.accumulate_cell i_stop i_stop
                        (Slice.range (Z.of_nat i_start - Z.of_nat i_stop)))
                     (Hyper.hyper_image h))))) as Hshape.
  { unfold Slice.returned. cbn [fst snd Slice.with_cube Hyper.hyper_image].
    pose proof (read_shape
                  (Slice.map_window (Slice.window_view h rows cols i_stop)
                     (Slice.accumulate_cell i_stop i_stop
                        (Slice.range (Z.of_nat i_start - Z.of_nat i_stop)))
                     (Hyper.hyper_image h))
                  R C (length (Hyper.wavelength_data h))
                  (Slice.window_view h rows cols i_stop)) as Hread.
    unfold Slice.window_view in Hread |- *. cbn [Slice.v_rows Slice.v_cols] in Hread.
    rewrite Hc0, Hc1, Hd0, Hd1 in Hread |- *. apply Hread.
    - apply map_window_shape; [intros c; apply accumulate_cell_length|exact Hcube].
    - apply slice_bound_le.
    - apply slice_bound_le. }
  split; [exact Hshape|]. intros -> ->.
  assert (snd rb - fst rb = R)%nat as HRb.
  { subst rb. cbn. unfold Np.slice_bound. cbn.
    destruct (Z.ltb_spec (Z.of_nat R) 0); lia. }
  assert (snd cb - fst cb = C)%nat as HCb.
  { subst cb. cbn. unfold Np.slice_bound. cbn.
    destruct (Z.ltb_spec (Z.of_nat C) 0); lia. }
  now rewrite HRb, HCb in Hshape.
Qed.

Lemma returned_shape_witness :
  ∃ r, Slice.hyperslice Sample.c3 310 300 None None = Ok r ∧
       Np.has_shape2 1 1 (Slice.returned r).
Proof.
  eexists. split; [vm_compute; reflexivity|].
  refine (proj2 (returned_shape Sample.c3 310 300 None None _ 1 1 0
                   ltac:(lia) ltac:(lia) _ _ eq_refl) eq_refl eq_refl).
  - repeat split; repeat constructor.
  - repeat split; repeat constructor.
Defined.

(** X19. On a container as the builder leaves it, a call whose endpoints
    are both in the truncated axis returns, and the container it leaves is
    again as the builder leaves one: the cube keeps its shape, and the
    wavelength axis, the parameters, the channel names and the channel stack
    are as they were.  So calls can follow one another. *)
Theorem call_keeps_the_container (h : Hyper.HyperImage) (start stop : Z)
    (rows cols : option (Z * Z)) (axis : list Z) :
  Slice.built h →
  Slice.ints (Hyper.wavelength_data h) = Ok axis →
  start ∈ axis → stop ∈ axis →
  ∃ r,
    Slice.hyperslice h start stop rows cols = Ok r ∧
    Slice.built (snd r) ∧
    Hyper.wavelength_data (snd r) = Hyper.wavelength_data h ∧
    Hyper.parms (snd r) = Hyper.parms h ∧
    Hyper.channel_names (snd r) = Hyper.channel_names h ∧
    Hyper.channel_data (snd r) = Hyper.channel_data h.
Proof.
  intros Hbuilt Hints Hstart Hstop.
  destruct (find_index_elem _ _ Hstart) as [i_start Hi_start].
  destruct (find_index_elem _ _ Hstop) as [i_stop Hi_stop].
  eexists. split;
    [now apply (hyperslice_spec h start stop rows cols axis i_start i_stop)|].
  cbn [snd Slice.with_cube Hyper.wavelength_data Hyper.parms Hyper.channel_names
       Hyper.channel_data].
  split; [|now repeat split].
  destruct Hbuilt as (R & C & Nc & HR & HC & Hcube & Hchan).
  exists R, C, Nc. repeat (split; [assumption|]).
  cbn [Hyper.wavelength_data Hyper.hyper_image Hyper.channel_data].
  split; [|exact Hchan].
  apply map_window_shape; [intros c; apply accumulate_cell_length|exact Hcube].
Qed.

Lemma call_keeps_the_container_witness :
  ∃ r,
    Slice.hyperslice Sample.c3 310 300 None None = Ok r ∧
    Slice.built (snd r) ∧
    Hyper.wavelength_data (snd r) = Hyper.wavelength_data Sample.c3 ∧
    Hyper.parms (snd r) = Hyper.parms Sample.c3 ∧
    Hyper.channel_names (snd r) = Hyper.channel_names Sample.c3 ∧
    Hyper.channel_data (snd r) = Hyper.channel_data Sample.c3.
Proof.
  apply (call_keeps_the_container Sample.c3 310 300 None None [300; 305; 310]
           built_c3 eq_refl).
  - decide_by_computation.
  - decide_by_computation.
Defined.

(** X20. The whole wavelength axis is truncated before an endpoint is
    looked up: when an entry of the axis is a NaN or an infinity the call
    raises, [ValueError] or [OverflowError], whatever the endpoints are and
    wherever the entry lies. *)
Theorem non_finite_axis_raises (h : Hyper.HyperImage) (start stop : Z)
    (rows cols : option (Z * Z)) :
  Exists (λ x, Prim2SF x = S754_nan ∨ ∃ s, Prim2SF x = S754_infinity s)
         (Hyper.wavelength_data h) →
  Slice.hyperslice h start stop rows cols = Raise ValueError ∨
  Slice.hyperslice h start stop rows cols = Raise OverflowError.
Proof.
  intros Hbad.
  assert (Slice.ints (Hyper.wavelength_data h) = Raise ValueError ∨
          Slice.ints (Hyper.wavelength_data h) = Raise OverflowError) as Hints.
  { induction Hbad as [x wl Hx|x wl _ IH]; cbn [Slice.ints].
    - unfold Num.py_int. destruct Hx as [->|[s ->]]; [now left|now right].
    - destruct (Num.py_int x) as [n|e] eqn:Hn.
      + run_bind. destruct IH as [-> | ->]; [now left|now right].
      + unfold Num.py_int in Hn.
        destruct (Prim2SF x); try discriminate; injection Hn as <-;
          [now right|now left]. }
  unfold Slice.hyperslice. destruct Hints as [-> | ->]; [now left|now right].
Qed.

Lemma non_finite_axis_raises_witness :
  Slice.hyperslice
    (Hyper.mkHyper ∅ [300.2; PrimFloat.nan; 310.1]%float [] [[[1; 10; 100]]]%float [[[]]])
    300 310 None None = Raise ValueError ∨
  Slice.hyperslice
    (Hyper.mkHyper ∅ [300.2; PrimFloat.nan; 310.1]%float [] [[[1; 10; 100]]]%float [[[]]])
    300 310 None None = Raise OverflowError.
Proof.
  apply non_finite_axis_raises. cbn [Hyper.wavelength_data].
  apply Exists_cons_tl, Exists_cons_hd. left. reflexivity.
Defined.

(** ** [to_2d] on a constructed container *)

(** X21. [to_2d] on the cube of a constructed container, when the cube file
    holds one sample per pixel and wavelength: it returns, and the matrix has
    one row per pixel and one column per wavelength, in the order of the
    file: entry [(n, k)] is sample [n * S + k] of the file, times the scale
    of the first descriptor, divided by the laser power. *)
Theorem feature_matrix_of_the_file (py_float : string → result float)
    (dir : Hyper.directory) (h : Hyper.HyperImage) (X Y : nat) (xs ys : string)
    (laserpower : float) :
  Hyper.init py_float dir = Ok h →
  Hyper.parms h !! "xPixel" = Some xs → Num.int_of_str xs = Ok (Z.of_nat X) →
  Hyper.parms h !! "yPixel" = Some ys → Num.int_of_str ys = Ok (Z.of_nat Y) →
  ∀ channel name bytes scale scaling,
    snd (fst (Parser.read_anfatec_params (Hyper.param_lines dir))) !! 0%nat = Some channel →
    channel !! "FileName" = Some name → Hyper.binary dir name = Some bytes →
    channel !! "Scale" = Some scale → py_float scale = Ok scaling →
    let Ns := length (Hyper.wavelength_data h) in
    length (Num.fromfile_i4 bytes) = (Y * (X * Ns))%nat →
    ∃ fm,
      To2d.to_2d (Hyper.hyper_image h) laserpower = Ok fm ∧
      Np.has_shape2 (Y * X) Ns fm ∧
      ∀ n k, (n < Y * X)%nat → (k < Ns)%nat →
        Slice.get2 fm n k
        = Some (PrimFloat.div
                  (PrimFloat.mul scaling
                     (Num.of_i4 (Num.fromfile_i4 bytes !!! (n * Ns + k)%nat)))
                  laserpower).
Proof.
  intros Hinit Hxs' Hx' Hys' Hy' channel name bytes scale scaling
         Hchannel Hname Hbytes Hscale Hscaling Ns Hlen.
  destruct (init_inv py_float dir h Hinit)
    as (h0 & Hbuild & Hparms & Hwl & _ & Hnorm & _).
  rewrite Hparms in Hxs', Hys'.
  destruct (build_shape py_float dir h0 Hbuild)
    as (X' & Y' & xs' & ys' & Hxs'' & Hx'' & Hys'' & Hy'' & HX & HY & Hshape & _).
  rewrite Hxs' in Hxs''. rewrite Hys' in Hys''.
  injection Hxs'' as <-. injection Hys'' as <-.
  rewrite Hx' in Hx''. rewrite Hy' in Hy''.
  injection Hx'' as HXX. injection Hy'' as HYY.
  apply Nat2Z.inj in HXX, HYY. subst X' Y'.
  assert (Np.has_shape Y X Ns (Hyper.hyper_image h)) as Hexposed.
  { subst Ns. rewrite Hnorm, Hwl. now apply normalise_shape. }
  exists (To2d.corrected_rows (Hyper.hyper_image h) laserpower).
  split; [now apply (to_2d_spec _ _ Y X Ns)|].
  split; [now apply corrected_rows_shape|].
  intros n k Hn Hk.
  assert (n = (n `div` X * X + n `mod` X)%nat) as Hdiv
    by (pose proof (Nat.div_mod_eq n X); lia).
  assert (n `mod` X < X)%nat as Hx by (apply Nat.mod_upper_bound; lia).
  assert (n `div` X < Y)%nat as Hy by (apply Nat.Div0.div_lt_upper_bound; lia).
  destruct (shape_cell_at _ Y X Ns _ _ Hexposed Hy Hx) as (cell & Hcell & Hcl).
  pose proof (get3_cell_at (Hyper.hyper_image h) (n `div` X) (n `mod` X) k) as Hentry.
  rewrite Hcell in Hentry. cbn [mbind option_bind] in Hentry.
  rewrite Hnorm in Hentry at 1.
  rewrite (normalise_entry _ X Y _ _ _ k Hshape Hx Hy) in Hentry.
  subst Ns. rewrite Hwl in Hlen, Hk.
  rewrite (build_cube_grid py_float dir h0 X Y xs ys Hbuild Hxs' Hx' Hys' Hy'
             channel name bytes scale scaling Hchannel Hname Hbytes Hscale Hscaling
             Hlen _ _ k Hx Hy Hk) in Hentry.
  unfold Np.cell_at in Hcell.
  destruct (Hyper.hyper_image h !! (n `div` X)%nat) as [row|] eqn:Hrow; [|discriminate].
  cbn [mbind option_bind] in Hcell.
  unfold Slice.get2. rewrite Hdiv at 1.
  rewrite (lookup_corrected_rows _ laserpower Y X _ Hexposed _ _ row cell Hrow Hcell).
  cbn [mbind option_bind]. rewrite map_fmap, list_lookup_fmap, <- Hentry.
  cbn [fmap option_fmap option_map]. rewrite <- Hdiv, Hwl. reflexivity.
Qed.

Lemma feature_matrix_of_the_file_witness :
  ∃ h fm,
    Hyper.init Sample.float_of_literal Sample.scan_2x1 = Ok h ∧
    To2d.to_2d (Hyper.hyper_image h) 2 = Ok fm ∧
    Slice.get2 fm 1 0 = Some 1.5%float.
Proof.
  eexists.
  assert (Hyper.init Sample.float_of_literal Sample.scan_2x1 = Ok _) as Hinit
    by (vm_compute; reflexivity).
  destruct (feature_matrix_of_the_file Sample.float_of_literal Sample.scan_2x1 _
              2 1 "2" "1" 2%float
              Hinit ltac:(vm_compute; reflexivity) ltac:(vm_compute; reflexivity)
              ltac:(vm_compute; reflexivity) ltac:(vm_compute; reflexivity)
              _ "cube.int" _ "1" _
              ltac:(vm_compute; reflexivity) ltac:(vm_compute; reflexivity)
              ltac:(vm_compute; reflexivity) ltac:(vm_compute; reflexivity)
              ltac:(vm_compute; reflexivity) ltac:(vm_compute; reflexivity))
    as (fm & Hfm & _ & Hentries).
  exists fm. split; [exact Hinit|]. split; [exact Hfm|].
  rewrite (Hentries 1%nat 0%nat ltac:(lia) ltac:(vm_compute; lia)).
  vm_compute. reflexivity.
Defined.

(** ** [load_ibw] *)

Section IbwFacts.

(** The cell [[x, y]] of the array flipped along its second axis. *)
Lemma flip1_cell (a : Np.array3) X Y Ns x y :
  Np.has_shape X Y Ns a → (x < X)%nat → (y < Y)%nat →
  Np.cell_at (Np.flip1 a) x y = Np.cell_at a x (Y - 1 - y).
Proof.
  intros [Hlen Hall] Hx Hy. unfold Np.cell_at, Np.flip1.
  rewrite lookup_map.
  destruct (lookup_lt_is_Some_2 a x) as [row Hrow]; [lia|].
  rewrite Hrow. cbn.
  destruct (Forall_lookup_1 _ _ _ _ Hall Hrow) as [HrowY _].
  rewrite reverse_lookup by lia. f_equal. lia.
Qed.

(** The entries of the rotated array. *)
Lemma rot90_entry (a : Np.array3) R C K i j k :
  Np.has_shape R C K a → (i < C)%nat → (j < R)%nat →
  Slice.get3 (Ibw.rot90 a) i j k = Slice.get3 a j (C - 1 - i) k.
Proof.
  intros Hshape Hi Hj. unfold Ibw.rot90. rewrite !get3_cell_at.
  rewrite (transpose_cell (Np.flip1 a) R C K j i) by
    (try apply flip1_shape; assumption).
  now rewrite (flip1_cell a R C K j i).
Qed.

Lemma rot90_shape (a : Np.array3) R C K :
  Np.has_shape R C K a → (0 < R)%nat → Np.has_shape C R K (Ibw.rot90 a).
Proof.
  intros Hshape HR. unfold Ibw.rot90.
  apply transpose_shape; [now apply flip1_shape|exact HR].
Qed.

(** The cells of the array after plane 0 is assigned. *)
Lemma set_plane0_cell (m : Np.array2) (a : Np.array3) R C K r c :
  Np.has_shape R C K a → Np.has_shape2 R C m → (r < R)%nat → (c < C)%nat →
  ∃ v cell,
    Slice.get2 m r c = Some v ∧ Np.cell_at a r c = Some cell ∧ length cell = K ∧
    Np.cell_at (Ibw.set_plane0 m a) r c = Some (<[0%nat := v]> cell).
Proof.
  intros [Hlen Hall] [Hmlen Hmall] Hr Hc.
  destruct (lookup_lt_is_Some_2 a r) as [row Hrow]; [lia|].
  destruct (lookup_lt_is_Some_2 m r) as [mrow Hmrow]; [lia|].
  destruct (Forall_lookup_1 _ _ _ _ Hall Hrow) as [HrowC Hcells].
  pose proof (Forall_lookup_1 _ _ _ _ Hmall Hmrow) as HmrowC. cbn in HmrowC.
  destruct (lookup_lt_is_Some_2 row c) as [cell Hcell]; [lia|].
  destruct (lookup_lt_is_Some_2 mrow c) as [v Hv]; [lia|].
  exists v, cell. unfold Slice.get2, Np.cell_at, Ibw.set_plane0.
  rewrite Hmrow, Hrow, lookup_zip_with, Hmrow, Hrow. cbn.
  rewrite lookup_zip_with, Hv, Hcell. cbn.
  repeat split; try assumption.
  exact (Forall_lookup_1 _ _ _ _ Hcells Hcell).
Qed.

Lemma set_plane0_shape (m : Np.array2) (a : Np.array3) R C K :
  Np.has_shape R C K a → Np.has_shape2 R C m →
  Np.has_shape R C K (Ibw.set_plane0 m a).
Proof.
  intros [Hlen Hall] [Hmlen Hmall]. unfold Ibw.set_plane0. split.
  - rewrite length_zip_with. lia.
  - apply Forall_forall. intros row' Hrow'.
    apply elem_of_lookup_zip_with in Hrow' as (i & mrow & row & -> & Hmrow & Hrow).
    destruct (Forall_lookup_1 _ _ _ _ Hall Hrow) as [HrowC Hcells].
    pose proof (Forall_lookup_1 _ _ _ _ Hmall Hmrow) as HmrowC. cbn in HmrowC.
    split; [rewrite length_zip_with; lia|].
    apply Forall_forall. intros cell' Hcell'.
    apply elem_of_lookup_zip_with in Hcell' as (j & v & cell & -> & _ & Hcell).
    rewrite length_insert. exact (Forall_lookup_1 _ _ _ _ Hcells Hcell).
Qed.

End IbwFacts.

(** X22. Without flattening, [load_ibw] returns the wave rotated by a
    quarter turn in its first two axes: a wave of shape [(R, C, K)] is
    returned with shape [(C, R, K)], and the entry [[i, j, k]] returned is
    the entry [[j, C - 1 - i, k]] of the wave. *)
Theorem load_ibw_rotates (load : string → result Np.array3)
    (detrend : Np.array2 → result Np.array2) (path : string)
    (data : Np.array3) (R C K : nat) :
  load path = Ok data →
  Np.has_shape R C K data → (0 < R)%nat → (0 < C)%nat →
  ∃ out,
    Ibw.load_ibw load detrend path false = Ok out ∧
    Np.has_shape C R K out ∧
    ∀ i j k, (i < C)%nat → (j < R)%nat →
      Slice.get3 out i j k = Slice.get3 data j (C - 1 - i) k.
Proof.
  intros Hload Hshape HR HC. exists (Ibw.rot90 data).
  split; [unfold Ibw.load_ibw; now rewrite Hload|].
  split; [now apply rot90_shape|].
  intros i j k Hi Hj. now apply (rot90_entry data R C K).
Qed.

Lemma load_ibw_rotates_witness :
  ∃ out,
    Ibw.load_ibw (λ _, Ok Sample.wave_1x2) Sample.minus_one "scan.ibw" false = Ok out ∧
    Np.has_shape 2 1 2 out ∧
    ∀ i j k, (i < 2)%nat → (j < 1)%nat →
      Slice.get3 out i j k = Slice.get3 Sample.wave_1x2 j (2 - 1 - i) k.
Proof.
  apply (load_ibw_rotates (λ _, Ok Sample.wave_1x2) Sample.minus_one "scan.ibw"
           Sample.wave_1x2 1 2 2 eq_refl); [|lia|lia].
  repeat split; repeat constructor.
Defined.

(** X23. With flattening, [load_ibw] changes channel 0 and no other: the
    result has the shape and the orientation of the result without
    flattening, its entries at a channel other than 0 are those of the wave,
    and its entries at channel 0 are those of the plane that [detrend]
    returns for channel 0 of the wave. *)
Theorem flattening_changes_channel_0_only (load : string → result Np.array3)
    (detrend : Np.array2 → result Np.array2) (path : string)
    (data : Np.array3) (flat : Np.array2) (R C K : nat) :
  load path = Ok data →
  Np.has_shape R C K data → (0 < R)%nat → (0 < C)%nat → (0 < K)%nat →
  detrend (Ibw.plane0 data) = Ok flat → Np.has_shape2 R C flat →
  ∃ out,
    Ibw.load_ibw load detrend path true = Ok out ∧
    Np.has_shape C R K out ∧
    ∀ i j, (i < C)%nat → (j < R)%nat →
      Slice.get3 out i j 0 = Slice.get2 flat j (C - 1 - i) ∧
      ∀ k, k ≠ 0%nat → Slice.get3 out i j k = Slice.get3 data j (C - 1 - i) k.
Proof.
  intros Hload Hshape HR HC HK Hflat Hfshape.
  exists (Ibw.rot90 (Ibw.set_plane0 flat data)).
  pose proof (set_plane0_shape flat data R C K Hshape Hfshape) as Hshape'.
  split.
  { unfold Ibw.load_ibw. rewrite Hload. run_bind.
    destruct (shape_read_back _ _ _ _ Hshape HR HC) as (_ & _ & ->).
    destruct (Nat.eqb_spec K 0) as [?|_]; [lia|]. now rewrite Hflat. }
  split; [now apply rot90_shape|].
  intros i j Hi Hj.
  destruct (set_plane0_cell flat data R C K j (C - 1 - i) Hshape Hfshape Hj
              ltac:(lia)) as (v & cell & Hv & Hcell & Hcl & Hnew).
  split.
  - rewrite (rot90_entry _ R C K i j 0 Hshape' Hi Hj).
    rewrite get3_cell_at, Hnew, Hv. cbn.
    apply list_lookup_insert_eq. lia.
  - intros k Hk. rewrite (rot90_entry _ R C K i j k Hshape' Hi Hj).
    rewrite !get3_cell_at, Hnew, Hcell. cbn.
    apply list_lookup_insert_ne. congruence.
Qed.

Lemma flattening_changes_channel_0_only_witness :
  ∃ out,
    Ibw.load_ibw (λ _, Ok Sample.wave_1x2) Sample.minus_one "scan.ibw" true = Ok out ∧
    Np.has_shape 2 1 2 out ∧
    ∀ i j, (i < 2)%nat → (j < 1)%nat →
      Slice.get3 out i j 0 = Slice.get2 [[0; 2]]%float j (2 - 1 - i) ∧
      ∀ k, k ≠ 0%nat →
        Slice.get3 out i j k = Slice.get3 Sample.wave_1x2 j (2 - 1 - i) k.
Proof.
  apply (flattening_changes_channel_0_only (λ _, Ok Sample.wave_1x2) Sample.minus_one
           "scan.ibw" Sample.wave_1x2 [[0; 2]]%float 1 2 2 eq_refl);
    [|lia|lia|lia|reflexivity|].
  - repeat split; repeat constructor.
  - repeat split; repeat constructor.
Defined.

(** ** The size of the cube file *)

(** X24. A cube file is accepted in two sizes only, one sample per pixel
    and wavelength or one sample per pixel: with any other number of samples
    filling the cube raises [ValueError]. *)
Theorem cube_file_of_wrong_size_raises (bytes : list Byte.byte) (scale : float)
    (X Y Ns : nat) (a : Np.array3) :
  Np.has_shape X Y Ns a → (0 < X)%nat → (0 < Y)%nat →
  length (Num.fromfile_i4 bytes) ≠ (Y * (X * Ns))%nat →
  length (Num.fromfile_i4 bytes) ≠ (Y * X)%nat →
  Hyper.fill (Hyper.assign_spectrum scale) (Z.of_nat X) (Z.of_nat Y)
    (Num.fromfile_i4 bytes) a
  = Raise ValueError.
Proof.
  intros Hshape HX HY Hfull Hone. set (raw := Num.fromfile_i4 bytes) in *.
  unfold Hyper.fill.
  destruct (divides_or_not (length raw) Y HY) as [Hmod|[m Hm]].
  { now rewrite (split_uneven raw Y HY Hmod). }
  destruct (split_first_piece raw Y m HY Hm) as (lines & -> & Hline).
  run_bind. cbn [Hyper.line_loop].
  destruct (divides_or_not m X HX) as [Hmod|[n Hn]].
  { rewrite (split_uneven _ X HX) by now rewrite Hline. reflexivity. }
  destruct (split_first_piece (Np.chunk m raw 0) X n HX) as (pixels & -> & Hpixel);
    [now rewrite Hline|].
  run_bind. cbn [Hyper.pixel_loop].
  destruct (shape_cell a X Y Ns Hshape 0 0 HX HY) as (row & cell & Hrow & Hcell & Hcl).
  unfold Hyper.assign_spectrum, Hyper.assign_cell, Hyper.nth_item.
  rewrite Hrow. run_bind. rewrite Hcell. run_bind.
  unfold Hyper.store_spectrum, Hyper.broadcast. rewrite Hcl.
  assert (length (Hyper.scaled scale (Np.chunk n (Np.chunk m raw 0) 0)) = n) as Hscaled
    by (unfold Hyper.scaled; now rewrite length_map).
  rewrite Hscaled.
  assert (n ≠ Ns) as HnS by (intros ->; apply Hfull; subst m; lia).
  assert (n ≠ 1%nat) as Hn1 by (intros ->; apply Hone; subst m; lia).
  destruct (Nat.eqb_spec n Ns) as [?|_]; [congruence|].
  destruct (Hyper.scaled scale (Np.chunk n (Np.chunk m raw 0) 0)) as [|v [|? ?]];
    cbn in Hscaled; try reflexivity. congruence.
Qed.

Lemma cube_file_of_wrong_size_raises_witness :
  Hyper.fill (Hyper.assign_spectrum 1) 2 1
    (Num.fromfile_i4 [Byte.x01; Byte.x00; Byte.x00; Byte.x00;
                      Byte.x02; Byte.x00; Byte.x00; Byte.x00;
                      Byte.x03; Byte.x00; Byte.x00; Byte.x00;
                      Byte.x04; Byte.x00; Byte.x00; Byte.x00])
    [[[0; 0; 0]]; [[0; 0; 0]]]%float
  = Raise ValueError.
Proof.
  apply (cube_file_of_wrong_size_raises _ 1%float 2 1 3
           [[[0; 0; 0]]; [[0; 0; 0]]]%float).
  - repeat split; repeat constructor.
  - lia.
  - lia.
  - cbn. lia.
  - cbn. lia.
Defined.
